(** * Spring engine font renderer (rts/Rendering/Fonts/glFont.cpp)

    A shallow embedding of the styled-text scanner, the metrics engine, the
    line splitter, the outline-contrast selector and the batch accumulator of
    [CglFont], with the properties of the specification stated over it.

    Conventions of the embedding.
    - A [std::u8string] / [std::string] is a [list byte]; [text[i]] is
      [text @ i].
    - [int] and [size_t] cursors are natural numbers: the texts are taken to be
      shorter than 2^31 bytes, so that no cursor of the source wraps around.
    - A [float] is an IEEE-754 binary32 value and a [double] a binary64 value,
      both as [spec_float] of the Standard Library, with round-to-nearest-even
      operations.  [std::pow] is a parameter.
    - A loop is a [Fixpoint] on a fuel argument that returns [None] when the
      fuel runs out; every entry point passes enough fuel and is proved to
      return.
    - The glyph provider, the code-point decoder [utf8::GetNextChar], the two
      indicator bytes of [glFont.h] and [float4::operator==] are declared
      outside this translation unit; they are section variables. *)

From Stdlib Require Import Strings.String.
From Stdlib Require Import ZArith NArith List Bool Lia.
From Stdlib Require Import Strings.Byte Floats.SpecFloat.
Import ListNotations.

Set Implicit Arguments.

(* ===================================================================== *)
(** * Part I: the model                                                    *)
(* ===================================================================== *)

(** ** IEEE-754 arithmetic *)

(** [std::min] and [std::max] of <algorithm>, over a strict order [lt]:
    [min(a,b) = (b < a) ? b : a] and [max(a,b) = (a < b) ? b : a]. *)
Definition std_min {A} (lt : A -> A -> bool) (a b : A) : A :=
  if lt b a then b else a.
Definition std_max {A} (lt : A -> A -> bool) (a b : A) : A :=
  if lt a b then b else a.

(** Conversion of a value to the format [(prec, emax)], rounding to nearest
    even; exact when the value is representable. *)
Definition round_to (prec emax : Z) (x : spec_float) : spec_float :=
  match x with
  | S754_finite s m e => binary_round prec emax s m e
  | _ => x
  end.

(** [float] and [double]. *)
Definition float : Type := spec_float.
Definition double : Type := spec_float.

Module B32.
Definition prec : Z := 24.
Definition emax : Z := 128.
Definition add : float -> float -> float := SFadd prec emax.
Definition sub : float -> float -> float := SFsub prec emax.
Definition mul : float -> float -> float := SFmul prec emax.
Definition div : float -> float -> float := SFdiv prec emax.
Definition ltb : float -> float -> bool := SFltb.
Definition eqb : float -> float -> bool := SFeqb.

(** Conversion of an integer ([int], [unsigned], [bool], [char8_t]). *)
Definition of_Z (z : Z) : float := binary_normalize prec emax z 0 false.
Definition of_nat (n : nat) : float := of_Z (Z.of_nat n).
Definition of_bool (b : bool) : float := of_Z (if b then 1 else 0).

(** The literal [n/d] written in decimal with suffix [f]: the binary32
    value nearest to the rational (a correctly rounded quotient of two
    exactly representable integers). *)
Definition lit (n : Z) (d : positive) : float := div (of_Z n) (of_Z (Zpos d)).

Definition zero : float := S754_zero false.
Definition min : float -> float -> float := std_min ltb.
Definition max : float -> float -> float := std_max ltb.
End B32.

Module B64.
Definition prec : Z := 53.
Definition emax : Z := 1024.
Definition add : double -> double -> double := SFadd prec emax.
Definition mul : double -> double -> double := SFmul prec emax.
Definition div : double -> double -> double := SFdiv prec emax.
Definition of_Z (z : Z) : double := binary_normalize prec emax z 0 false.
Definition lit (n : Z) (d : positive) : double := div (of_Z n) (of_Z (Zpos d)).

(** Usual arithmetic conversion [float -> double] and the narrowing
    conversion of an initialisation [const float x = <double>]. *)
Definition of_float (x : float) : double := round_to prec emax x.
Definition to_float (x : double) : float := round_to B32.prec B32.emax x.
End B64.

(** The value that [==] compares: the two zeros are one value, a NaN is
    none. *)
Definition B32_key (x : float) : option float :=
  match x with
  | S754_zero _ => Some (S754_zero false)
  | S754_nan => None
  | _ => Some x
  end.

(** The place of a number in the order of [<]: its class (negative
    infinity, negative, zero, positive, positive infinity), then its
    exponent, then its mantissa; for a negative number the latter two
    count downwards. *)
Definition B32_rank (x : float) : Z * Z * Z :=
  match x with
  | S754_infinity true => (-2, 0, 0)%Z
  | S754_finite true m e => (-1, - e, Zneg m)%Z
  | S754_finite false m e => (1, e, Zpos m)%Z
  | S754_infinity false => (2, 0, 0)%Z
  | _ => (0, 0, 0)%Z
  end.

Definition lex_lt (a b : Z * Z * Z) : Prop :=
  let '(a1, a2, a3) := a in
  let '(b1, b2, b3) := b in
  (a1 < b1 \/ (a1 = b1 /\ (a2 < b2 \/ (a2 = b2 /\ a3 < b3))))%Z.

(** [r] is the greatest of the values [ws]: it is one of them and is less
    than none of them. *)
Definition greatest_of (r : float) (ws : list float) : Prop :=
  In r ws /\ Forall (fun w => B32.ltb r w = false) ws.

(** ** Texts, colours, glyphs *)

Definition u8string : Type := list byte.
Definition char32_t : Type := N.

(** [text[i]]; the source only reads below [text.size()]. *)
Definition at_ (text : u8string) (i : nat) : byte := nth i text x00.
Notation "t @ i" := (at_ t i) (at level 25, left associativity).

(** [text.substr(pos, n)]. *)
Definition substr (text : u8string) (pos n : nat) : u8string :=
  firstn n (skipn pos text).

Definition char32_of_byte (b : byte) : char32_t := Byte.to_N b.
Definition float_of_byte (b : byte) : float := B32.of_Z (Z.of_N (Byte.to_N b)).

Record float4 : Type := mkfloat4 { fx : float; fy : float; fz : float; fw : float }.

(** The fields of [GlyphInfo] read by the metrics engine. *)
Record GlyphInfo : Type := mkGlyph {
  advance : float;
  height : float;
  descender : float
}.

(** glFont.cpp:42-44. *)
Definition white : float4 :=
  mkfloat4 (B32.lit 100 100) (B32.lit 100 100) (B32.lit 100 100) (B32.lit 95 100).
Definition darkOutline : float4 :=
  mkfloat4 (B32.lit 5 100) (B32.lit 5 100) (B32.lit 5 100) (B32.lit 95 100).
Definition lightOutline : float4 :=
  mkfloat4 (B32.lit 95 100) (B32.lit 95 100) (B32.lit 95 100) (B32.lit 8 10).

(** ** The byte-level scanner *)

Section Scanner.
(** [CglFont::ColorCodeIndicator] and [CglFont::ColorResetIndicator]
    (glFont.h).  As labels of one [switch] they differ from each other and
    from CR and LF; the model tests them in the order of the source. *)
Variables ColorCodeIndicator ColorResetIndicator : byte.

(** glFont.cpp:138-146. *)
Fixpoint SkipColorCodes_loop (fuel : nat) (text : u8string) (idx : nat) : option nat :=
  if (idx <? length text) && Byte.eqb (text @ idx) ColorCodeIndicator then
    match fuel with
    | O => None
    | S fuel' => SkipColorCodes_loop fuel' text (idx + 4)
    end
  else Some idx.

Definition SkipColorCodes (text : u8string) (idx : nat) : option nat :=
  match SkipColorCodes_loop (length text) text idx with
  | Some idx' => Some (Nat.min (length text) idx')
  | None => None
  end.

(** glFont.cpp:149-192.  The out-parameters are the fields of a record. *)
Record scan_state : Type := mkScan {
  pos : nat;
  color : float4;
  colorChanged : bool;
  skippedLines : nat
}.

(** One iteration of the [while] loop; [None] is the [default:] case, which
    returns [false]. *)
Definition scan_body (text : u8string) (colorReset : float4) (st : scan_state)
  : option scan_state :=
  let length := length text in
  let chr := text @ (pos st) in
  if Byte.eqb chr ColorCodeIndicator then
    let pos' := pos st + 4 in
    if pos' <? length then
      Some (mkScan pos'
              (mkfloat4 (B32.div (float_of_byte (text @ (pos' - 3))) (B32.lit 255 1))
                        (B32.div (float_of_byte (text @ (pos' - 2))) (B32.lit 255 1))
                        (B32.div (float_of_byte (text @ (pos' - 1))) (B32.lit 255 1))
                        (fw (color st)))
              true (skippedLines st))
    else Some (mkScan pos' (color st) (colorChanged st) (skippedLines st))
  else if Byte.eqb chr ColorResetIndicator then
    Some (mkScan (pos st + 1) colorReset true (skippedLines st))
  else if Byte.eqb chr x0d then
    let pos' := pos st + 1 in
    let pos'' := if (pos' <? length) && Byte.eqb (text @ pos') x0a then pos' + 1 else pos' in
    Some (mkScan pos'' (color st) (colorChanged st) (skippedLines st + 1))
  else if Byte.eqb chr x0a then
    Some (mkScan (pos st + 1) (color st) (colorChanged st) (skippedLines st + 1))
  else None.

Fixpoint SkipColorCodesAndNewLines_loop (fuel : nat) (text : u8string)
    (colorReset : float4) (st : scan_state) : option (bool * scan_state) :=
  if pos st <? length text then
    match scan_body text colorReset st with
    | None => Some (false, st)
    | Some st' =>
        match fuel with
        | O => None
        | S fuel' => SkipColorCodesAndNewLines_loop fuel' text colorReset st'
        end
    end
  else Some (true, st).

Definition SkipColorCodesAndNewLines (text : u8string) (pos0 : nat)
    (color0 colorReset : float4) : option (bool * scan_state) :=
  SkipColorCodesAndNewLines_loop (length text) text colorReset
    (mkScan pos0 color0 false 0).

(** glFont.cpp:205-219. *)
Fixpoint StripColorCodes_loop (fuel : nat) (text : u8string) (i : nat)
    (nocolor : list byte) : option (list byte) :=
  if i <? length text then
    match fuel with
    | O => None
    | S fuel' =>
        if Byte.eqb (text @ i) ColorCodeIndicator
        then StripColorCodes_loop fuel' text (i + 3 + 1) nocolor
        else StripColorCodes_loop fuel' text (i + 1) (nocolor ++ [text @ i])
    end
  else Some nocolor.

Definition StripColorCodes_ (text : u8string) : option (list byte) :=
  StripColorCodes_loop (length text) text 0 [].

(** glFont.cpp:343-379.  [SkipColorCodes] returns a [std::min] of two
    non-negative values, so the branch [pos < 0] is dead and [pos--] is
    undone by the [pos++] of the [for]. *)
Fixpoint GetTextNumLines_loop (fuel : nat) (text : u8string) (pos lines : nat)
    : option nat :=
  if pos <? length text then
    match fuel with
    | O => None
    | S fuel' =>
        let c := text @ pos in
        if Byte.eqb c ColorCodeIndicator then
          match SkipColorCodes text pos with
          | Some pos' => GetTextNumLines_loop fuel' text (pos' - 1 + 1) lines
          | None => None
          end
        else if Byte.eqb c ColorResetIndicator then
          GetTextNumLines_loop fuel' text (pos + 1) lines
        else if Byte.eqb c x0d then
          let pos' :=
            pos + (if (pos + 1 <? length text) && Byte.eqb (text @ (pos + 1)) x0a
                   then 1 else 0) in
          GetTextNumLines_loop fuel' text (pos' + 1) (lines + 1)
        else if Byte.eqb c x0a then
          GetTextNumLines_loop fuel' text (pos + 1) (lines + 1)
        else GetTextNumLines_loop fuel' text (pos + 1) lines
    end
  else Some lines.

Definition GetTextNumLines_ (text : u8string) : option nat :=
  match text with
  | [] => Some 0
  | _ => GetTextNumLines_loop (length text) text 0 1
  end.

(** glFont.cpp:382-426.  [lines.back() += s] and [lines.back() = s] on a
    deque that always holds at least one line inside the loop. *)
Definition back_append (lines : list u8string) (s : u8string) : list u8string :=
  removelast lines ++ [last lines [] ++ s].
Definition back_assign (lines : list u8string) (s : u8string) : list u8string :=
  removelast lines ++ [s].

(** The line-break case: [lines.push_back("")], then
    [for (auto& color: colorCodeStack) lines.back() = color;]. *)
Definition newline (lines colorCodeStack : list u8string) : list u8string :=
  fold_left (fun ls color => back_assign ls color) colorCodeStack (lines ++ [[]]).

Fixpoint SplitIntoLines_loop (fuel : nat) (text : u8string) (pos : nat)
    (lines colorCodeStack : list u8string) : option (list u8string) :=
  if pos <? length text then
    match fuel with
    | O => None
    | S fuel' =>
        let c := text @ pos in
        if Byte.eqb c ColorCodeIndicator then
          if pos + 3 <? length text then
            let colorCodeStack' := colorCodeStack ++ [substr text pos 4] in
            SplitIntoLines_loop fuel' text (pos + 3 + 1)
              (back_append lines (last colorCodeStack' [])) colorCodeStack'
          else SplitIntoLines_loop fuel' text (pos + 1) lines colorCodeStack
        else if Byte.eqb c ColorResetIndicator then
          SplitIntoLines_loop fuel' text (pos + 1)
            (back_append lines [c]) (removelast colorCodeStack)
        else if Byte.eqb c x0d then
          let pos' :=
            pos + (if (pos + 1 <? length text) && Byte.eqb (text @ (pos + 1)) x0a
                   then 1 else 0) in
          SplitIntoLines_loop fuel' text (pos' + 1)
            (newline lines colorCodeStack) colorCodeStack
        else if Byte.eqb c x0a then
          SplitIntoLines_loop fuel' text (pos + 1)
            (newline lines colorCodeStack) colorCodeStack
        else SplitIntoLines_loop fuel' text (pos + 1) (back_append lines [c]) colorCodeStack
    end
  else Some lines.

Definition SplitIntoLines (text : u8string) : option (list u8string) :=
  match text with
  | [] => Some []
  | _ => SplitIntoLines_loop (length text) text 0 [[]] []
  end.
End Scanner.


(** ** Well-formed texts

    The texts that the properties of the byte scan range over. *)

(** A text made of printable bytes and complete colour-set sequences. *)
Inductive item : Type :=
| Printable (b : byte)
| ColorSet (r g b : byte).

Section Texts.
Variables ColorCodeIndicator ColorResetIndicator : byte.

(** A byte that reaches the [default:] case of the scanner. *)
Definition printable_byte (b : byte) : bool :=
  negb (Byte.eqb b ColorCodeIndicator) && negb (Byte.eqb b ColorResetIndicator) &&
  negb (Byte.eqb b x0d) && negb (Byte.eqb b x0a).

Definition render_item (it : item) : u8string :=
  match it with
  | Printable b => [b]
  | ColorSet r g b => [ColorCodeIndicator; r; g; b]
  end.

Definition render (items : list item) : u8string := flat_map render_item items.

Definition printables (items : list item) : list byte :=
  flat_map (fun it => match it with Printable b => [b] | ColorSet _ _ _ => [] end) items.

Definition well_formed (items : list item) : Prop :=
  Forall (fun it => match it with
                    | Printable b => printable_byte b = true
                    | ColorSet _ _ _ => True
                    end) items.

(** No byte of the text is an indicator. *)
Definition no_control (text : u8string) : Prop :=
  Forall (fun b => b <> ColorCodeIndicator /\ b <> ColorResetIndicator) text.
End Texts.

(** Number of line breaks of a text: CR, LF, and CR immediately followed by
    LF, each counted once. *)
Fixpoint count_breaks (text : u8string) : nat :=
  match text with
  | [] => 0
  | c :: r =>
      if Byte.eqb c x0d then
        match r with
        | c' :: r' => if Byte.eqb c' x0a then S (count_breaks r') else S (count_breaks r)
        | [] => 1
        end
      else if Byte.eqb c x0a then S (count_breaks r)
      else count_breaks r
  end.

(** ** The metrics engine *)

(** The control tokens of the code-point scan.  [TColor] stands for a run of
    adjacent colour-set sequences, which [SkipColorCodes] passes in one go. *)
Inductive token : Type :=
| TColor
| TColorReset
| TLineBreak
| TPrintable (u : char32_t).

Section Metrics.
Variables ColorCodeIndicator ColorResetIndicator : byte.

(** [utf8::GetNextChar(text, idx)] (System/StringUtil.h): the code point at
    [idx] and the advanced cursor. *)
Variable GetNextChar : u8string -> nat -> char32_t * nat.

(** The glyph provider (CFontTexture): [GetGlyph], [GetKerning],
    [GetLineHeight], [GetDescender]. *)
Variable GetGlyph : char32_t -> GlyphInfo.
Variable GetKerning : GlyphInfo -> GlyphInfo -> float.
Variables GetLineHeight GetDescender : float.

(** [idx += (idx < end && text[idx] == 0x0a)]. *)
Definition skip_lf (text : u8string) (idx : nat) : nat :=
  idx + (if (idx <? length text) && Byte.eqb (text @ idx) x0a then 1 else 0).

(** [if (prvGlyphPtr != nullptr) curw += GetGlyph(prvGlyphIdx).advance;]
    The pair [prvGlyphPtr], [prvGlyphIdx] is an [option]. *)
Definition add_advance (curw : float) (prv : option char32_t) : float :=
  match prv with
  | Some p => B32.add curw (advance (GetGlyph p))
  | None => curw
  end.

(** [if (prvGlyphPtr != nullptr) curw += GetKerning(GetGlyph(prvGlyphIdx), *curGlyphPtr);] *)
Definition add_kerning (curw : float) (prv : option char32_t) (cur : char32_t) : float :=
  match prv with
  | Some p => B32.add curw (GetKerning (GetGlyph p) (GetGlyph cur))
  | None => curw
  end.

(** glFont.cpp:228-285; the loop returns [(curw, maxw, prvGlyph)]. *)
Fixpoint GetTextWidth_loop (fuel : nat) (text : u8string) (idx : nat)
    (curw maxw : float) (prv : option char32_t)
    : option (float * float * option char32_t) :=
  if idx <? length text then
    match fuel with
    | O => None
    | S fuel' =>
        let '(curGlyphIdx, idx1) := GetNextChar text idx in
        if N.eqb curGlyphIdx (char32_of_byte ColorCodeIndicator) then
          match SkipColorCodes ColorCodeIndicator text (idx1 - 1) with
          | Some idx2 => GetTextWidth_loop fuel' text idx2 curw maxw prv
          | None => None
          end
        else if N.eqb curGlyphIdx (char32_of_byte ColorResetIndicator) then
          GetTextWidth_loop fuel' text idx1 curw maxw prv
        else if N.eqb curGlyphIdx 13 then
          GetTextWidth_loop fuel' text (skip_lf text idx1)
            B32.zero (B32.max (add_advance curw prv) maxw) None
        else if N.eqb curGlyphIdx 10 then
          GetTextWidth_loop fuel' text idx1
            B32.zero (B32.max (add_advance curw prv) maxw) None
        else
          GetTextWidth_loop fuel' text idx1
            (add_kerning curw prv curGlyphIdx) maxw (Some curGlyphIdx)
    end
  else Some (curw, maxw, prv).

Definition GetTextWidth_ (text : u8string) : option float :=
  match text with
  | [] => Some B32.zero
  | _ =>
      match GetTextWidth_loop (length text) text 0 B32.zero B32.zero None with
      | Some (curw, maxw, prv) => Some (B32.max (add_advance curw prv) maxw)
      | None => None
      end
  end.

(** glFont.cpp:288-340; the result is [(h, *descender, *numLines)]. *)
Fixpoint GetTextHeight_loop (fuel : nat) (text : u8string) (idx : nat)
    (h d : float) (multiLine : nat) : option (float * float * nat) :=
  if idx <? length text then
    match fuel with
    | O => None
    | S fuel' =>
        let '(u, idx1) := GetNextChar text idx in
        if N.eqb u (char32_of_byte ColorCodeIndicator) then
          match SkipColorCodes ColorCodeIndicator text (idx1 - 1) with
          | Some idx2 => GetTextHeight_loop fuel' text idx2 h d multiLine
          | None => None
          end
        else if N.eqb u (char32_of_byte ColorResetIndicator) then
          GetTextHeight_loop fuel' text idx1 h d multiLine
        else if N.eqb u 13 then
          GetTextHeight_loop fuel' text (skip_lf text idx1)
            h (B32.add GetLineHeight GetDescender) (multiLine + 1)
        else if N.eqb u 10 then
          GetTextHeight_loop fuel' text idx1
            h (B32.add GetLineHeight GetDescender) (multiLine + 1)
        else
          let g := GetGlyph u in
          GetTextHeight_loop fuel' text idx1
            (B32.max h (B32.mul (height g) (B32.of_bool (multiLine <? 2))))
            (B32.min d (descender g)) multiLine
    end
  else Some (h, d, multiLine).

(** [d -= ((multiLine - 1) * GetLineHeight() * (multiLine > 1));] *)
Definition shift_descender (d : float) (multiLine : nat) : float :=
  B32.sub d (B32.mul (B32.mul (B32.of_nat (multiLine - 1)) GetLineHeight)
                     (B32.of_bool (1 <? multiLine))).

Definition GetTextHeight_ (text : u8string) : option (float * float * nat) :=
  match text with
  | [] => Some (B32.zero, B32.zero, 0)
  | _ =>
      match GetTextHeight_loop (length text) text 0
              B32.zero (B32.add GetLineHeight GetDescender) 1 with
      | Some (h, d, multiLine) => Some (h, shift_descender d multiLine, multiLine)
      | None => None
      end
  end.

(** *** The token stream of the code-point scan

    The [switch] shared by [GetTextWidth_] and [GetTextHeight_], read as a
    tokenizer: the token at [idx] and the cursor after it. *)
Definition next_token (text : u8string) (idx : nat) : option (token * nat) :=
  let '(u, idx1) := GetNextChar text idx in
  if N.eqb u (char32_of_byte ColorCodeIndicator) then
    match SkipColorCodes ColorCodeIndicator text (idx1 - 1) with
    | Some idx2 => Some (TColor, idx2)
    | None => None
    end
  else if N.eqb u (char32_of_byte ColorResetIndicator) then Some (TColorReset, idx1)
  else if N.eqb u 13 then Some (TLineBreak, skip_lf text idx1)
  else if N.eqb u 10 then Some (TLineBreak, idx1)
  else Some (TPrintable u, idx1).

Fixpoint tokens_from (fuel : nat) (text : u8string) (idx : nat) : option (list token) :=
  if idx <? length text then
    match fuel with
    | O => None
    | S fuel' =>
        match next_token text idx with
        | Some (t, idx') =>
            match tokens_from fuel' text idx' with
            | Some ts => Some (t :: ts)
            | None => None
            end
        | None => None
        end
    end
  else Some [].

Definition tokens (text : u8string) : option (list token) :=
  tokens_from (length text) text 0.

(** The printable code points of each line: line breaks separate, colour
    tokens vanish. *)
Fixpoint glyph_lines (ts : list token) : list (list char32_t) :=
  match ts with
  | [] => [[]]
  | TLineBreak :: r => [] :: glyph_lines r
  | TPrintable u :: r =>
      match glyph_lines r with
      | l :: ls => (u :: l) :: ls
      | [] => [[u]]
      end
  | _ :: r => glyph_lines r
  end.

(** Width of one line, summed from left to right: the kerning-adjusted
    advance [GetKerning] of each pair of neighbours, then the advance of the
    last glyph. *)
Fixpoint line_width_from (w : float) (prv : option char32_t) (l : list char32_t) : float :=
  match l with
  | [] => add_advance w prv
  | c :: r => line_width_from (add_kerning w prv c) (Some c) r
  end.

Definition line_width (l : list char32_t) : float := line_width_from B32.zero None l.

(** The summands of the width of a line as the specification puts it, from
    left to right: for each glyph that has a right neighbour the advance of
    the pair, [GetKerning], and for the last glyph its own advance. *)
Fixpoint line_summands (l : list char32_t) : list float :=
  match l with
  | [] => []
  | c :: r =>
      match r with
      | [] => [advance (GetGlyph c)]
      | d :: _ => GetKerning (GetGlyph c) (GetGlyph d) :: line_summands r
      end
  end.

(** Their sum, from 0. *)
Definition line_sum (l : list char32_t) : float :=
  fold_left B32.add (line_summands l) B32.zero.

(** Running maximum, from [maxw = 0.0f], in the order of the lines. *)
Definition max_width_from (m : float) (ws : list float) : float :=
  fold_left (fun m w => B32.max w m) ws m.




(** The bodies of the two loops, token by token. *)
Fixpoint width_tokens (ts : list token) (curw maxw : float) (prv : option char32_t)
    : float * float * option char32_t :=
  match ts with
  | [] => (curw, maxw, prv)
  | TLineBreak :: r =>
      width_tokens r B32.zero (B32.max (add_advance curw prv) maxw) None
  | TPrintable u :: r => width_tokens r (add_kerning curw prv u) maxw (Some u)
  | _ :: r => width_tokens r curw maxw prv
  end.

Fixpoint height_tokens (ts : list token) (h d : float) (multiLine : nat)
    : float * float * nat :=
  match ts with
  | [] => (h, d, multiLine)
  | TLineBreak :: r =>
      height_tokens r h (B32.add GetLineHeight GetDescender) (multiLine + 1)
  | TPrintable u :: r =>
      height_tokens r
        (B32.max h (B32.mul (height (GetGlyph u)) (B32.of_bool (multiLine <? 2))))
        (B32.min d (descender (GetGlyph u))) multiLine
  | _ :: r => height_tokens r h d multiLine
  end.

(** What the scan needs of the decoder: inside the text it moves the cursor
    forward, and a code point that it reads from a single byte is that
    byte. *)
Definition decoder_ok : Prop :=
  forall text idx, idx < length text ->
    idx < snd (GetNextChar text idx) /\
    (snd (GetNextChar text idx) = idx + 1 ->
     fst (GetNextChar text idx) = char32_of_byte (text @ idx)).
End Metrics.

(** ** The outline-contrast selector and the batch accumulator *)

(** One vertex of [AddVertexQ2dT(x, y, tx, ty)]. *)
Record vertex : Type := mkVertex { vx : float; vy : float; vtx : float; vty : float }.

(** Modelled from the spec: [CVertexArray] (Rendering/GL/VertexArray.h) is not
    part of the excerpt.  It is a growable vertex collection with a list of
    strip boundaries; "its boundary is the vertex count in the accumulator at
    the moment it was opened". *)
Record CVertexArray : Type := mkVA {
  drawArray : list vertex;
  stripArray : list nat
}.

Definition Initialize (a : CVertexArray) : CVertexArray := mkVA [] [].
Definition drawIndex (a : CVertexArray) : nat := length (drawArray a).
Definition EndStrip (a : CVertexArray) : CVertexArray :=
  mkVA (drawArray a) (stripArray a ++ [drawIndex a]).
Definition AddVertexQ2dT (v : vertex) (a : CVertexArray) : CVertexArray :=
  mkVA (drawArray a ++ [v]) (stripArray a).

(** The calls into the graphics API, recorded in program order. *)
Inductive gl_cap : Type := GL_LIGHTING | GL_DEPTH_TEST | GL_BLEND | GL_TEXTURE_2D.
Inductive gl_matrix : Type := GL_TEXTURE | GL_MODELVIEW.
Inductive gl_call : Type :=
| glPushAttrib
| glPopAttrib
| glDisable (c : gl_cap)
| glEnable (c : gl_cap)
| glBlendFunc
| UpdateTexture
| glBindTexture
| glMatrixMode (m : gl_matrix)
| glPushMatrix
| glPopMatrix
| glCallList
| glColor4fv (c : float4)
| DrawArray2dT (a : CVertexArray)
| DrawArray2dT_strips (a : CVertexArray) (colors : list float4).

Definition is_draw (c : gl_call) : bool :=
  match c with
  | DrawArray2dT _ | DrawArray2dT_strips _ _ => true
  | _ => false
  end.

(** The members of [CglFont] that the batch protocol reads or writes, the
    error log of [LOG_L(L_ERROR, ...)] and the trace of graphics calls.
    [vaMutex] is the number of times the recursive mutex is held. *)
Record CglFont : Type := mkFont {
  inBeginEnd : bool;
  autoOutlineColor : bool;
  setColor : bool;
  textColor : float4;
  outlineColor : float4;
  va : CVertexArray;
  va2 : CVertexArray;
  stripTextColors : list float4;
  stripOutlineColors : list float4;
  vaMutex : nat;
  errorLog : list string;
  glCalls : list gl_call
}.

Definition set_inBeginEnd (b : bool) (s : CglFont) : CglFont :=
  mkFont b (autoOutlineColor s) (setColor s) (textColor s) (outlineColor s) (va s) (va2 s)
    (stripTextColors s) (stripOutlineColors s) (vaMutex s) (errorLog s) (glCalls s).
Definition set_autoOutlineColor (b : bool) (s : CglFont) : CglFont :=
  mkFont (inBeginEnd s) b (setColor s) (textColor s) (outlineColor s) (va s) (va2 s)
    (stripTextColors s) (stripOutlineColors s) (vaMutex s) (errorLog s) (glCalls s).
Definition set_setColor (b : bool) (s : CglFont) : CglFont :=
  mkFont (inBeginEnd s) (autoOutlineColor s) b (textColor s) (outlineColor s) (va s) (va2 s)
    (stripTextColors s) (stripOutlineColors s) (vaMutex s) (errorLog s) (glCalls s).
Definition set_textColor (c : float4) (s : CglFont) : CglFont :=
  mkFont (inBeginEnd s) (autoOutlineColor s) (setColor s) c (outlineColor s) (va s) (va2 s)
    (stripTextColors s) (stripOutlineColors s) (vaMutex s) (errorLog s) (glCalls s).
Definition set_outlineColor (c : float4) (s : CglFont) : CglFont :=
  mkFont (inBeginEnd s) (autoOutlineColor s) (setColor s) (textColor s) c (va s) (va2 s)
    (stripTextColors s) (stripOutlineColors s) (vaMutex s) (errorLog s) (glCalls s).
Definition set_va (a : CVertexArray) (s : CglFont) : CglFont :=
  mkFont (inBeginEnd s) (autoOutlineColor s) (setColor s) (textColor s) (outlineColor s) a (va2 s)
    (stripTextColors s) (stripOutlineColors s) (vaMutex s) (errorLog s) (glCalls s).
Definition set_va2 (a : CVertexArray) (s : CglFont) : CglFont :=
  mkFont (inBeginEnd s) (autoOutlineColor s) (setColor s) (textColor s) (outlineColor s) (va s) a
    (stripTextColors s) (stripOutlineColors s) (vaMutex s) (errorLog s) (glCalls s).
Definition set_stripTextColors (l : list float4) (s : CglFont) : CglFont :=
  mkFont (inBeginEnd s) (autoOutlineColor s) (setColor s) (textColor s) (outlineColor s) (va s) (va2 s)
    l (stripOutlineColors s) (vaMutex s) (errorLog s) (glCalls s).
Definition set_stripOutlineColors (l : list float4) (s : CglFont) : CglFont :=
  mkFont (inBeginEnd s) (autoOutlineColor s) (setColor s) (textColor s) (outlineColor s) (va s) (va2 s)
    (stripTextColors s) l (vaMutex s) (errorLog s) (glCalls s).
Definition set_vaMutex (n : nat) (s : CglFont) : CglFont :=
  mkFont (inBeginEnd s) (autoOutlineColor s) (setColor s) (textColor s) (outlineColor s) (va s) (va2 s)
    (stripTextColors s) (stripOutlineColors s) n (errorLog s) (glCalls s).
Definition LOG_L_ERROR (msg : string) (s : CglFont) : CglFont :=
  mkFont (inBeginEnd s) (autoOutlineColor s) (setColor s) (textColor s) (outlineColor s) (va s) (va2 s)
    (stripTextColors s) (stripOutlineColors s) (vaMutex s) (errorLog s ++ [msg]) (glCalls s).
Definition gl (calls : list gl_call) (s : CglFont) : CglFont :=
  mkFont (inBeginEnd s) (autoOutlineColor s) (setColor s) (textColor s) (outlineColor s) (va s) (va2 s)
    (stripTextColors s) (stripOutlineColors s) (vaMutex s) (errorLog s) (glCalls s ++ calls).

(** [strips.back() = c] on a non-empty sequence of strip colours. *)
Definition set_back (l : list float4) (c : float4) : list float4 := removelast l ++ [c].

Definition isEmpty {A} (l : list A) : bool :=
  match l with [] => true | _ => false end.

(** The strip sequence after [SetTextColor] or [SetOutlineColor] with a
    colour that differs from the current one. *)
Definition next_strips (a : CVertexArray) (strips : list float4) (c : float4)
  : list float4 :=
  if (drawIndex a =? 0) && negb (isEmpty strips) then set_back strips c
  else strips ++ [c].

Section Batch.
(** [std::pow] of <cmath>, on doubles. *)
Variable pow : double -> double -> double.
(** [float4::operator==] (System/float4.h). *)
Variable float4_eq : float4 -> float4 -> bool.
(** [CglFont::threadSafety]. *)
Variable threadSafety : bool.

(** glFont.cpp:499-502 and 46-49: the sum is a [double], stored in a
    [float]. *)
Definition luminosity (c : float4) : float :=
  B64.to_float
    (B64.add
       (B64.add
          (B64.add (B64.lit 5 100)
             (B64.mul (B64.of_float (B32.lit 2126 10000))
                      (pow (B64.of_float (fx c)) (B64.lit 22 10))))
          (B64.mul (B64.of_float (B32.lit 7152 10000))
                   (pow (B64.of_float (fy c)) (B64.lit 22 10))))
       (B64.mul (B64.of_float (B32.lit 722 10000))
                (pow (B64.of_float (fz c)) (B64.lit 22 10)))).

Definition darkLuminosity : float := luminosity darkOutline.

(** glFont.cpp:497-511. *)
Definition ChooseOutlineColor (textColor : float4) : float4 :=
  let luminosity := luminosity textColor in
  let maxLum := B32.max luminosity darkLuminosity in
  let minLum := B32.min luminosity darkLuminosity in
  if B32.ltb (B32.lit 5 1) (B32.div maxLum minLum) then darkOutline else lightOutline.

Definition lock (s : CglFont) : CglFont :=
  if threadSafety then set_vaMutex (vaMutex s + 1) s else s.
Definition unlock (s : CglFont) : CglFont :=
  if threadSafety then set_vaMutex (vaMutex s - 1) s else s.

(** glFont.cpp:442-463; a null pointer is [None]. *)
Definition SetTextColor (color : option float4) (s : CglFont) : CglFont :=
  let color := match color with None => white | Some c => c end in
  let s := lock s in
  let s :=
    if inBeginEnd s && negb (float4_eq color (textColor s)) then
      if (drawIndex (va s) =? 0) && negb (isEmpty (stripTextColors s)) then
        set_stripTextColors (set_back (stripTextColors s) color) s
      else
        set_va (EndStrip (va s)) (set_stripTextColors (stripTextColors s ++ [color]) s)
    else s in
  let s := set_textColor color s in
  unlock s.

(** glFont.cpp:466-487. *)
Definition SetOutlineColor (color : option float4) (s : CglFont) : CglFont :=
  let color := match color with None => ChooseOutlineColor (textColor s) | Some c => c end in
  let s := lock s in
  let s :=
    if inBeginEnd s && negb (float4_eq color (outlineColor s)) then
      if (drawIndex (va2 s) =? 0) && negb (isEmpty (stripOutlineColors s)) then
        set_stripOutlineColors (set_back (stripOutlineColors s) color) s
      else
        set_va2 (EndStrip (va2 s)) (set_stripOutlineColors (stripOutlineColors s ++ [color]) s)
    else s in
  let s := set_outlineColor color s in
  unlock s.

(** glFont.cpp:490-494. *)
Definition SetColors (_textColor _outlineColor : option float4) (s : CglFont) : CglFont :=
  SetOutlineColor _outlineColor (SetTextColor _textColor s).

(** glFont.cpp:517-550.  On success the mutex stays held until [End]. *)
Definition Begin (immediate resetColors : bool) (s : CglFont) : CglFont :=
  let s := lock s in
  if inBeginEnd s then
    unlock (LOG_L_ERROR "called Begin() multiple times"%string s)
  else
    let s := set_autoOutlineColor true s in
    let s := set_setColor (negb immediate) s in
    let s := if resetColors then SetColors None None s else s in
    let s := set_inBeginEnd true s in
    let s := set_va (Initialize (va s)) s in
    let s := set_va2 (Initialize (va2 s)) s in
    let s := set_stripTextColors [] s in
    let s := set_stripOutlineColors [] s in
    let s := set_stripTextColors (stripTextColors s ++ [textColor s]) s in
    let s := set_stripOutlineColors (stripOutlineColors s ++ [outlineColor s]) s in
    gl [glPushAttrib; glDisable GL_LIGHTING; glDisable GL_DEPTH_TEST;
        glEnable GL_BLEND; glBlendFunc] s.

(** glFont.cpp:553-610.  [inListCompile] is the value read by
    [glGetBooleanv(GL_LIST_INDEX, ...)]. *)
Definition End_ (inListCompile : bool) (s : CglFont) : CglFont :=
  if negb (inBeginEnd s) then
    LOG_L_ERROR "called End() without Begin()"%string s
  else
    let s := set_inBeginEnd false s in
    if drawIndex (va s) =? 0 then
      unlock (gl [glPopAttrib] s)
    else
      let s := if negb inListCompile then gl [UpdateTexture] s else s in
      let s := gl [glEnable GL_TEXTURE_2D; glBindTexture; glMatrixMode GL_TEXTURE;
                   glPushMatrix; glCallList; glMatrixMode GL_MODELVIEW] s in
      let s :=
        if 0 <? drawIndex (va2 s) then
          if 1 <? length (stripOutlineColors s)
          then gl [DrawArray2dT_strips (va2 s) (stripOutlineColors s)] s
          else gl [glColor4fv (outlineColor s); DrawArray2dT (va2 s)] s
        else s in
      let s :=
        if 1 <? length (stripTextColors s)
        then gl [DrawArray2dT_strips (va s) (stripTextColors s)] s
        else
          let s := if setColor s then gl [glColor4fv (textColor s)] s else s in
          gl [DrawArray2dT (va s)] s in
      let s := gl [glMatrixMode GL_TEXTURE; glPopMatrix; glMatrixMode GL_MODELVIEW;
                   glPopAttrib] s in
      unlock s.

(** The constructor (glFont.cpp:123-132). *)
Definition CglFont_new : CglFont :=
  mkFont false true false white darkOutline (mkVA [] []) (mkVA [] []) [] [] 0 [] [].

(** What a client, or a render driver on its behalf, does to a font. *)
Inductive operation : Type :=
| OpBegin (immediate resetColors : bool)
| OpEnd (inListCompile : bool)
| OpSetTextColor (color : option float4)
| OpSetOutlineColor (color : option float4)
| OpAddVertex (v : vertex)
| OpAddVertex2 (v : vertex).

Definition perform (s : CglFont) (o : operation) : CglFont :=
  match o with
  | OpBegin immediate resetColors => Begin immediate resetColors s
  | OpEnd inListCompile => End_ inListCompile s
  | OpSetTextColor color => SetTextColor color s
  | OpSetOutlineColor color => SetOutlineColor color s
  | OpAddVertex v => set_va (AddVertexQ2dT v (va s)) s
  | OpAddVertex2 v => set_va2 (AddVertexQ2dT v (va2 s)) s
  end.

Definition run (ops : list operation) : CglFont := fold_left perform ops CglFont_new.

(** Consecutive strips have colours that [operator==] tells apart. *)
Fixpoint distinct_neighbours (l : list float4) : Prop :=
  match l with
  | a :: (b :: _) as r => float4_eq b a = false /\ distinct_neighbours r
  | _ => True
  end.

(** What holds of one collection and its strip sequence: neighbouring strips
    differ, and during a session the sequence is non-empty, its last colour
    stands for the current one (what [operator==] tells apart from the
    current colour it tells apart from the last strip), and it has a single
    strip while the collection is empty. *)
Definition strips_ok (active : bool) (current : float4) (a : CVertexArray)
    (strips : list float4) : Prop :=
  distinct_neighbours strips /\
  (active = true ->
     strips <> [] /\
     (forall x, float4_eq x current = false ->
                float4_eq x (last strips current) = false) /\
     (drawIndex a = 0 -> length strips = 1)).

(** Two colours that [operator==] equates with a third are equated with
    each other: what a symmetric and transitive comparison satisfies. *)
Definition eq_euclidean : Prop :=
  forall a b c, float4_eq a c = true -> float4_eq b c = true -> float4_eq a b = true.

Definition batch_ok (s : CglFont) : Prop :=
  strips_ok (inBeginEnd s) (textColor s) (va s) (stripTextColors s) /\
  strips_ok (inBeginEnd s) (outlineColor s) (va2 s) (stripOutlineColors s).

(** What holds of a strip sequence whatever [operator==] is: during a
    session it has a strip, and a single one while its collection is
    empty. *)
Definition strips_pending (active : bool) (a : CVertexArray) (strips : list float4) : Prop :=
  active = true -> strips <> [] /\ (drawIndex a = 0 -> length strips = 1).

Definition session_strips (s : CglFont) : Prop :=
  strips_pending (inBeginEnd s) (va s) (stripTextColors s) /\
  strips_pending (inBeginEnd s) (va2 s) (stripOutlineColors s).
End Batch.

(** ** A concrete configuration

    Values for the parameters, used to run the model: the indicator byte
    0x01 of the scenario in the specification (0x08 for the reset), a decoder
    for single-byte code points, a three-glyph font without kerning
    adjustments, exact comparison of colours. *)
Module Example.
Definition ColorCodeIndicator : byte := x01.
Definition ColorResetIndicator : byte := x08.

Definition GetNextChar (text : u8string) (idx : nat) : char32_t * nat :=
  (char32_of_byte (text @ idx), idx + 1).

Definition glyph (a h d : Z) : GlyphInfo :=
  mkGlyph (B32.of_Z a) (B32.of_Z h) (B32.of_Z d).

(** 'g' descends below the base line, 'A' and the others do not. *)
Definition GetGlyph (u : char32_t) : GlyphInfo :=
  if N.eqb u 103 then glyph 6 7 (-3)
  else if N.eqb u 65 then glyph 8 9 0
  else glyph 5 7 0.

Definition GetKerning (l r : GlyphInfo) : float := advance l.
Definition GetLineHeight : float := B32.of_Z 10.
Definition GetDescender : float := B32.of_Z (-2).

Definition float4_eq (a b : float4) : bool :=
  B32.eqb (fx a) (fx b) && B32.eqb (fy a) (fy b) &&
  B32.eqb (fz a) (fz b) && B32.eqb (fw a) (fw b).

(** A stand-in for [std::pow]; no example depends on its values. *)
Definition pow (x y : double) : double := x.

(** Two texts without control sequences, and a well-formed one. *)
Definition text_breaks : u8string := [x41; x0d; x0a; x42; x0a; x0d].
Definition items_AcB : list item := [Printable x41; ColorSet xff x00 x00; Printable x42].

Definition red : float4 :=
  mkfloat4 (B32.lit 1 1) (B32.lit 0 1) (B32.lit 0 1) (B32.lit 95 100).

Definition text_g : u8string := [x67].
Definition text_scenario : u8string := [x41; x01; xff; x00; x00; x42; x0a; x43].

(** Two colour-set sequences, a glyph, a line break, a glyph. *)
Definition code1 : u8string := [x01; x10; x20; x30].
Definition code2 : u8string := [x01; x40; x50; x60].
Definition text_two_colors : u8string := code1 ++ code2 ++ [x41; x0a; x42].

(** A font on which [Begin(false, false)] was called. *)
Definition font_in_session : CglFont :=
  run pow float4_eq false [OpBegin false false].

End Example.

(** ** Configurations at the edge

    A glyph provider whose glyphs have a negative advance, and an
    [operator==] that compares within a tolerance of 1/16, with three shades
    of which each is within the tolerance of the next and the first is not
    within it of the last. *)
Module Edge.
Definition GetGlyph (u : char32_t) : GlyphInfo := Example.glyph (-1) 7 0.

(** "A". *)
Definition text_A : u8string := [x41].

Definition close (a b : float) : bool :=
  negb (B32.ltb (B32.lit 1 16) (SFabs (B32.sub a b))).

Definition float4_eq (a b : float4) : bool :=
  close (fx a) (fx b) && close (fy a) (fy b) && close (fz a) (fz b) && close (fw a) (fw b).

(** The grey [n/16], with the alpha of [white]; [shade 16] is [white]. *)
Definition shade (n : Z) : float4 :=
  mkfloat4 (B32.lit n 16) (B32.lit n 16) (B32.lit n 16) (fw white).

(** A session with one vertex in which the text colour drifts from white by
    two steps, each within the tolerance. *)
Definition ops_drift : list operation :=
  [OpBegin false false;
   OpAddVertex (mkVertex (B32.of_Z 0) (B32.of_Z 0) (B32.of_Z 0) (B32.of_Z 0));
   OpSetTextColor (Some (shade 15));
   OpSetTextColor (Some (shade 14))].

Definition font_drifted : CglFont := run Example.pow float4_eq false ops_drift.
End Edge.

From Stdlib Require Import Sorting.Sorted.

(** ** Texts with colour codes and line breaks

    What the further properties of the byte scan range over: the [item]s of
    a text are its complete colour-set sequences and its other bytes, which
    here may also be line breaks and reset bytes. *)

Section MoreTexts.
Variables ColorCodeIndicator ColorResetIndicator : byte.

(** No byte outside a colour-set sequence is the indicator, so that every
    indicator of the rendered text starts a complete sequence. *)
Definition complete_codes (items : list item) : Prop :=
  Forall (fun it => match it with
                    | Printable b => b <> ColorCodeIndicator
                    | ColorSet _ _ _ => True
                    end) items.

(** Number of colour-set sequences at the head of a text. *)
Fixpoint leading_codes (items : list item) : nat :=
  match items with
  | ColorSet _ _ _ :: r => S (leading_codes r)
  | _ => 0
  end.

(** Line breaks of a text with colour codes: a colour-set sequence, whatever
    its bytes, and a reset byte are no break, and a CR is paired with an LF
    only when the LF is the very next byte. *)
Fixpoint item_breaks (items : list item) : nat :=
  match items with
  | [] => 0
  | ColorSet _ _ _ :: r => item_breaks r
  | Printable c :: r =>
      if Byte.eqb c ColorResetIndicator then item_breaks r
      else if Byte.eqb c x0d then
        match r with
        | Printable c' :: r' =>
            if Byte.eqb c' x0a then S (item_breaks r') else S (item_breaks r)
        | _ => S (item_breaks r)
        end
      else if Byte.eqb c x0a then S (item_breaks r)
      else item_breaks r
  end.
End MoreTexts.

(** The lines of a text put together again, one LF between two lines. *)
Fixpoint join_lines (ls : list u8string) : u8string :=
  match ls with
  | [] => []
  | l :: r =>
      match r with
      | [] => l
      | _ :: _ => l ++ x0a :: join_lines r
      end
  end.

(** ** Resources of a batch session *)

Definition count_calls (p : gl_call -> bool) (calls : list gl_call) : nat :=
  length (filter p calls).
Arguments count_calls : simpl never.

Definition is_glPushAttrib (c : gl_call) : bool :=
  match c with glPushAttrib => true | _ => false end.
Definition is_glPopAttrib (c : gl_call) : bool :=
  match c with glPopAttrib => true | _ => false end.
Definition is_glPushMatrix (c : gl_call) : bool :=
  match c with glPushMatrix => true | _ => false end.
Definition is_glPopMatrix (c : gl_call) : bool :=
  match c with glPopMatrix => true | _ => false end.

(** The mutex is held once during a session of a thread-safe font and not at
    all otherwise; the attribute stack of the graphics API holds one entry of
    the font during a session and none otherwise; the matrix stack holds
    none. *)
Definition resources_ok (threadSafety : bool) (s : CglFont) : Prop :=
  vaMutex s = (if threadSafety && inBeginEnd s then 1 else 0) /\
  count_calls is_glPushAttrib (glCalls s)
  = count_calls is_glPopAttrib (glCalls s) + (if inBeginEnd s then 1 else 0) /\
  count_calls is_glPushMatrix (glCalls s) = count_calls is_glPopMatrix (glCalls s).

(** The strip boundaries of a collection: one less than the colours, each
    after the first vertex and not beyond the last, in ascending order (two
    may coincide). *)
Definition boundaries_ok (a : CVertexArray) (strips : list float4) : Prop :=
  length strips = S (length (stripArray a)) /\
  Forall (fun b => 0 < b <= drawIndex a) (stripArray a) /\
  StronglySorted le (stripArray a).

(** During a session both collections have well-formed boundaries. *)
Definition session_boundaries (s : CglFont) : Prop :=
  inBeginEnd s = true ->
  boundaries_ok (va s) (stripTextColors s) /\
  boundaries_ok (va2 s) (stripOutlineColors s).

(** ** The render drivers and [glPrint] *)

(** [IGlyphRect] and the geometry fields of [GlyphInfo] that the drivers
    read; they are kept in a record of their own, beside the metrics. *)
Record IGlyphRect : Type := mkRect { x0 : float; y0 : float; x1 : float; y1 : float }.

Record GlyphRects : Type := mkRects {
  size : IGlyphRect;
  texCord : IGlyphRect;
  shadowTexCord : IGlyphRect
}.

(** The option flags of glFont.h that [glPrint] tests. *)
Record FontFlags : Type := mkFlags {
  FONT_RIGHT : Z;
  FONT_CENTER : Z;
  FONT_BASELINE : Z;
  FONT_VCENTER : Z;
  FONT_TOP : Z;
  FONT_BOTTOM : Z;
  FONT_ASCENDER : Z;
  FONT_DESCENDER : Z;
  FONT_OUTLINE : Z;
  FONT_SHADOW : Z;
  FONT_NORM : Z;
  FONT_SCALE : Z;
  FONT_NEAREST : Z
}.

(** All that a font takes from outside this translation unit: the indicator
    bytes, the decoder, the glyph provider, [std::pow], [float4::operator==],
    [threadSafety], the flags, [fontSize] and [GetOutlineWidth()] as the
    [float] operands that they become, [globalRendering->pixelX] and
    [pixelY], the default of the second parameter of [Begin], and the result
    of a conversion from [float] that the language leaves undefined. *)
Record FontParams : Type := mkParams {
  ColorCodeIndicator : byte;
  ColorResetIndicator : byte;
  GetNextChar : u8string -> nat -> char32_t * nat;
  GetGlyph : char32_t -> GlyphInfo;
  GetGlyphRects : char32_t -> GlyphRects;
  GetKerning : GlyphInfo -> GlyphInfo -> float;
  GetLineHeight : float;
  GetDescender : float;
  fontSize : float;
  GetOutlineWidth : float;
  pixelX : float;
  pixelY : float;
  pow : double -> double -> double;
  float4_eq : float4 -> float4 -> bool;
  threadSafety : bool;
  flags : FontFlags;
  Begin_resetColors : bool;
  cast_undefined : float -> Z
}.

(** [options & flag], as a condition. *)
Definition has_flag (options flag : Z) : bool := negb (Z.land options flag =? 0)%Z.

(** The integer part of a value, towards zero; none for NaN and the
    infinities. *)
Definition truncate (x : float) : option Z :=
  match x with
  | S754_zero _ => Some 0%Z
  | S754_finite s m e => Some (cond_Zopp s (Z.shiftl (Zpos m) e))
  | _ => None
  end.

Section Render.
Variable P : FontParams.

(** [(int)x]: defined when the integer part fits an [int]. *)
Definition to_int (x : float) : Z :=
  match truncate x with
  | Some z => if ((- 2 ^ 31 <=? z) && (z <? 2 ^ 31))%Z then z else cast_undefined P x
  | None => cast_undefined P x
  end.

(** The [if (colorChanged)] of the drivers. *)
Definition apply_color (colorChanged : bool) (newColor : float4) (s : CglFont) : CglFont :=
  if colorChanged then
    if autoOutlineColor s
    then SetColors (pow P) (float4_eq P) (threadSafety P) (Some newColor) None s
    else SetTextColor (float4_eq P) (threadSafety P) (Some newColor) s
  else s.

(** The cursor before a glyph: back to the start of the line and down after
    line breaks, else forward by the kerning with the previous glyph. *)
Definition move_cursor (scaleX startx lineHeight_ : float) (x y : float)
    (pc cc : char32_t) (skippedLines : nat) : float * float :=
  if 0 <? skippedLines then
    (startx, B32.sub y (B32.mul (B32.of_nat skippedLines) lineHeight_))
  else if negb (N.eqb pc 0) then
    (B32.add x (B32.mul scaleX (GetKerning P (GetGlyph P pc) (GetGlyph P cc))), y)
  else (x, y).

(** Four calls of [AddVertexQ2dT], in the order of the source. *)
Definition AddQuad (v1 v2 v3 v4 : vertex) (a : CVertexArray) : CVertexArray :=
  AddVertexQ2dT v4 (AddVertexQ2dT v3 (AddVertexQ2dT v2 (AddVertexQ2dT v1 a))).

(** The quad of the character itself. *)
Definition glyph_quad (dx0 dy0 dx1 dy1 : float) (tc : IGlyphRect) (a : CVertexArray)
  : CVertexArray :=
  AddQuad (mkVertex dx0 dy1 (x0 tc) (y1 tc)) (mkVertex dx0 dy0 (x0 tc) (y0 tc))
          (mkVertex dx1 dy0 (x1 tc) (y0 tc)) (mkVertex dx1 dy1 (x1 tc) (y1 tc)) a.

(** What the three drivers emit for one glyph. *)
Definition emit_plain (scaleX scaleY : float) (dx0 dy0 dx1 dy1 : float) (g : GlyphRects)
    (s : CglFont) : CglFont :=
  set_va (glyph_quad dx0 dy0 dx1 dy1 (texCord g) (va s)) s.

Definition emit_shadow (scaleX scaleY : float) (dx0 dy0 dx1 dy1 : float) (g : GlyphRects)
    (s : CglFont) : CglFont :=
  let shiftX := B64.to_float (B64.mul (B64.of_float scaleX) (B64.lit 1 10)) in
  let shiftY := B64.to_float (B64.mul (B64.of_float scaleY) (B64.lit 1 10)) in
  let ssX := B32.mul (B32.div scaleX (fontSize P)) (GetOutlineWidth P) in
  let ssY := B32.mul (B32.div scaleY (fontSize P)) (GetOutlineWidth P) in
  let stc := shadowTexCord g in
  let s :=
    set_va2
      (AddQuad
         (mkVertex (B32.sub (B32.add dx0 shiftX) ssX) (B32.sub (B32.sub dy1 shiftY) ssY)
                   (x0 stc) (y1 stc))
         (mkVertex (B32.sub (B32.add dx0 shiftX) ssX) (B32.add (B32.sub dy0 shiftY) ssY)
                   (x0 stc) (y0 stc))
         (mkVertex (B32.add (B32.add dx1 shiftX) ssX) (B32.add (B32.sub dy0 shiftY) ssY)
                   (x1 stc) (y0 stc))
         (mkVertex (B32.add (B32.add dx1 shiftX) ssX) (B32.sub (B32.sub dy1 shiftY) ssY)
                   (x1 stc) (y1 stc))
         (va2 s)) s in
  set_va (glyph_quad dx0 dy0 dx1 dy1 (texCord g) (va s)) s.

Definition emit_outlined (scaleX scaleY : float) (dx0 dy0 dx1 dy1 : float) (g : GlyphRects)
    (s : CglFont) : CglFont :=
  let shiftX := B32.mul (B32.div scaleX (fontSize P)) (GetOutlineWidth P) in
  let shiftY := B32.mul (B32.div scaleY (fontSize P)) (GetOutlineWidth P) in
  let stc := shadowTexCord g in
  let s :=
    set_va2
      (AddQuad
         (mkVertex (B32.sub dx0 shiftX) (B32.sub dy1 shiftY) (x0 stc) (y1 stc))
         (mkVertex (B32.sub dx0 shiftX) (B32.add dy0 shiftY) (x0 stc) (y0 stc))
         (mkVertex (B32.add dx1 shiftX) (B32.add dy0 shiftY) (x1 stc) (y0 stc))
         (mkVertex (B32.add dx1 shiftX) (B32.sub dy1 shiftY) (x1 stc) (y1 stc))
         (va2 s)) s in
  set_va (glyph_quad dx0 dy0 dx1 dy1 (texCord g) (va s)) s.

(** The [do ... while (true)] that [RenderString], [RenderStringShadow] and
    [RenderStringOutlined] (glFont.cpp:618-850) have in common; [emit] is
    what each of them appends for a glyph. *)
Fixpoint RenderString_loop (fuel : nat)
    (emit : float -> float -> float -> float -> GlyphRects -> CglFont -> CglFont)
    (str : u8string) (scaleX scaleY startx lineHeight_ : float) (baseTextColor : float4)
    (x y : float) (i : nat) (pc : char32_t) (newColor : float4) (s : CglFont)
    : option CglFont :=
  match SkipColorCodesAndNewLines (ColorCodeIndicator P) (ColorResetIndicator P)
          str i newColor baseTextColor with
  | None => None
  | Some (true, _) => Some s
  | Some (false, st) =>
      match fuel with
      | O => None
      | S fuel' =>
          let '(cc, i') := GetNextChar P str (pos st) in
          let s := apply_color (colorChanged st) (color st) s in
          let '(x, y) :=
            move_cursor scaleX startx lineHeight_ x y pc cc (skippedLines st) in
          let pg := GetGlyphRects P cc in
          let dx0 := B32.add (B32.mul scaleX (x0 (size pg))) x in
          let dy0 := B32.add (B32.mul scaleY (y0 (size pg))) y in
          let dx1 := B32.add (B32.mul scaleX (x1 (size pg))) x in
          let dy1 := B32.add (B32.mul scaleY (y1 (size pg))) y in
          let s := emit dx0 dy0 dx1 dy1 pg s in
          RenderString_loop fuel' emit str scaleX scaleY startx lineHeight_ baseTextColor
            x y i' cc (color st) s
      end
  end.

Definition RenderString_with
    (emit : float -> float -> float -> float -> float -> float -> GlyphRects
            -> CglFont -> CglFont)
    (x y scaleX scaleY : float) (str : u8string) (baseTextColor : float4) (s : CglFont)
    : option CglFont :=
  RenderString_loop (length str) (emit scaleX scaleY) str scaleX scaleY
    x (B32.mul scaleY (GetLineHeight P)) baseTextColor x y 0 0%N (textColor s) s.

Definition RenderString := RenderString_with emit_plain.
Definition RenderStringShadow := RenderString_with emit_shadow.
Definition RenderStringOutlined := RenderString_with emit_outlined.

(** The members [baseTextColor] and [baseOutlineColor], beside the record of
    the batch protocol. *)
Record Printer : Type := mkPrinter {
  font : CglFont;
  baseTextColor : float4;
  baseOutlineColor : float4
}.

(** Modelled from the spec: the public [GetTextWidth(text)] and
    [GetTextHeight(text, descender)] of glFont.h are not in the excerpt; they
    hand the text to [GetTextWidth_] and [GetTextHeight_]. *)
Definition GetTextWidth (text : u8string) : option float :=
  GetTextWidth_ (ColorCodeIndicator P) (ColorResetIndicator P) (GetNextChar P)
    (GetGlyph P) (GetKerning P) text.

Definition GetTextHeight (text : u8string) : option (float * float * nat) :=
  GetTextHeight_ (ColorCodeIndicator P) (ColorResetIndicator P) (GetNextChar P)
    (GetGlyph P) (GetLineHeight P) (GetDescender P) text.

(** The horizontal and the vertical alignment of [glPrint]. *)
Definition align_x (options : Z) (sizeX x : float) (text : u8string) : option float :=
  if has_flag options (FONT_CENTER (flags P)) then
    match GetTextWidth text with
    | Some w => Some (B32.sub x (B32.mul (B32.mul sizeX (B32.lit 5 10)) w))
    | None => None
    end
  else if has_flag options (FONT_RIGHT (flags P)) then
    match GetTextWidth text with
    | Some w => Some (B32.sub x (B32.mul sizeX w))
    | None => None
    end
  else Some x.

Definition align_y (options : Z) (sizeY y : float) (text : u8string) : option float :=
  let y := B32.add y (B32.mul sizeY (GetDescender P)) in
  if has_flag options (FONT_BASELINE (flags P)) then Some y
  else if has_flag options (FONT_DESCENDER (flags P)) then
    Some (B32.sub y (B32.mul sizeY (GetDescender P)))
  else if has_flag options (FONT_VCENTER (flags P)) then
    match GetTextHeight text with
    | Some (h, textDescender, _) =>
        let y := B32.sub y (B32.mul (B32.mul sizeY (B32.lit 5 10)) h) in
        Some (B32.sub y (B32.mul (B32.mul sizeY (B32.lit 5 10)) textDescender))
    | None => None
    end
  else if has_flag options (FONT_TOP (flags P)) then
    match GetTextHeight text with
    | Some (h, _, _) => Some (B32.sub y (B32.mul sizeY h))
    | None => None
    end
  else if has_flag options (FONT_ASCENDER (flags P)) then
    Some (B32.sub (B32.sub y (B32.mul sizeY (GetDescender P))) sizeY)
  else if has_flag options (FONT_BOTTOM (flags P)) then
    match GetTextHeight text with
    | Some (_, textDescender, _) => Some (B32.sub y (B32.mul sizeY textDescender))
    | None => None
    end
  else Some y.

(** glFont.cpp:867-944.  [inListCompile] is what [End] reads from the
    graphics API. *)
Definition glPrint (x y s : float) (options : Z) (text : u8string)
    (inListCompile : bool) (p : Printer) : option Printer :=
  let s := if has_flag options (FONT_SCALE (flags P)) then B32.mul s (fontSize P) else s in
  let sizeX := if has_flag options (FONT_NORM (flags P)) then B32.mul s (pixelX P) else s in
  let sizeY := if has_flag options (FONT_NORM (flags P)) then B32.mul s (pixelY P) else s in
  match align_x options sizeX x text with
  | None => None
  | Some x =>
      match align_y options sizeY y text with
      | None => None
      | Some y =>
          let x := if has_flag options (FONT_NEAREST (flags P))
                   then B32.of_Z (to_int x) else x in
          let y := if has_flag options (FONT_NEAREST (flags P))
                   then B32.of_Z (to_int y) else y in
          let f := font p in
          let baseTextColor := textColor f in
          let baseOutlineColor := outlineColor f in
          let immediate := negb (inBeginEnd f) in
          let decorated :=
            has_flag options (Z.lor (FONT_OUTLINE (flags P)) (FONT_SHADOW (flags P))) in
          let f :=
            if immediate
            then Begin (pow P) (float4_eq P) (threadSafety P)
                   (negb decorated) (Begin_resetColors P) f
            else f in
          match
            (if has_flag options (FONT_OUTLINE (flags P)) then
               RenderStringOutlined x y sizeX sizeY text baseTextColor f
             else if has_flag options (FONT_SHADOW (flags P)) then
               RenderStringShadow x y sizeX sizeY text baseTextColor f
             else RenderString x y sizeX sizeY text baseTextColor f)
          with
          | None => None
          | Some f =>
              let f := if immediate then End_ (threadSafety P) inListCompile f else f in
              Some (mkPrinter
                      (SetColors (pow P) (float4_eq P) (threadSafety P)
                         (Some baseTextColor) (Some baseOutlineColor) f)
                      baseTextColor baseOutlineColor)
          end
      end
  end.
End Render.

(** ** What the properties of the drivers speak of *)

(** Nothing but colours, strips and vertices differs between two states: the
    session flag, the mutex, the error log and the graphics calls are the
    same. *)
Definition quiet (s s' : CglFont) : Prop :=
  inBeginEnd s' = inBeginEnd s /\ vaMutex s' = vaMutex s /\
  errorLog s' = errorLog s /\ glCalls s' = glCalls s.

(** The collection [a'] is [a] with [n] more vertices at its end. *)
Definition appended (a a' : CVertexArray) (n : nat) : Prop :=
  exists vs, drawArray a' = drawArray a ++ vs /\ length vs = n.

(** The graphics calls that draw. *)
Definition draws (calls : list gl_call) : list gl_call := filter is_draw calls.

(** What a driver keeps of the state [s0] it started from: it is quiet, and
    it has appended [4 n] vertices to the primary collection and, when
    [decorated], as many to the secondary one, none otherwise. *)
Definition drawn (decorated : bool) (s0 s : CglFont) : Prop :=
  quiet s0 s /\
  exists n, appended (va s0) (va s) (4 * n) /\
            appended (va2 s0) (va2 s) (if decorated then 4 * n else 0).

(** The operations of a driver: colour changes and vertices, no [Begin] and
    no [End]. *)
Definition is_drawing_op (o : operation) : bool :=
  match o with
  | OpBegin _ _ | OpEnd _ => false
  | _ => true
  end.

(** A sequence of operations on a font with the parameters [P]. *)
Definition performs (P : FontParams) (ops : list operation) (s : CglFont) : CglFont :=
  fold_left (perform (pow P) (float4_eq P) (threadSafety P)) ops s.

(** The operations of one [glPrint] on a font in the state [f]: [Begin] and
    [End] around those of the driver when no session is open, and the two
    colours put back at the end. *)
Definition glPrint_operations (P : FontParams) (options : Z) (inListCompile : bool)
    (f : CglFont) (driver : list operation) : list operation :=
  (if inBeginEnd f then []
   else [OpBegin
           (negb (has_flag options (Z.lor (FONT_OUTLINE (flags P)) (FONT_SHADOW (flags P)))))
           (Begin_resetColors P)])
  ++ driver
  ++ (if inBeginEnd f then [] else [OpEnd inListCompile])
  ++ [OpSetTextColor (Some (textColor f)); OpSetOutlineColor (Some (outlineColor f))].

(** The state [s] is reached from [s0] by the operations of a driver. *)
Definition driven (P : FontParams) (s0 s : CglFont) : Prop :=
  exists ops, forallb is_drawing_op ops = true /\ s = performs P ops s0.

(** ** The console that buffers log messages (Game/UI/InfoConsole.cpp) *)

Module InfoConsole.

Definition maxRawLines : nat := 1024.
Definition maxLastMsgPos : nat := 10.
Definition border : Z := 7.
Arguments maxRawLines : simpl never.
Arguments maxLastMsgPos : simpl never.

(** [spring_time], in the unit of the clock. *)
Definition spring_time : Type := Z.

Record float3 : Type := mkFloat3 { x : float; y : float; z : float }.

(** The arguments of [rawData.emplace_back(text, section, level, rawId++)]. *)
Record RawLine : Type := mkRawLine {
  text : u8string;
  section : u8string;
  level : Z;
  id : Z
}.

Record InfoLine : Type := mkInfoLine {
  InfoLine_text : u8string;
  timeout : spring_time
}.

(** What the console reads from outside of the file. *)
Record Env : Type := mkEnv {
  (** [CglFont::ColorCodeIndicator], [CglFont::ColorResetIndicator]. *)
  ColorCodeIndicator : byte;
  ColorResetIndicator : byte;
  (** [smallFont->Wrap(text, fontSize, maxWidth)]. *)
  Wrap : u8string -> float -> float -> u8string;
  (** [smallFont->GetLineHeight()]. *)
  GetLineHeight : float;
  (** [globalRendering->viewSizeX], [viewSizeY]. *)
  viewSizeX : Z;
  viewSizeY : Z;
  spring_secs : Z -> spring_time;
  (** [math::floor] and the conversion of its result to [size_t]. *)
  floor_size_t : float -> nat;
  (** The value of [rawId++] at [INT_MAX], which C++ leaves open. *)
  int_overflow : Z
}.

(** The members that the functions below read or write.  The two deques
    have their front at the head of the list; [lastMsgIter] is the index
    that the iterator stands at. *)
Record CInfoConsole : Type := mkConsole {
  lastMsgPositions : list float3;
  lastMsgIter : nat;
  rawData : list RawLine;
  data : list InfoLine;
  newLines : nat;
  rawId : Z;
  fontSize : float;
  width : float;
  height : float;
  maxLines : nat;
  lifetime : Z
}.

Definition set_lastMsgPositions (l : list float3) (s : CInfoConsole) : CInfoConsole :=
  mkConsole l (lastMsgIter s) (rawData s) (data s) (newLines s) (rawId s)
    (fontSize s) (width s) (height s) (maxLines s) (lifetime s).
Definition set_lastMsgIter (i : nat) (s : CInfoConsole) : CInfoConsole :=
  mkConsole (lastMsgPositions s) i (rawData s) (data s) (newLines s) (rawId s)
    (fontSize s) (width s) (height s) (maxLines s) (lifetime s).
Definition set_rawData (l : list RawLine) (s : CInfoConsole) : CInfoConsole :=
  mkConsole (lastMsgPositions s) (lastMsgIter s) l (data s) (newLines s) (rawId s)
    (fontSize s) (width s) (height s) (maxLines s) (lifetime s).
Definition set_data (l : list InfoLine) (s : CInfoConsole) : CInfoConsole :=
  mkConsole (lastMsgPositions s) (lastMsgIter s) (rawData s) l (newLines s) (rawId s)
    (fontSize s) (width s) (height s) (maxLines s) (lifetime s).
Definition set_newLines (n : nat) (s : CInfoConsole) : CInfoConsole :=
  mkConsole (lastMsgPositions s) (lastMsgIter s) (rawData s) (data s) n (rawId s)
    (fontSize s) (width s) (height s) (maxLines s) (lifetime s).
Definition set_rawId (i : Z) (s : CInfoConsole) : CInfoConsole :=
  mkConsole (lastMsgPositions s) (lastMsgIter s) (rawData s) (data s) (newLines s) i
    (fontSize s) (width s) (height s) (maxLines s) (lifetime s).
Definition set_maxLines (n : nat) (s : CInfoConsole) : CInfoConsole :=
  mkConsole (lastMsgPositions s) (lastMsgIter s) (rawData s) (data s) (newLines s) (rawId s)
    (fontSize s) (width s) (height s) n (lifetime s).

(** The containers and counters of the constructor (InfoConsole.cpp:28-56);
    the geometry and the lifetime come from the configuration. *)
Definition CInfoConsole_new (lifetime : Z) (fontSize width height : float) : CInfoConsole :=
  mkConsole [] 0 [] [] 0 0%Z fontSize width height 1 lifetime.

Section Console.
Variable E : Env.

(** [rawId++] on an [int]. *)
Definition next_rawId (i : Z) : Z :=
  if (i <? 2147483647)%Z then (i + 1)%Z else int_overflow E.

(** The loop at InfoConsole.cpp:184-190; [now i] is what the clock reads for
    the line [i]. *)
Fixpoint emplace_lines (lifetime : Z) (now : nat -> spring_time) (i : nat)
    (lines : list u8string) (data : list InfoLine) : list InfoLine :=
  match lines with
  | [] => data
  | line :: lines' =>
      emplace_lines lifetime now (S i) lines'
        (data ++ [mkInfoLine line (now i + spring_secs E lifetime)%Z])
  end.

(** InfoConsole.cpp:162-192; [smallFont] tells whether the pointer of that
    name is set. *)
Definition RecordLogMessage (smallFont : bool) (level : Z) (section text : u8string)
    (now : nat -> spring_time) (s : CInfoConsole) : option CInfoConsole :=
  let s := if maxRawLines <? length (rawData s) then set_rawData (tl (rawData s)) s else s in
  let s := if newLines s <? maxRawLines then set_newLines (newLines s + 1) s else s in
  let s := set_rawId (next_rawId (rawId s))
             (set_rawData (rawData s ++ [mkRawLine text section level (rawId s)]) s) in
  if negb smallFont then Some s
  else
    let maxWidth := B32.sub (B32.mul (width s) (B32.of_Z (viewSizeX E)))
                      (B32.of_Z (2 * border)%Z) in
    let wrappedText := Wrap E text (fontSize s) maxWidth in
    match SplitIntoLines (ColorCodeIndicator E) (ColorResetIndicator E) wrappedText with
    | None => None
    | Some lines => Some (set_data (emplace_lines (lifetime s) now 0 lines (data s)) s)
    end.

(** InfoConsole.cpp:152-159: the lines, the returned count and the state. *)
Definition GetRawLines (s : CInfoConsole) : list RawLine * nat * CInfoConsole :=
  (rawData s, newLines s, set_newLines 0 s).

(** [n] rounds of [newRawLines.push_back(rawData[i])] from the index [i];
    nothing is returned when an index is beyond the deque. *)
Fixpoint copy_lines (rawData : list RawLine) (i n : nat) : option (list RawLine) :=
  match n with
  | O => Some []
  | S n' =>
      match nth_error rawData i, copy_lines rawData (S i) n' with
      | Some l, Some r => Some (l :: r)
      | _, _ => None
      end
  end.

(** InfoConsole.cpp:128-149: the state and the arguments of the calls to
    [eventHandler.AddConsoleLine], in order; nothing is returned when
    [start] is negative. *)
Definition PushNewLinesToEventHandler (s : CInfoConsole)
  : option (CInfoConsole * list (u8string * u8string * Z)) :=
  if newLines s =? 0 then Some (s, [])
  else
    let count := Z.of_nat (length (rawData s)) in
    let start := (count - Z.of_nat (newLines s))%Z in
    if (start <? 0)%Z then None
    else
      match copy_lines (rawData s) (Z.to_nat start) (Z.to_nat (count - start)%Z) with
      | None => None
      | Some newRawLines =>
          Some (set_newLines 0 s,
                map (fun rawLine => (text rawLine, section rawLine, level rawLine))
                  newRawLines)
      end.

(** InfoConsole.cpp:195-204. *)
Definition LastMessagePosition (pos : float3) (s : CInfoConsole) : CInfoConsole :=
  let s := if maxLastMsgPos <=? length (lastMsgPositions s)
           then set_lastMsgPositions (removelast (lastMsgPositions s)) s else s in
  let s := set_lastMsgPositions (pos :: lastMsgPositions s) s in
  set_lastMsgIter 0 s.

(** InfoConsole.cpp:206-219; nothing is returned when the iterator is at no
    element. *)
Definition GetMsgPos (defaultPos : float3) (s : CInfoConsole)
  : option (float3 * CInfoConsole) :=
  if isEmpty (lastMsgPositions s) then Some (defaultPos, s)
  else
    match nth_error (lastMsgPositions s) (lastMsgIter s) with
    | None => None
    | Some p =>
        let s := set_lastMsgIter (lastMsgIter s + 1) s in
        let s := if lastMsgIter s =? length (lastMsgPositions s)
                 then set_lastMsgIter 0 s else s in
        Some (p, s)
    end.

(** The loop at InfoConsole.cpp:123-125, [i] counting down. *)
Fixpoint pop_excess (i maxLines : nat) (data : list InfoLine) : list InfoLine :=
  match i with
  | O => data
  | S i' => if maxLines <? i then pop_excess i' maxLines (tl data) else data
  end.

(** InfoConsole.cpp:102-126; [now] is what the clock reads. *)
Definition Update (smallFont : bool) (now : spring_time) (s : CInfoConsole) : CInfoConsole :=
  if isEmpty (data s) then s
  else
    let s := if (timeout (nth 0 (data s) (mkInfoLine [] 0%Z)) <=? now)%Z
             then set_data (tl (data s)) s else s in
    if negb smallFont then s
    else
      let maxHeight := B32.sub (B32.mul (height s) (B32.of_Z (viewSizeY E)))
                         (B32.of_Z (border * 2)%Z) in
      let fontHeight := GetLineHeight E in
      let s := set_maxLines
                 (if B32.ltb B32.zero fontHeight
                  then floor_size_t E (B32.div maxHeight (B32.mul (fontSize s) fontHeight))
                  else 1) s in
      set_data (pop_excess (length (data s)) (maxLines s) (data s)) s.

(** The calls that reach the console. *)
Inductive console_call : Type :=
| CallRecordLogMessage (smallFont : bool) (level : Z) (section text : u8string)
    (now : nat -> spring_time)
| CallGetRawLines
| CallPushNewLinesToEventHandler
| CallLastMessagePosition (pos : float3)
| CallGetMsgPos (defaultPos : float3)
| CallUpdate (smallFont : bool) (now : spring_time).

Definition call (s : CInfoConsole) (c : console_call) : option CInfoConsole :=
  match c with
  | CallRecordLogMessage smallFont level section text now =>
      RecordLogMessage smallFont level section text now s
  | CallGetRawLines => let '(_, _, s) := GetRawLines s in Some s
  | CallPushNewLinesToEventHandler =>
      match PushNewLinesToEventHandler s with
      | Some (s, _) => Some s
      | None => None
      end
  | CallLastMessagePosition pos => Some (LastMessagePosition pos s)
  | CallGetMsgPos defaultPos =>
      match GetMsgPos defaultPos s with
      | Some (_, s) => Some s
      | None => None
      end
  | CallUpdate smallFont now => Some (Update smallFont now s)
  end.

Fixpoint calls (cs : list console_call) (s : CInfoConsole) : option CInfoConsole :=
  match cs with
  | [] => Some s
  | c :: cs' =>
      match call s c with
      | Some s => calls cs' s
      | None => None
      end
  end.

(** Messages recorded one after the other. *)
Fixpoint record_all (msgs : list (u8string * u8string * Z)) (smallFont : bool)
    (now : nat -> spring_time) (s : CInfoConsole) : option CInfoConsole :=
  match msgs with
  | [] => Some s
  | (text, section, level) :: msgs' =>
      match RecordLogMessage smallFont level section text now s with
      | Some s => record_all msgs' smallFont now s
      | None => None
      end
  end.

(** [k] calls of [GetMsgPos]: the positions returned, in order, and the
    state. *)
Fixpoint GetMsgPos_times (k : nat) (defaultPos : float3) (s : CInfoConsole)
  : option (list float3 * CInfoConsole) :=
  match k with
  | O => Some ([], s)
  | S k' =>
      match GetMsgPos defaultPos s with
      | None => None
      | Some (p, s) =>
          match GetMsgPos_times k' defaultPos s with
          | None => None
          | Some (ps, s) => Some (p :: ps, s)
          end
      end
  end.

(** The counters and the iterator fit the containers. *)
Definition console_ok (s : CInfoConsole) : Prop :=
  newLines s <= length (rawData s) /\
  length (rawData s) <= maxRawLines + 1 /\
  newLines s <= maxRawLines /\
  length (lastMsgPositions s) <= maxLastMsgPos /\
  (lastMsgPositions s = [] \/ lastMsgIter s < length (lastMsgPositions s)).

End Console.
End InfoConsole.

(** ** The two scans side by side *)

(** The printable code points of a token stream, in order. *)
Fixpoint glyphs (ts : list token) : list char32_t :=
  match ts with
  | [] => []
  | TPrintable u :: r => u :: glyphs r
  | _ :: r => glyphs r
  end.

(** The printable code points that the code-point scan of [GetTextWidth_]
    meets from the cursor [idx] on. *)
Definition glyphs_from (P : FontParams) (text : u8string) (idx : nat) : list char32_t :=
  match tokens_from (ColorCodeIndicator P) (ColorResetIndicator P) (GetNextChar P)
          (length text - idx) text idx with
  | Some ts => glyphs ts
  | None => []
  end.

(** A decoder that reads each of the four control bytes as itself, one byte
    wide, and reads no other byte as the start of a control code point. *)
Definition decoder_keeps_controls (P : FontParams) : Prop :=
  forall text idx, idx < length text ->
    let b := text @ idx in
    let u := fst (GetNextChar P text idx) in
    if printable_byte (ColorCodeIndicator P) (ColorResetIndicator P) b
    then u <> char32_of_byte (ColorCodeIndicator P) /\
         u <> char32_of_byte (ColorResetIndicator P) /\
         u <> 13%N /\ u <> 10%N
    else GetNextChar P text idx = (char32_of_byte b, idx + 1).

(** ** A second concrete configuration *)

Module Sample.

(** The bits of glFont.h. *)
Definition flags : FontFlags :=
  mkFlags 4 2 8 16 32 64 128 256 512 1024 2048 4096 8192.

Definition unit_rect : IGlyphRect :=
  mkRect (B32.of_Z 0) (B32.of_Z 0) (B32.of_Z 1) (B32.of_Z 1).

Definition GetGlyphRects (u : char32_t) : GlyphRects :=
  mkRects unit_rect unit_rect unit_rect.

(** The single-byte decoder and the glyphs of [Example], sixteen pixels,
    no thread safety. *)
Definition params : FontParams :=
  mkParams Example.ColorCodeIndicator Example.ColorResetIndicator Example.GetNextChar
    Example.GetGlyph GetGlyphRects Example.GetKerning
    Example.GetLineHeight Example.GetDescender
    (B32.of_Z 16) (B32.of_Z 1) (B32.lit 1 1024) (B32.lit 1 768)
    Example.pow Example.float4_eq false flags false (fun _ => 0%Z).

(** A printer on a new font, and one on a font with an open session. *)
Definition printer : Printer := mkPrinter CglFont_new white darkOutline.
Definition printer_in_session : Printer :=
  mkPrinter Example.font_in_session white darkOutline.

(** Colour codes around two line breaks, one of them CR LF. *)
Definition items : list item :=
  [ColorSet xff x00 x00; Printable x41; Printable x0a;
   ColorSet x00 xff x00; Printable x42; Printable x0d; Printable x0a; Printable x43].

(** "hi\nyo". *)
Definition text_hi_yo : u8string := [x68; x69; x0a; x79; x6f].

(** A session with one vertex and a colour change after it. *)
Definition ops_vertex_red : list operation :=
  [OpBegin false false;
   OpAddVertex (mkVertex (B32.of_Z 0) (B32.of_Z 0) (B32.of_Z 0) (B32.of_Z 0));
   OpSetTextColor (Some Example.red)].

(** A console whose font wraps nothing. *)
Definition env : InfoConsole.Env :=
  InfoConsole.mkEnv Example.ColorCodeIndicator Example.ColorResetIndicator
    (fun text _ _ => text) Example.GetLineHeight 1024 768
    (fun secs => (secs * 1000)%Z) (fun _ => 5) 0.

Definition console : InfoConsole.CInfoConsole :=
  InfoConsole.CInfoConsole_new 10 (B32.of_Z 12) (B32.lit 41 100) (B32.lit 205 1000).

Definition messages : list (u8string * u8string * Z) :=
  [([x61], [x73], 1%Z); ([x62], [x73], 2%Z)].

Definition pos1 : InfoConsole.float3 :=
  InfoConsole.mkFloat3 (B32.of_Z 1) (B32.of_Z 0) (B32.of_Z 0).
Definition pos2 : InfoConsole.float3 :=
  InfoConsole.mkFloat3 (B32.of_Z 2) (B32.of_Z 0) (B32.of_Z 0).
Definition pos3 : InfoConsole.float3 :=
  InfoConsole.mkFloat3 (B32.of_Z 3) (B32.of_Z 0) (B32.of_Z 0).

(** A console that holds three positions, the iterator at the first. *)
Definition console_positions : InfoConsole.CInfoConsole :=
  InfoConsole.set_lastMsgPositions [pos1; pos2; pos3] console.

End Sample.

(* ===================================================================== *)
(** * Part II: properties                                                  *)
(* ===================================================================== *)

(** ** Lists and cursors *)

Lemma at_app (pre : u8string) (c : byte) (r : u8string) :
  (pre ++ c :: r) @ (length pre) = c.
Proof.
  unfold at_. rewrite app_nth2 by lia. now rewrite Nat.sub_diag.
Qed.

Lemma at_app_next (pre : u8string) (c c' : byte) (r : u8string) :
  (pre ++ c :: c' :: r) @ (length pre + 1) = c'.
Proof.
  unfold at_. rewrite app_nth2 by lia.
  replace (length pre + 1 - length pre) with 1 by lia. reflexivity.
Qed.

Lemma snoc_app {A} (pre : list A) (c : A) (r : list A) :
  pre ++ c :: r = (pre ++ [c]) ++ r.
Proof. now rewrite <- app_assoc. Qed.

Lemma byte_eqb_refl (b : byte) : Byte.eqb b b = true.
Proof. now apply Byte.byte_dec_lb. Qed.

Lemma byte_eqb_neq (a b : byte) : a <> b -> Byte.eqb a b = false.
Proof.
  intros H. destruct (Byte.eqb a b) eqn:E; [|reflexivity].
  now apply Byte.byte_dec_bl in E.
Qed.

Lemma byte_eqb_true (a b : byte) : Byte.eqb a b = true -> a = b.
Proof. apply Byte.byte_dec_bl. Qed.

Ltac len := rewrite ?length_app in *; simpl in *; try lia.

(** ** StripColorCodes *)

Section StripProperties.
Variables CCI CRI : byte.

Lemma StripColorCodes_loop_eq fuel text i nocolor :
  StripColorCodes_loop CCI fuel text i nocolor =
  if i <? length text then
    match fuel with
    | O => None
    | S fuel' =>
        if Byte.eqb (text @ i) CCI
        then StripColorCodes_loop CCI fuel' text (i + 3 + 1) nocolor
        else StripColorCodes_loop CCI fuel' text (i + 1) (nocolor ++ [text @ i])
    end
  else Some nocolor.
Proof. destruct fuel; reflexivity. Qed.

Lemma printable_not_indicator b : printable_byte CCI CRI b = true -> b <> CCI.
Proof.
  unfold printable_byte. intros H ->. now rewrite byte_eqb_refl in H.
Qed.

(** The loop, started at the beginning of a rendered suffix, appends the
    printable bytes of that suffix. *)
Lemma StripColorCodes_loop_render items :
  Forall (fun it => match it with Printable b => b <> CCI | ColorSet _ _ _ => True end) items ->
  forall fuel pre nocolor,
    length (render CCI items) <= fuel ->
    StripColorCodes_loop CCI fuel (pre ++ render CCI items) (length pre) nocolor
    = Some (nocolor ++ printables items).
Proof.
  induction 1 as [|it items Hit _ IH]; intros fuel pre nocolor Hfuel;
    rewrite StripColorCodes_loop_eq.
  - simpl. rewrite app_nil_r, Nat.ltb_irrefl, app_nil_r. reflexivity.
  - destruct it as [b|r g b]; simpl in Hfuel |- *.
    + replace (length pre <? length (pre ++ b :: render CCI items)) with true
        by (symmetry; apply Nat.ltb_lt; len).
      destruct fuel as [|fuel]; [lia|].
      rewrite at_app, byte_eqb_neq by assumption.
      rewrite snoc_app.
      replace (length pre + 1) with (length (pre ++ [b])) by len.
      rewrite IH by lia. now rewrite <- app_assoc.
    + replace (length pre <? length (pre ++ CCI :: r :: g :: b :: render CCI items))
        with true by (symmetry; apply Nat.ltb_lt; len).
      destruct fuel as [|fuel]; [lia|].
      rewrite at_app, byte_eqb_refl.
      change (pre ++ CCI :: r :: g :: b :: render CCI items)
        with (pre ++ [CCI; r; g; b] ++ render CCI items).
      rewrite app_assoc.
      replace (length pre + 3 + 1) with (length (pre ++ [CCI; r; g; b])) by len.
      now rewrite IH by lia.
Qed.

Lemma render_printables_only (bs : list byte) :
  render CCI (map Printable bs) = bs /\ printables (map Printable bs) = bs.
Proof.
  unfold render, printables.
  induction bs as [|b bs [IH1 IH2]]; [now split|].
  cbn [map flat_map render_item app]. now rewrite IH1, IH2.
Qed.

(** A text without the indicator byte is returned as it is. *)
Lemma StripColorCodes_plain (bs : list byte) :
  Forall (fun b => b <> CCI) bs -> StripColorCodes_ CCI bs = Some bs.
Proof.
  intros H. unfold StripColorCodes_.
  destruct (render_printables_only bs) as [Hr Hp].
  pose proof (@StripColorCodes_loop_render (map Printable bs)) as L.
  rewrite Hr, Hp in L.
  apply (L (proj2 (Forall_map Printable _ bs) H) (length bs) [] []). lia.
Qed.

Lemma printables_no_indicator items :
  well_formed CCI CRI items -> Forall (fun b => b <> CCI) (printables items).
Proof.
  induction 1 as [|it items Hit _ IH]; [constructor|].
  destruct it; simpl; [constructor|]; auto using printable_not_indicator.
Qed.

(** On every text the loop returns, and what it returns holds no indicator
    byte. *)
Lemma StripColorCodes_loop_returns text fuel :
  forall i nocolor,
    length text - i <= fuel ->
    Forall (fun b => b <> CCI) nocolor ->
    exists out, StripColorCodes_loop CCI fuel text i nocolor = Some out /\
                Forall (fun b => b <> CCI) out.
Proof.
  induction fuel as [|fuel IH]; intros i nocolor Hfuel Hacc;
    rewrite StripColorCodes_loop_eq;
    destruct (i <? length text) eqn:Hlt; eauto; apply Nat.ltb_lt in Hlt; [lia|].
  destruct (Byte.eqb (text @ i) CCI) eqn:Hc.
  - apply IH; [lia|assumption].
  - apply IH; [lia|]. apply Forall_app. split; [assumption|].
    constructor; [|constructor]. intros E. rewrite E, byte_eqb_refl in Hc. discriminate.
Qed.

(** [StripColorCodes_] is idempotent on every text. *)
Lemma StripColorCodes_idempotent (text : u8string) :
  exists out, StripColorCodes_ CCI text = Some out /\ StripColorCodes_ CCI out = Some out.
Proof.
  destruct (@StripColorCodes_loop_returns text (length text) 0 []) as (out & H & Hout);
    [lia|constructor|].
  exists out. split; [exact H|]. now apply StripColorCodes_plain.
Qed.

(** C9. For a text that consists of printable characters and complete
    4-byte colour-set sequences, [StripColorCodes_] returns exactly the
    printable characters, in their order, and applied to that result it
    returns it unchanged. *)
Theorem StripColorCodes_printables_idempotent (items : list item) :
  well_formed CCI CRI items ->
  StripColorCodes_ CCI (render CCI items) = Some (printables items) /\
  StripColorCodes_ CCI (printables items) = Some (printables items).
Proof.
  intros Hwf. split.
  - unfold StripColorCodes_.
    apply (@StripColorCodes_loop_render items) with (pre := []) (nocolor := []); [|lia].
    eapply Forall_impl; [|exact Hwf].
    intros [b|r g b]; auto using printable_not_indicator.
  - apply StripColorCodes_plain, printables_no_indicator, Hwf.
Qed.
End StripProperties.

(** ** SkipColorCodes *)

Section SkipProperties.
Variable CCI : byte.

Lemma SkipColorCodes_loop_eq fuel text idx :
  SkipColorCodes_loop CCI fuel text idx =
  if (idx <? length text) && Byte.eqb (text @ idx) CCI then
    match fuel with
    | O => None
    | S fuel' => SkipColorCodes_loop CCI fuel' text (idx + 4)
    end
  else Some idx.
Proof. destruct fuel; reflexivity. Qed.

Lemma SkipColorCodes_loop_returns text fuel :
  forall idx, length text - idx <= fuel ->
  exists j, SkipColorCodes_loop CCI fuel text idx = Some j /\ idx <= j /\
            (idx < length text -> text @ idx = CCI -> idx + 4 <= j).
Proof.
  induction fuel as [|fuel IH]; intros idx Hfuel; rewrite SkipColorCodes_loop_eq.
  - replace (idx <? length text) with false by (symmetry; apply Nat.ltb_ge; lia).
    exists idx. repeat split; lia.
  - destruct (idx <? length text) eqn:Hlt; cbn [andb].
    + destruct (Byte.eqb (text @ idx) CCI) eqn:Heq.
      * destruct (IH (idx + 4)) as (j & Hj & Hle & _); [lia|].
        exists j. repeat split; auto; lia.
      * exists idx. repeat split; auto. intros _ E. rewrite E, byte_eqb_refl in Heq.
        discriminate.
    + apply Nat.ltb_ge in Hlt. exists idx. repeat split; auto; lia.
Qed.

(** [SkipColorCodes] returns, does not move backwards inside the text, and
    from an indicator byte it moves forward. *)
Lemma SkipColorCodes_returns text idx :
  exists j, SkipColorCodes CCI text idx = Some j /\
            Nat.min (length text) idx <= j <= length text /\
            (idx < length text -> text @ idx = CCI -> idx < j).
Proof.
  unfold SkipColorCodes.
  destruct (@SkipColorCodes_loop_returns text (length text) idx) as (j & -> & Hle & Hind);
    [lia|].
  exists (Nat.min (length text) j). repeat split; intros; try lia.
  specialize (Hind H H0). lia.
Qed.
End SkipProperties.

(** ** GetTextNumLines *)

Section NumLinesProperties.
Variables CCI CRI : byte.

Lemma GetTextNumLines_loop_eq fuel text pos lines :
  GetTextNumLines_loop CCI CRI fuel text pos lines =
  if pos <? length text then
    match fuel with
    | O => None
    | S fuel' =>
        let c := text @ pos in
        if Byte.eqb c CCI then
          match SkipColorCodes CCI text pos with
          | Some pos' => GetTextNumLines_loop CCI CRI fuel' text (pos' - 1 + 1) lines
          | None => None
          end
        else if Byte.eqb c CRI then
          GetTextNumLines_loop CCI CRI fuel' text (pos + 1) lines
        else if Byte.eqb c x0d then
          let pos' :=
            pos + (if (pos + 1 <? length text) && Byte.eqb (text @ (pos + 1)) x0a
                   then 1 else 0) in
          GetTextNumLines_loop CCI CRI fuel' text (pos' + 1) (lines + 1)
        else if Byte.eqb c x0a then
          GetTextNumLines_loop CCI CRI fuel' text (pos + 1) (lines + 1)
        else GetTextNumLines_loop CCI CRI fuel' text (pos + 1) lines
    end
  else Some lines.
Proof. destruct fuel; reflexivity. Qed.

(** From the start of a suffix without indicator bytes, the loop adds the
    line breaks of the suffix to the counter. *)
Lemma GetTextNumLines_loop_count fuel :
  forall suf pre lines,
    no_control CCI CRI suf ->
    length suf <= fuel ->
    GetTextNumLines_loop CCI CRI fuel (pre ++ suf) (length pre) lines
    = Some (lines + count_breaks suf).
Proof.
  induction fuel as [|fuel IH]; intros suf pre lines Hnc Hfuel;
    rewrite GetTextNumLines_loop_eq.
  - destruct suf; [|simpl in Hfuel; lia].
    rewrite app_nil_r, Nat.ltb_irrefl. simpl. f_equal; lia.
  - destruct suf as [|c r].
    { rewrite app_nil_r, Nat.ltb_irrefl. simpl. f_equal; lia. }
    inversion Hnc as [|? ? [HnC HnR] Hr]; subst.
    replace (length pre <? length (pre ++ c :: r)) with true
      by (symmetry; apply Nat.ltb_lt; len).
    cbv zeta. rewrite at_app, (byte_eqb_neq HnC), (byte_eqb_neq HnR).
    simpl in Hfuel. simpl count_breaks.
    destruct (Byte.eqb c x0d) eqn:Ecr.
    + destruct r as [|c' r'].
      * replace (length pre + 1 <? length (pre ++ [c])) with false
          by (symmetry; apply Nat.ltb_ge; len).
        cbn [andb]. rewrite Nat.add_0_r, snoc_app.
        replace (length pre + 1) with (length (pre ++ [c])) by len.
        rewrite IH by (simpl; auto; lia). simpl. f_equal; lia.
      * replace (length pre + 1 <? length (pre ++ c :: c' :: r')) with true
          by (symmetry; apply Nat.ltb_lt; len).
        rewrite at_app_next. cbn [andb].
        inversion Hr as [|? ? Hc' Hr']; subst.
        destruct (Byte.eqb c' x0a) eqn:Elf.
        -- change (pre ++ c :: c' :: r') with (pre ++ [c; c'] ++ r').
           rewrite app_assoc.
           replace (length pre + 1 + 1) with (length (pre ++ [c; c'])) by len.
           rewrite IH by (simpl in *; auto; lia). f_equal; lia.
        -- rewrite Nat.add_0_r, snoc_app.
           replace (length pre + 1) with (length (pre ++ [c])) by len.
           rewrite IH by (simpl in *; auto; lia). f_equal; lia.
    + rewrite snoc_app.
      replace (length pre + 1) with (length (pre ++ [c])) by len.
      destruct (Byte.eqb c x0a); rewrite IH by (auto; lia); f_equal; lia.
Qed.

(** On every text, colour codes included, the loop returns. *)
Lemma GetTextNumLines_loop_returns text fuel :
  forall pos lines,
    length text - pos <= fuel ->
    exists n, GetTextNumLines_loop CCI CRI fuel text pos lines = Some n /\ lines <= n.
Proof.
  induction fuel as [|fuel IH]; intros pos lines Hfuel;
    rewrite GetTextNumLines_loop_eq;
    destruct (pos <? length text) eqn:Hlt; eauto; apply Nat.ltb_lt in Hlt; [lia|].
  cbv zeta. destruct (Byte.eqb (text @ pos) CCI) eqn:Hc.
  - apply byte_eqb_true in Hc.
    destruct (SkipColorCodes_returns CCI text pos) as (j & -> & _ & Hj).
    specialize (Hj Hlt Hc).
    destruct (IH (j - 1 + 1) lines) as (n & -> & Hn); [lia|]. eauto.
  - destruct (Byte.eqb (text @ pos) CRI); [apply IH; lia|].
    destruct (Byte.eqb (text @ pos) x0d).
    + match goal with
      | |- context [GetTextNumLines_loop _ _ _ _ ?p ?l] =>
          destruct (IH p l) as (n & -> & Hn)
      end; [destruct (_ && _); lia|]. exists n. split; [reflexivity|lia].
    + destruct (Byte.eqb (text @ pos) x0a).
      * destruct (IH (pos + 1) (lines + 1)) as (n & -> & Hn); [lia|].
        exists n. split; [reflexivity|lia].
      * apply IH. lia.
Qed.

Lemma GetTextNumLines_returns text :
  exists n, GetTextNumLines_ CCI CRI text = Some n.
Proof.
  destruct text as [|c r]; [now exists 0|].
  destruct (@GetTextNumLines_loop_returns (c :: r) (length (c :: r)) 0 1) as (n & H & _);
    [lia|].
  exists n. exact H.
Qed.

(** C8. For a text without control sequences, [GetTextNumLines_] returns 1
    plus the number of line breaks, CR, LF and CR+LF counting once each; for
    the empty text it returns 0. *)
Theorem GetTextNumLines_counts_breaks (text : u8string) :
  no_control CCI CRI text ->
  GetTextNumLines_ CCI CRI text =
  Some (match text with [] => 0 | _ => 1 + count_breaks text end).
Proof.
  intros Hnc. destruct text as [|c r]; [reflexivity|].
  unfold GetTextNumLines_.
  now apply (@GetTextNumLines_loop_count (length (c :: r)) (c :: r) [] 1).
Qed.
End NumLinesProperties.

(** ** SkipColorCodesAndNewLines *)

Section ScanProperties.
Variables CCI CRI : byte.

Lemma SkipColorCodesAndNewLines_loop_eq fuel text colorReset st :
  SkipColorCodesAndNewLines_loop CCI CRI fuel text colorReset st =
  if pos st <? length text then
    match scan_body CCI CRI text colorReset st with
    | None => Some (false, st)
    | Some st' =>
        match fuel with
        | O => None
        | S fuel' => SkipColorCodesAndNewLines_loop CCI CRI fuel' text colorReset st'
        end
    end
  else Some (true, st).
Proof. destruct fuel; reflexivity. Qed.

(** Every iteration that continues moves the cursor forward. *)
Lemma scan_body_advances text colorReset st st' :
  scan_body CCI CRI text colorReset st = Some st' -> pos st < pos st'.
Proof.
  unfold scan_body. intros H.
  repeat match type of H with
         | context [if ?b then _ else _] => destruct b
         end;
    inversion H; subst; simpl; lia.
Qed.

Lemma SkipColorCodesAndNewLines_loop_returns text colorReset fuel :
  forall st, length text - pos st <= fuel ->
  exists r, SkipColorCodesAndNewLines_loop CCI CRI fuel text colorReset st = Some r.
Proof.
  induction fuel as [|fuel IH]; intros st Hfuel;
    rewrite SkipColorCodesAndNewLines_loop_eq;
    destruct (pos st <? length text) eqn:Hlt; eauto;
    apply Nat.ltb_lt in Hlt;
    destruct (scan_body CCI CRI text colorReset st) as [st'|] eqn:Hb; eauto.
  - lia.
  - apply IH. apply scan_body_advances in Hb. lia.
Qed.

(** The scanner returns on every input: no text makes it fail. *)
Lemma SkipColorCodesAndNewLines_returns text pos0 color0 colorReset :
  exists r, SkipColorCodesAndNewLines CCI CRI text pos0 color0 colorReset = Some r.
Proof.
  apply SkipColorCodesAndNewLines_loop_returns. simpl. lia.
Qed.


End ScanProperties.

(** ** The code-point scan *)

Lemma char32_of_byte_inj (a b : byte) : char32_of_byte a = char32_of_byte b -> a = b.
Proof.
  unfold char32_of_byte. intros H.
  pose proof (Byte.of_to_N a) as Ha. rewrite H, Byte.of_to_N in Ha. congruence.
Qed.

Section MetricsProperties.
Variables CCI CRI : byte.
Variable GetNextChar : u8string -> nat -> char32_t * nat.
Variable GetGlyph : char32_t -> GlyphInfo.
Variable GetKerning : GlyphInfo -> GlyphInfo -> float.
Variables GetLineHeight GetDescender : float.

Lemma skip_lf_le text idx : idx <= skip_lf text idx.
Proof. unfold skip_lf. lia. Qed.

(** Inside the text the scan finds a token and moves forward. *)
Lemma next_token_progress text idx :
  decoder_ok GetNextChar -> idx < length text ->
  exists t idx', next_token CCI CRI GetNextChar text idx = Some (t, idx') /\ idx < idx'.
Proof.
  intros Hdec Hlt. destruct (Hdec text idx Hlt) as [Hadv Hone].
  unfold next_token. destruct (GetNextChar text idx) as [u idx1]. simpl in Hadv, Hone.
  destruct (N.eqb u (char32_of_byte CCI)) eqn:Hc.
  - apply N.eqb_eq in Hc.
    destruct (SkipColorCodes_returns CCI text (idx1 - 1)) as (j & -> & Hle & Hind).
    exists TColor, j. split; [reflexivity|].
    destruct (Nat.eq_dec idx1 (idx + 1)) as [E|E].
    + replace (idx1 - 1) with idx in * by lia.
      apply Hind; [assumption|].
      apply char32_of_byte_inj. rewrite <- Hc. symmetry. auto.
    + lia.
  - destruct (N.eqb u (char32_of_byte CRI)); [eauto|].
    destruct (N.eqb u 13).
    { do 2 eexists; split; [reflexivity|]. pose proof (skip_lf_le text idx1). lia. }
    destruct (N.eqb u 10); eauto.
Qed.

Local Abbreviation tokens_from' := (tokens_from CCI CRI GetNextChar).
Local Abbreviation width_loop := (GetTextWidth_loop CCI CRI GetNextChar GetGlyph GetKerning).
Local Abbreviation height_loop :=
  (GetTextHeight_loop CCI CRI GetNextChar GetGlyph GetLineHeight GetDescender).

Lemma tokens_from_eq fuel text idx :
  tokens_from' fuel text idx =
  if idx <? length text then
    match fuel with
    | O => None
    | S fuel' =>
        match next_token CCI CRI GetNextChar text idx with
        | Some (t, idx') =>
            match tokens_from' fuel' text idx' with
            | Some ts => Some (t :: ts)
            | None => None
            end
        | None => None
        end
    end
  else Some [].
Proof. destruct fuel; reflexivity. Qed.

(** With [text.length()] units of fuel the scan reaches the end. *)
Lemma tokens_from_returns text :
  decoder_ok GetNextChar ->
  forall fuel idx, length text - idx <= fuel ->
  exists ts, tokens_from' fuel text idx = Some ts.
Proof.
  intros Hdec. induction fuel as [|fuel IH]; intros idx Hfuel; rewrite tokens_from_eq;
    destruct (idx <? length text) eqn:Hlt; eauto; apply Nat.ltb_lt in Hlt; [lia|].
  destruct (next_token_progress text Hdec Hlt) as (t & idx' & -> & Hadv).
  destruct (IH idx') as [ts ->]; [lia|]. eauto.
Qed.

Lemma tokens_returns text :
  decoder_ok GetNextChar -> exists ts, tokens CCI CRI GetNextChar text = Some ts.
Proof. intros Hdec. apply tokens_from_returns; [assumption|lia]. Qed.

Lemma GetTextWidth_loop_eq fuel text idx curw maxw prv :
  width_loop fuel text idx curw maxw prv =
  if idx <? length text then
    match fuel with
    | O => None
    | S fuel' =>
        let '(curGlyphIdx, idx1) := GetNextChar text idx in
        if N.eqb curGlyphIdx (char32_of_byte CCI) then
          match SkipColorCodes CCI text (idx1 - 1) with
          | Some idx2 => width_loop fuel' text idx2 curw maxw prv
          | None => None
          end
        else if N.eqb curGlyphIdx (char32_of_byte CRI) then
          width_loop fuel' text idx1 curw maxw prv
        else if N.eqb curGlyphIdx 13 then
          width_loop fuel' text (skip_lf text idx1)
            B32.zero (B32.max (add_advance GetGlyph curw prv) maxw) None
        else if N.eqb curGlyphIdx 10 then
          width_loop fuel' text idx1
            B32.zero (B32.max (add_advance GetGlyph curw prv) maxw) None
        else
          width_loop fuel' text idx1
            (add_kerning GetGlyph GetKerning curw prv curGlyphIdx) maxw (Some curGlyphIdx)
    end
  else Some (curw, maxw, prv).
Proof. destruct fuel; reflexivity. Qed.

Lemma GetTextHeight_loop_eq fuel text idx h d multiLine :
  height_loop fuel text idx h d multiLine =
  if idx <? length text then
    match fuel with
    | O => None
    | S fuel' =>
        let '(u, idx1) := GetNextChar text idx in
        if N.eqb u (char32_of_byte CCI) then
          match SkipColorCodes CCI text (idx1 - 1) with
          | Some idx2 => height_loop fuel' text idx2 h d multiLine
          | None => None
          end
        else if N.eqb u (char32_of_byte CRI) then
          height_loop fuel' text idx1 h d multiLine
        else if N.eqb u 13 then
          height_loop fuel' text (skip_lf text idx1)
            h (B32.add GetLineHeight GetDescender) (multiLine + 1)
        else if N.eqb u 10 then
          height_loop fuel' text idx1
            h (B32.add GetLineHeight GetDescender) (multiLine + 1)
        else
          let g := GetGlyph u in
          height_loop fuel' text idx1
            (B32.max h (B32.mul (height g) (B32.of_bool (multiLine <? 2))))
            (B32.min d (descender g)) multiLine
    end
  else Some (h, d, multiLine).
Proof. destruct fuel; reflexivity. Qed.

(** Both loops run the bodies [width_tokens] and [height_tokens] over the
    token stream. *)
Ltac scan_cases IH :=
  unfold next_token;
  match goal with
  | |- context [GetNextChar ?t ?i] => destruct (GetNextChar t i) as [u idx1]
  end;
  repeat match goal with
         | |- context [if N.eqb ?a ?b then _ else _] => destruct (N.eqb a b)
         | |- context [SkipColorCodes ?c ?t ?i] =>
             destruct (SkipColorCodes c t i) as [idx2|]; [|discriminate]
         end;
  match goal with
  | |- context [tokens_from' ?f ?t ?i] =>
      destruct (tokens_from' f t i) as [ts'|] eqn:Hts; [|discriminate]
  end;
  intros H; inversion H; subst; cbn -[Nat.ltb]; now apply IH.

Lemma GetTextWidth_loop_tokens text fuel :
  forall idx ts curw maxw prv,
    tokens_from' fuel text idx = Some ts ->
    width_loop fuel text idx curw maxw prv
    = Some (width_tokens GetGlyph GetKerning ts curw maxw prv).
Proof.
  induction fuel as [|fuel IH]; intros idx ts curw maxw prv;
    rewrite tokens_from_eq, GetTextWidth_loop_eq;
    (destruct (idx <? length text); [|intros H; inversion H; reflexivity]);
    [discriminate|].
  scan_cases IH.
Qed.

Lemma GetTextHeight_loop_tokens text fuel :
  forall idx ts h d multiLine,
    tokens_from' fuel text idx = Some ts ->
    height_loop fuel text idx h d multiLine
    = Some (height_tokens GetGlyph GetLineHeight GetDescender ts h d multiLine).
Proof.
  induction fuel as [|fuel IH]; intros idx ts h d multiLine;
    rewrite tokens_from_eq, GetTextHeight_loop_eq;
    (destruct (idx <? length text); [|intros H; inversion H; reflexivity]);
    [discriminate|].
  scan_cases IH.
Qed.

Lemma glyph_lines_cons ts : exists l ls, glyph_lines ts = l :: ls.
Proof.
  induction ts as [|[| | |u] ts (l & ls & IH)]; simpl; eauto.
  rewrite IH. eauto.
Qed.

(** The single pass over the tokens computes the running maximum of the
    widths of the lines. *)
Lemma width_tokens_lines ts :
  forall curw maxw prv l ls,
    glyph_lines ts = l :: ls ->
    (let '(c, m, p) := width_tokens GetGlyph GetKerning ts curw maxw prv in
     B32.max (add_advance GetGlyph c p) m)
    = max_width_from
        (B32.max (line_width_from GetGlyph GetKerning curw prv l) maxw)
        (map (line_width GetGlyph GetKerning) ls).
Proof.
  induction ts as [|t ts IH]; intros curw maxw prv l ls Hl.
  - inversion Hl; subst. reflexivity.
  - destruct (glyph_lines_cons ts) as (l' & ls' & Hl').
    destruct t as [| | |u]; simpl in Hl |- *; rewrite Hl' in Hl; inversion Hl; subst;
      try (now apply IH).
    + rewrite (IH _ _ _ _ _ Hl'). reflexivity.
    + rewrite (IH _ _ _ _ _ Hl'). reflexivity.
Qed.


(** When the width of the first line is not negative, the start value 0 of
    the running maximum is of no effect. *)
Lemma max_width_from_zero (w : float) (ws : list float) :
  B32.ltb w B32.zero = false ->
  max_width_from B32.zero (w :: ws) = max_width_from w ws.
Proof.
  intros H. unfold max_width_from. simpl. unfold B32.max, std_max. now rewrite H.
Qed.

(** The width that the loop accumulates for a line is the sum of its
    summands. *)
Lemma line_width_from_sum (l : list char32_t) :
  forall w p,
    line_width_from GetGlyph GetKerning w (Some p) l
    = fold_left B32.add (line_summands GetGlyph GetKerning (p :: l)) w.
Proof.
  induction l as [|c r IH]; intros w p; [reflexivity|].
  cbn [line_width_from add_kerning]. rewrite IH. reflexivity.
Qed.

Lemma line_width_sum (l : list char32_t) :
  line_width GetGlyph GetKerning l = line_sum GetGlyph GetKerning l.
Proof.
  destruct l as [|c r]; [reflexivity|].
  unfold line_width, line_sum. cbn [line_width_from add_kerning].
  apply line_width_from_sum.
Qed.

(** [<] on numbers is the order of their ranks. *)
Lemma B32_ltb_rank (a b : float) :
  a <> S754_nan -> b <> S754_nan ->
  (B32.ltb a b = true <-> lex_lt (B32_rank a) (B32_rank b)).
Proof.
  intros Ha Hb. unfold B32.ltb, SFltb, SFcompare, lex_lt, B32_rank.
  destruct a as [sa|sa| |sa ma ea]; try congruence;
    destruct b as [sb|sb| |sb mb eb]; try congruence;
    destruct sa; destruct sb;
    try change (Pos.compare_cont Eq ma mb) with (Pos.compare ma mb);
    try destruct (Z.compare_spec ea eb);
    try destruct (Pos.compare_spec ma mb);
    cbn [CompOpp]; split; intros Hlt; try discriminate; try reflexivity; lia.
Qed.

Lemma B32_ltb_nan_l (b : float) : B32.ltb S754_nan b = false.
Proof. reflexivity. Qed.

Lemma B32_ltb_nan_r (a : float) : B32.ltb a S754_nan = false.
Proof. now destruct a. Qed.

Lemma B32_ltb_false_rank (a b : float) :
  a <> S754_nan -> b <> S754_nan ->
  (B32.ltb a b = false <-> ~ lex_lt (B32_rank a) (B32_rank b)).
Proof.
  intros Ha Hb. pose proof (B32_ltb_rank Ha Hb) as H.
  destruct (B32.ltb a b); split; intros H1; try discriminate; try reflexivity.
  - exfalso. apply H1. now apply H.
  - intros H2. apply H in H2. discriminate.
Qed.

Lemma B32_ltb_irrefl (a : float) : B32.ltb a a = false.
Proof.
  destruct (B32.ltb a a) eqn:H; [|reflexivity]. exfalso.
  assert (Ha : a <> S754_nan) by (intros ->; discriminate).
  apply (B32_ltb_rank Ha Ha) in H. unfold lex_lt in H.
  destruct (B32_rank a) as [[a1 a2] a3]. lia.
Qed.

Lemma B32_ltb_asym (a b : float) : B32.ltb a b = true -> B32.ltb b a = false.
Proof.
  intros H.
  assert (Ha : a <> S754_nan) by (intros ->; discriminate).
  assert (Hb : b <> S754_nan) by (intros ->; rewrite B32_ltb_nan_r in H; discriminate).
  apply (B32_ltb_rank Ha Hb) in H. apply (B32_ltb_false_rank Hb Ha).
  unfold lex_lt in *.
  destruct (B32_rank a) as [[a1 a2] a3], (B32_rank b) as [[b1 b2] b3]. lia.
Qed.

(** Among numbers, [>=] is transitive. *)
Lemma B32_ge_trans (a b c : float) :
  a <> S754_nan -> b <> S754_nan -> c <> S754_nan ->
  B32.ltb c b = false -> B32.ltb b a = false -> B32.ltb c a = false.
Proof.
  intros Ha Hb Hc H1 H2.
  apply (B32_ltb_false_rank Hc Hb) in H1. apply (B32_ltb_false_rank Hb Ha) in H2.
  apply (B32_ltb_false_rank Hc Ha). unfold lex_lt in *.
  destruct (B32_rank a) as [[a1 a2] a3], (B32_rank b) as [[b1 b2] b3],
    (B32_rank c) as [[c1 c2] c3]. lia.
Qed.

(** The running maximum of numbers is the greatest of them and of its start
    value. *)
Lemma max_width_from_greatest (ws : list float) :
  forall m seen,
    Forall (fun w => w <> S754_nan) (seen ++ ws) ->
    greatest_of m seen ->
    greatest_of (max_width_from m ws) (seen ++ ws).
Proof.
  induction ws as [|w ws IH]; intros m seen Hn Hg.
  - now rewrite app_nil_r.
  - change (max_width_from m (w :: ws)) with (max_width_from (B32.max w m) ws).
    replace (seen ++ w :: ws) with ((seen ++ [w]) ++ ws) in *
      by (now rewrite <- app_assoc).
    apply IH; [exact Hn|].
    destruct Hg as [Hin Hall].
    apply Forall_app in Hn. destruct Hn as [Hn _].
    apply Forall_app in Hn. destruct Hn as [Hns Hnw].
    assert (Hw : w <> S754_nan) by now inversion Hnw.
    assert (Hm : m <> S754_nan) by (rewrite Forall_forall in Hns; now apply Hns).
    unfold B32.max, std_max. destruct (B32.ltb w m) eqn:Hlt.
    + split; [apply in_or_app; now left|].
      apply Forall_app. split; [exact Hall|].
      constructor; [now apply B32_ltb_asym|constructor].
    + split; [apply in_or_app; right; now left|].
      apply Forall_app. split.
      * rewrite Forall_forall in Hall, Hns |- *. intros x Hx.
        apply B32_ge_trans with (b := m); auto.
      * constructor; [apply B32_ltb_irrefl|constructor].
Qed.

(** C4, as amended. [GetTextWidth_] returns the greatest of 0 and the widths
    of the lines: [std::max] folded from [0.0f] over the lines in their
    order, which, when no line width is NaN, is one of these values and is
    less than none of them.  The width of a line is the sum, from left to
    right and from 0, of [GetKerning] (the advance of a glyph adjusted by its
    kerning with the next) over the neighbouring printable glyphs of that
    line and of the advance of its last glyph.  Colour-set and colour-reset
    tokens add nothing and do not separate neighbours; a line break closes
    the width of its line, last advance included, and starts the next from
    no previous glyph.  The empty text has width 0. *)
Theorem GetTextWidth_max_line_width (text : u8string) :
  decoder_ok GetNextChar ->
  exists ts,
    tokens CCI CRI GetNextChar text = Some ts /\
    GetTextWidth_ CCI CRI GetNextChar GetGlyph GetKerning text
    = Some (max_width_from B32.zero
              (map (line_sum GetGlyph GetKerning) (glyph_lines ts))) /\
    (Forall (fun w => w <> S754_nan)
       (map (line_sum GetGlyph GetKerning) (glyph_lines ts)) ->
     greatest_of
       (max_width_from B32.zero (map (line_sum GetGlyph GetKerning) (glyph_lines ts)))
       (B32.zero :: map (line_sum GetGlyph GetKerning) (glyph_lines ts))) /\
    GetTextWidth_ CCI CRI GetNextChar GetGlyph GetKerning [] = Some B32.zero.
Proof.
  intros Hdec. destruct (tokens_returns text Hdec) as [ts Hts].
  exists ts. split; [assumption|]. split; [|split; [|reflexivity]].
  - rewrite <- (map_ext _ _ line_width_sum).
    destruct text as [|c r].
    + inversion Hts; subst. reflexivity.
    + unfold GetTextWidth_.
      rewrite (GetTextWidth_loop_tokens _ _ _ B32.zero B32.zero None Hts).
      destruct (glyph_lines_cons ts) as (l & ls & Hl).
      pose proof (width_tokens_lines ts B32.zero B32.zero None Hl) as W.
      destruct (width_tokens GetGlyph GetKerning ts B32.zero B32.zero None) as [[c' m] p].
      rewrite W, Hl. reflexivity.
  - intros Hn.
    apply (@max_width_from_greatest _ B32.zero [B32.zero]).
    + constructor; [discriminate|exact Hn].
    + split; [now left|]. constructor; [reflexivity|constructor].
Qed.

End MetricsProperties.

(** ** Binary32 division of a value by itself *)

Lemma div_eucl_mul_self (m : positive) (k : Z) :
  Z.div_eucl (Zpos m * k) (Zpos m) = (k, 0%Z).
Proof.
  pose proof (Z.div_mul k (Zpos m) ltac:(discriminate)) as Hd.
  pose proof (Z.mod_mul k (Zpos m) ltac:(discriminate)) as Hm.
  rewrite Z.mul_comm. unfold Z.div, Z.modulo in Hd, Hm.
  destruct (Z.div_eucl (k * Zpos m) (Zpos m)) as [q r]. simpl in *. congruence.
Qed.

(** A finite non-zero value divided by itself is exactly 1.0f. *)
Lemma B32_div_self_finite s m e :
  B32.div (S754_finite s m e) (S754_finite s m e) = S754_finite false 8388608 (-23).
Proof.
  unfold B32.div, B32.prec, B32.emax, SFdiv, SFdiv_core_binary. cbv zeta.
  rewrite !Z.sub_diag.
  change (Z.min (fexp 24 128 0) 0) with (-24)%Z.
  change (0 - -24)%Z with 24%Z. cbv iota.
  rewrite Z.shiftl_mul_pow2 by lia.
  rewrite div_eucl_mul_self.
  replace (new_location (Zpos m) 0) with loc_Exact
    by (unfold new_location; destruct (Z.even (Zpos m)); reflexivity).
  rewrite xorb_nilpotent. reflexivity.
Qed.

(** Whatever [x] is (zero, infinite and NaN included), [x / x > 5.0f] is
    false. *)
Lemma B32_div_self_not_above_5 (x : float) :
  B32.ltb (B32.lit 5 1) (B32.div x x) = false.
Proof.
  destruct x as [s|s|
                |s m e]; try reflexivity.
  rewrite B32_div_self_finite. reflexivity.
Qed.

Lemma std_max_same {A} (lt : A -> A -> bool) (x : A) : std_max lt x x = x.
Proof. unfold std_max. now destruct (lt x x). Qed.

Lemma std_min_same {A} (lt : A -> A -> bool) (x : A) : std_min lt x x = x.
Proof. unfold std_min. now destruct (lt x x). Qed.

(** ** The outline-contrast selector *)

Section OutlineProperties.
Variable pow : double -> double -> double.

(** C7. [ChooseOutlineColor] is a function of the text colour (and of
    [std::pow]): with [L] the luminosity
    [0.05 + 0.2126 R^2.2 + 0.7152 G^2.2 + 0.0722 B^2.2] of the text colour
    and [Ld] that of the dark outline, it returns the dark outline when
    [max(L, Ld) / min(L, Ld) > 5.0f] and the light outline otherwise; for the
    dark-outline colour itself it returns the light outline. *)
Theorem ChooseOutlineColor_contrast (textColor : float4) :
  ChooseOutlineColor pow textColor =
    (if B32.ltb (B32.lit 5 1)
          (B32.div (B32.max (luminosity pow textColor) (luminosity pow darkOutline))
                   (B32.min (luminosity pow textColor) (luminosity pow darkOutline)))
     then darkOutline else lightOutline)
  /\ luminosity pow textColor =
       B64.to_float
         (B64.add
            (B64.add
               (B64.add (B64.lit 5 100)
                  (B64.mul (B64.of_float (B32.lit 2126 10000))
                           (pow (B64.of_float (fx textColor)) (B64.lit 22 10))))
               (B64.mul (B64.of_float (B32.lit 7152 10000))
                        (pow (B64.of_float (fy textColor)) (B64.lit 22 10))))
            (B64.mul (B64.of_float (B32.lit 722 10000))
                     (pow (B64.of_float (fz textColor)) (B64.lit 22 10))))
  /\ ChooseOutlineColor pow darkOutline = lightOutline.
Proof.
  split; [reflexivity|]. split; [reflexivity|].
  unfold ChooseOutlineColor, darkLuminosity, B32.max, B32.min.
  rewrite std_max_same, std_min_same, B32_div_self_not_above_5. reflexivity.
Qed.
End OutlineProperties.

(** ** The batch accumulator *)

Section BatchProperties.
Variable pow : double -> double -> double.
Variable float4_eq : float4 -> float4 -> bool.
Variable threadSafety : bool.

Local Abbreviation SetTextColor' := (SetTextColor float4_eq threadSafety).
Local Abbreviation SetOutlineColor' := (SetOutlineColor pow float4_eq threadSafety).
Local Abbreviation Begin' := (Begin pow float4_eq threadSafety).
Local Abbreviation End' := (End_ threadSafety).
Local Abbreviation batch_ok' := (batch_ok float4_eq).
Local Abbreviation strips_ok' := (strips_ok float4_eq).
Local Abbreviation distinct' := (distinct_neighbours float4_eq).

(** *** Usage errors *)

Lemma lock_unlock_log msg s :
  unlock threadSafety (LOG_L_ERROR msg (lock threadSafety s)) = LOG_L_ERROR msg s.
Proof.
  unfold lock, unlock. destruct threadSafety; [|reflexivity].
  destruct s. unfold LOG_L_ERROR, set_vaMutex. simpl. f_equal. lia.
Qed.

Lemma inBeginEnd_lock s : inBeginEnd (lock threadSafety s) = inBeginEnd s.
Proof. unfold lock. now destruct threadSafety. Qed.

Lemma Begin_in_session immediate resetColors s :
  inBeginEnd s = true ->
  Begin' immediate resetColors s = LOG_L_ERROR "called Begin() multiple times" s.
Proof.
  intros Hin. unfold Begin. rewrite inBeginEnd_lock, Hin. apply lock_unlock_log.
Qed.

Lemma End_outside_session inListCompile s :
  inBeginEnd s = false ->
  End' inListCompile s = LOG_L_ERROR "called End() without Begin()" s.
Proof. intros Hin. unfold End_. now rewrite Hin. Qed.

(** C5. [Begin] during a session and [End] outside of one add a message to
    the error log and change nothing else: the two vertex collections, the
    two strip sequences, both colours, the session flag and the trace of
    graphics calls (so that nothing is drawn) are as before.  Both return. *)
Theorem Begin_End_usage_errors (s : CglFont) (immediate resetColors inListCompile : bool) :
  let s' := if inBeginEnd s then Begin' immediate resetColors s
            else End' inListCompile s in
  s' = LOG_L_ERROR (if inBeginEnd s then "called Begin() multiple times"
                    else "called End() without Begin()")%string s
  /\ errorLog s' <> errorLog s
  /\ va s' = va s /\ va2 s' = va2 s
  /\ stripTextColors s' = stripTextColors s
  /\ stripOutlineColors s' = stripOutlineColors s
  /\ textColor s' = textColor s /\ outlineColor s' = outlineColor s
  /\ inBeginEnd s' = inBeginEnd s
  /\ vaMutex s' = vaMutex s
  /\ glCalls s' = glCalls s.
Proof.
  intros s'.
  assert (E : s' = LOG_L_ERROR (if inBeginEnd s then "called Begin() multiple times"
                                else "called End() without Begin()")%string s).
  { subst s'. destruct (inBeginEnd s) eqn:Hin.
    - now apply Begin_in_session.
    - now apply End_outside_session. }
  split; [exact E|]. rewrite E. simpl. repeat split.
  intros H. apply (f_equal (@length _)) in H. rewrite length_app in H. simpl in H. lia.
Qed.

(** *** Null colours *)

Lemma textColor_SetTextColor color s :
  textColor (SetTextColor' color s) = match color with None => white | Some c => c end.
Proof.
  unfold SetTextColor, lock, unlock.
  destruct threadSafety; simpl; reflexivity.
Qed.

Lemma outlineColor_SetOutlineColor color s :
  outlineColor (SetOutlineColor' color s)
  = match color with None => ChooseOutlineColor pow (textColor s) | Some c => c end.
Proof.
  unfold SetOutlineColor, lock, unlock.
  destruct threadSafety; simpl; reflexivity.
Qed.

(** C10. [SetTextColor(nullptr)] sets the text colour to the white
    (1.0, 1.0, 1.0, 0.95), and [SetOutlineColor(nullptr)] sets the outline
    colour to [ChooseOutlineColor] of the current text colour, inside a
    session and outside of one. *)
Theorem null_color_defaults (s : CglFont) :
  textColor (SetTextColor' None s) = white
  /\ white = mkfloat4 (B32.of_Z 1) (B32.of_Z 1) (B32.of_Z 1) (B32.lit 95 100)
  /\ outlineColor (SetOutlineColor' None s) = ChooseOutlineColor pow (textColor s)
  /\ inBeginEnd (SetTextColor' None s) = inBeginEnd s
  /\ inBeginEnd (SetOutlineColor' None s) = inBeginEnd s.
Proof.
  split; [apply textColor_SetTextColor|]. split; [reflexivity|].
  split; [apply outlineColor_SetOutlineColor|].
  unfold SetTextColor, SetOutlineColor, lock, unlock.
  split; destruct threadSafety; simpl;
    repeat match goal with |- context [if ?b then _ else _] => destruct b end;
    reflexivity.
Qed.

(** *** Strips *)

Lemma distinct_snoc l c d :
  distinct' l -> l <> [] -> float4_eq c (last l d) = false -> distinct' (l ++ [c]).
Proof.
  induction l as [|a l IH]; [congruence|]. intros Hd _ Hc.
  destruct l as [|b l].
  - simpl in *. auto.
  - change ((a :: b :: l) ++ [c]) with (a :: (b :: l) ++ [c]).
    destruct Hd as [Hab Hd]. split; [exact Hab|].
    apply IH; [assumption|discriminate|exact Hc].
Qed.

Lemma last_default {A} (l : list A) (d d' : A) : l <> [] -> last l d = last l d'.
Proof.
  induction l as [|a [|b l] IH]; intros H; [congruence|reflexivity|].
  apply IH. discriminate.
Qed.

Lemma length_one {A} (l : list A) : length l = 1 -> exists x, l = [x].
Proof. destruct l as [|x [|y l]]; simpl; try discriminate. eauto. Qed.

Lemma strips_ok_next cur a strips c :
  strips_ok' true cur a strips ->
  float4_eq c cur = false ->
  strips_ok' true c a (next_strips a strips c) /\
  next_strips a strips c =
    (if drawIndex a =? 0 then set_back strips c else strips ++ [c]).
Proof.
  intros (Hd & Hs) Hc. destruct (Hs eq_refl) as (Hne & Hlast & Hone).
  unfold next_strips.
  replace (isEmpty strips) with false by (destruct strips; [congruence|reflexivity]).
  rewrite andb_true_r. split; [|reflexivity].
  destruct (drawIndex a =? 0) eqn:Hz.
  - apply Nat.eqb_eq in Hz. destruct (length_one _ (Hone Hz)) as [x ->].
    repeat split; simpl; auto; discriminate.
  - apply Nat.eqb_neq in Hz. split.
    + apply distinct_snoc with (d := cur); auto.
    + intros _. repeat split.
      * now destruct strips.
      * intros x Hx. now rewrite last_last.
      * intros; contradiction.
Qed.

(** The fields after [SetTextColor] and [SetOutlineColor] with a colour. *)
Lemma SetTextColor_fields c s :
  let s' := SetTextColor' (Some c) s in
  let changed := inBeginEnd s && negb (float4_eq c (textColor s)) in
  textColor s' = c /\ outlineColor s' = outlineColor s /\
  inBeginEnd s' = inBeginEnd s /\ va2 s' = va2 s /\
  stripOutlineColors s' = stripOutlineColors s /\
  stripTextColors s' =
    (if changed then next_strips (va s) (stripTextColors s) c else stripTextColors s) /\
  drawIndex (va s') = drawIndex (va s) /\
  va s' = (if changed && negb ((drawIndex (va s) =? 0) && negb (isEmpty (stripTextColors s)))
           then EndStrip (va s) else va s).
Proof.
  unfold SetTextColor, next_strips, lock, unlock, drawIndex.
  destruct s as [ib ao sc tc oc a a2 st so mx el gc].
  destruct threadSafety, ib; simpl;
    destruct (float4_eq c tc); simpl;
    destruct (length (drawArray a) =? 0); simpl;
    destruct (isEmpty st); simpl; repeat split.
Qed.

Lemma SetOutlineColor_fields c s :
  let s' := SetOutlineColor' (Some c) s in
  let changed := inBeginEnd s && negb (float4_eq c (outlineColor s)) in
  outlineColor s' = c /\ textColor s' = textColor s /\
  inBeginEnd s' = inBeginEnd s /\ va s' = va s /\
  stripTextColors s' = stripTextColors s /\
  stripOutlineColors s' =
    (if changed then next_strips (va2 s) (stripOutlineColors s) c
     else stripOutlineColors s) /\
  drawIndex (va2 s') = drawIndex (va2 s) /\
  va2 s' = (if changed && negb ((drawIndex (va2 s) =? 0) && negb (isEmpty (stripOutlineColors s)))
            then EndStrip (va2 s) else va2 s).
Proof.
  unfold SetOutlineColor, next_strips, lock, unlock, drawIndex.
  destruct s as [ib ao sc tc oc a a2 st so mx el gc].
  destruct threadSafety, ib; simpl;
    destruct (float4_eq c oc); simpl;
    destruct (length (drawArray a2) =? 0); simpl;
    destruct (isEmpty so); simpl; repeat split.
Qed.

Lemma strips_ok_drawIndex active cur a a' strips :
  drawIndex a' = drawIndex a -> strips_ok' active cur a strips ->
  strips_ok' active cur a' strips.
Proof. unfold strips_ok. intros ->. auto. Qed.

(** One role: a colour change keeps the strips well formed. *)
Lemma strips_ok_set active cur a a' strips c :
  eq_euclidean float4_eq ->
  drawIndex a' = drawIndex a ->
  strips_ok' active cur a strips ->
  strips_ok' active c a'
    (if active && negb (float4_eq c cur) then next_strips a strips c else strips).
Proof.
  intros Heq Ha Hok. destruct active; simpl.
  - destruct (float4_eq c cur) eqn:Hc; simpl.
    + destruct Hok as (Hd & Hs). split; [assumption|]. intros _.
      destruct (Hs eq_refl) as (Hne & Hlast & Hone).
      rewrite Ha. repeat split; auto.
      intros x Hx. rewrite (last_default c cur Hne). apply Hlast.
      destruct (float4_eq x cur) eqn:Hxc; [|reflexivity].
      rewrite (Heq x c cur Hxc Hc) in Hx. discriminate.
    + apply strips_ok_drawIndex with (a := a); [assumption|].
      now apply strips_ok_next with (cur := cur).
  - destruct Hok as (Hd & _). split; [assumption|discriminate].
Qed.

Section Invariant.
Hypothesis float4_eq_euclidean : eq_euclidean float4_eq.

Lemma batch_ok_SetTextColor c s :
  batch_ok' s -> batch_ok' (SetTextColor' (Some c) s).
Proof.
  intros [Ht Ho].
  destruct (SetTextColor_fields c s) as (E1 & E2 & E3 & E4 & E5 & E6 & E7 & _).
  unfold batch_ok. rewrite E1, E2, E3, E4, E5, E6. split; [|assumption].
  now apply strips_ok_set.
Qed.

Lemma batch_ok_SetOutlineColor c s :
  batch_ok' s -> batch_ok' (SetOutlineColor' (Some c) s).
Proof.
  intros [Ht Ho].
  destruct (SetOutlineColor_fields c s) as (E1 & E2 & E3 & E4 & E5 & E6 & E7 & _).
  unfold batch_ok. rewrite E1, E2, E3, E4, E5, E6. split; [assumption|].
  now apply strips_ok_set.
Qed.

Lemma strips_ok_seed c a : strips_ok' true c a [c].
Proof. repeat split; simpl; auto; discriminate. Qed.

Lemma batch_ok_Begin immediate resetColors s :
  batch_ok' s -> batch_ok' (Begin' immediate resetColors s).
Proof.
  intros Hok. destruct (inBeginEnd s) eqn:Hin.
  - rewrite Begin_in_session by assumption. exact Hok.
  - unfold Begin. rewrite inBeginEnd_lock, Hin.
    split; cbn; apply strips_ok_seed.
Qed.

Lemma batch_ok_End inListCompile s :
  batch_ok' s -> batch_ok' (End' inListCompile s).
Proof.
  intros [[Ht _] [Ho _]]. unfold End_, unlock.
  destruct s as [ib ao sc tc oc a a2 st so mx el gc]. simpl in *.
  destruct ib; simpl; [|split; split; auto; discriminate].
  repeat match goal with |- context [if ?b then _ else _] => destruct b; simpl end;
    split; split; auto; discriminate.
Qed.

Lemma strips_ok_AddVertex active cur a strips v :
  strips_ok' active cur a strips ->
  strips_ok' active cur (AddVertexQ2dT v a) strips.
Proof.
  intros (Hd & Hs). split; [assumption|]. intros Ha.
  destruct (Hs Ha) as (Hne & Hlast & _). repeat split; auto.
  unfold drawIndex, AddVertexQ2dT. simpl. rewrite length_app. simpl. lia.
Qed.

Lemma batch_ok_perform s o : batch_ok' s -> batch_ok' (perform pow float4_eq threadSafety s o).
Proof.
  intros Hok. destruct o as [i r|b|[c|]|[c|]|v|v]; simpl.
  - now apply batch_ok_Begin.
  - now apply batch_ok_End.
  - now apply batch_ok_SetTextColor.
  - now apply (batch_ok_SetTextColor white).
  - now apply batch_ok_SetOutlineColor.
  - now apply (batch_ok_SetOutlineColor (ChooseOutlineColor pow (textColor s))).
  - destruct Hok as [Ht Ho]. split; [|exact Ho]. now apply strips_ok_AddVertex.
  - destruct Hok as [Ht Ho]. split; [exact Ht|]. now apply strips_ok_AddVertex.
Qed.

(** In every state that a font reaches, the strips are well formed; in
    particular neighbouring strips have colours that differ. *)
Lemma batch_ok_run ops : batch_ok' (run pow float4_eq threadSafety ops).
Proof.
  unfold run. induction ops as [|o ops IH] using rev_ind.
  - split; split; simpl; auto; discriminate.
  - rewrite fold_left_app. simpl. now apply batch_ok_perform.
Qed.

End Invariant.

(** *** The strips under any [operator==] *)

Lemma length_set_back (l : list float4) (c : float4) :
  l <> [] -> length (set_back l c) = length l.
Proof.
  intros H. destruct (exists_last H) as (r & a & ->).
  unfold set_back. rewrite removelast_last, !length_app. reflexivity.
Qed.

Lemma strips_pending_next active a a' strips c :
  drawIndex a' = drawIndex a ->
  strips_pending active a strips ->
  strips_pending active a' (next_strips a strips c).
Proof.
  intros Hd H Ha. destruct (H Ha) as [Hne Hone]. unfold next_strips.
  assert (E : isEmpty strips = false) by (destruct strips; [congruence|reflexivity]).
  rewrite E, andb_true_r. destruct (Nat.eqb_spec (drawIndex a) 0) as [Hz|Hz].
  - split.
    + unfold set_back. intros H0. apply app_eq_nil in H0. destruct H0. discriminate.
    + intros _. rewrite length_set_back by assumption. auto.
  - split; [intros H0; apply app_eq_nil in H0; destruct H0; discriminate|].
    intros H0. congruence.
Qed.

Lemma strips_pending_same active a a' strips :
  drawIndex a' = drawIndex a ->
  strips_pending active a strips -> strips_pending active a' strips.
Proof. intros Hd H Ha. destruct (H Ha) as [Hne Hone]. split; [assumption|]. now rewrite Hd. Qed.

Lemma session_strips_SetTextColor c s :
  session_strips s -> session_strips (SetTextColor' (Some c) s).
Proof.
  intros [Ht Ho].
  destruct (SetTextColor_fields c s) as (E1 & E2 & E3 & E4 & E5 & E6 & E7 & _).
  unfold session_strips. rewrite E3, E4, E5, E6. split; [|assumption].
  destruct (inBeginEnd s && negb (float4_eq c (textColor s))).
  - now apply strips_pending_next.
  - now apply strips_pending_same with (a := va s).
Qed.

Lemma session_strips_SetOutlineColor c s :
  session_strips s -> session_strips (SetOutlineColor' (Some c) s).
Proof.
  intros [Ht Ho].
  destruct (SetOutlineColor_fields c s) as (E1 & E2 & E3 & E4 & E5 & E6 & E7 & _).
  unfold session_strips. rewrite E3, E4, E5, E6. split; [assumption|].
  destruct (inBeginEnd s && negb (float4_eq c (outlineColor s))).
  - now apply strips_pending_next.
  - now apply strips_pending_same with (a := va2 s).
Qed.

Lemma session_strips_perform s o :
  session_strips s -> session_strips (perform pow float4_eq threadSafety s o).
Proof.
  intros Hok. destruct o as [i r|b|[c|]|[c|]|v|v]; simpl.
  - destruct (inBeginEnd s) eqn:Hin.
    + rewrite Begin_in_session by assumption. exact Hok.
    + unfold Begin. rewrite inBeginEnd_lock, Hin.
      split; cbn; intros _; split; auto; discriminate.
  - destruct (inBeginEnd s) eqn:Hin.
    + split; intros Ha; exfalso; revert Ha; unfold End_, unlock; rewrite Hin;
        destruct s as [ib ao sc tc oc a a2 st so mx el gc]; simpl;
        repeat match goal with |- context [if ?b then _ else _] => destruct b; simpl end;
        discriminate.
    + rewrite End_outside_session by assumption. exact Hok.
  - now apply session_strips_SetTextColor.
  - now apply (session_strips_SetTextColor white).
  - now apply session_strips_SetOutlineColor.
  - now apply (session_strips_SetOutlineColor (ChooseOutlineColor pow (textColor s))).
  - destruct Hok as [Ht Ho]. split; [|exact Ho].
    intros Ha. destruct (Ht Ha) as [Hne _]. split; [assumption|].
    unfold drawIndex, AddVertexQ2dT. simpl. rewrite length_app. simpl. lia.
  - destruct Hok as [Ht Ho]. split; [exact Ht|].
    intros Ha. destruct (Ho Ha) as [Hne _]. split; [assumption|].
    unfold drawIndex, AddVertexQ2dT. simpl. rewrite length_app. simpl. lia.
Qed.

(** In every state that a font reaches, under any [operator==], a session
    has its strips. *)
Lemma session_strips_run ops : session_strips (run pow float4_eq threadSafety ops).
Proof.
  unfold run. induction ops as [|o ops IH] using rev_ind.
  - split; intros H; discriminate.
  - rewrite fold_left_app. simpl. now apply session_strips_perform.
Qed.

(** C6, as amended. During a session, in a state in which each strip
    sequence has a strip and a single one while its collection is empty (as
    in every state that a font reaches, [session_strips_run]),
    [SetTextColor] and [SetOutlineColor] keep it so.  A colour that
    [operator==] equates with the current one leaves the strip sequence and
    the collection as they are; a different colour replaces the colour of
    the single pending strip while the collection is empty, and otherwise
    closes the strip ([EndStrip]) and appends a new one; called twice with
    one colour on an empty collection, they leave one strip.  Neighbouring
    strips keep colours that differ provided [operator==] equates two
    colours that it equates with a third. *)
Theorem SetColor_strips (s : CglFont) (c : float4) :
  inBeginEnd s = true ->
  session_strips s ->
  let t := SetTextColor' (Some c) s in
  let o := SetOutlineColor' (Some c) s in
  session_strips t /\ session_strips o
  /\ stripTextColors t =
       (if float4_eq c (textColor s) then stripTextColors s
        else if drawIndex (va s) =? 0 then set_back (stripTextColors s) c
        else stripTextColors s ++ [c])
  /\ va t =
       (if float4_eq c (textColor s) then va s
        else if drawIndex (va s) =? 0 then va s else EndStrip (va s))
  /\ stripOutlineColors o =
       (if float4_eq c (outlineColor s) then stripOutlineColors s
        else if drawIndex (va2 s) =? 0 then set_back (stripOutlineColors s) c
        else stripOutlineColors s ++ [c])
  /\ va2 o =
       (if float4_eq c (outlineColor s) then va2 s
        else if drawIndex (va2 s) =? 0 then va2 s else EndStrip (va2 s))
  /\ (drawIndex (va s) = 0 ->
      length (stripTextColors (SetTextColor' (Some c) t)) = 1)
  /\ (drawIndex (va2 s) = 0 ->
      length (stripOutlineColors (SetOutlineColor' (Some c) o)) = 1)
  /\ (eq_euclidean float4_eq -> batch_ok' s -> batch_ok' t /\ batch_ok' o).
Proof.
  intros Hin Hok t o.
  pose proof (session_strips_SetTextColor c Hok) as Hokt.
  pose proof (session_strips_SetOutlineColor c Hok) as Hoko.
  destruct (SetTextColor_fields c s) as (T1 & T2 & T3 & T4 & T5 & T6 & T7 & T8).
  destruct (SetOutlineColor_fields c s) as (O1 & O2 & O3 & O4 & O5 & O6 & O7 & O8).
  destruct Hok as [Hst Hso].
  destruct (Hst Hin) as (Hnet & _). destruct (Hso Hin) as (Hneo & _).
  assert (Et : isEmpty (stripTextColors s) = false)
    by (destruct (stripTextColors s); [congruence|reflexivity]).
  assert (Eo : isEmpty (stripOutlineColors s) = false)
    by (destruct (stripOutlineColors s); [congruence|reflexivity]).
  fold t in T1, T2, T3, T4, T5, T6, T7, T8, Hokt.
  fold o in O1, O2, O3, O4, O5, O6, O7, O8, Hoko.
  unfold next_strips in T6, O6.
  rewrite Hin, Et in T6, T8. rewrite Hin, Eo in O6, O8.
  rewrite andb_true_r in T6, T8, O6, O8. simpl in T6, T8, O6, O8.
  split; [exact Hokt|]. split; [exact Hoko|].
  split; [rewrite T6; now destruct (float4_eq c (textColor s))|].
  split; [rewrite T8; destruct (float4_eq c (textColor s)); simpl; auto;
          now destruct (drawIndex (va s) =? 0)|].
  split; [rewrite O6; now destruct (float4_eq c (outlineColor s))|].
  split; [rewrite O8; destruct (float4_eq c (outlineColor s)); simpl; auto;
          now destruct (drawIndex (va2 s) =? 0)|].
  split; [|split].
  - intros Hz.
    pose proof (session_strips_SetTextColor c Hokt) as [H2 _].
    destruct (SetTextColor_fields c t) as (_ & _ & U3 & _ & _ & _ & U7 & _).
    rewrite U3, T3 in H2. destruct (H2 Hin) as (_ & Hone).
    apply Hone. now rewrite U7, T7.
  - intros Hz.
    pose proof (session_strips_SetOutlineColor c Hoko) as [_ H2].
    destruct (SetOutlineColor_fields c o) as (_ & _ & U3 & _ & _ & _ & U7 & _).
    rewrite U3, O3 in H2. destruct (H2 Hin) as (_ & Hone).
    apply Hone. now rewrite U7, O7.
  - intros Heu Hb. split.
    + now apply batch_ok_SetTextColor.
    + now apply batch_ok_SetOutlineColor.
Qed.
End BatchProperties.

(** ** SplitIntoLines *)

Lemma last_cons_default {A} (c : A) (r : list A) (x : A) : last (c :: r) x = last r c.
Proof.
  revert c x. induction r as [|b r IH]; intros c x; [reflexivity|].
  change (last (c :: b :: r) x) with (last (b :: r) x). now rewrite !IH.
Qed.

Lemma fold_back_assign (colorCodeStack : list u8string) :
  forall (lines : list u8string) (x : u8string),
    fold_left (fun ls color => back_assign ls color) colorCodeStack (lines ++ [x])
    = lines ++ [last colorCodeStack x].
Proof.
  induction colorCodeStack as [|c r IH]; intros lines x; [reflexivity|].
  cbn [fold_left]. unfold back_assign at 2. rewrite removelast_last, IH.
  now rewrite last_cons_default.
Qed.

Lemma SplitIntoLines_loop_returns CCI CRI text fuel :
  forall pos lines colorCodeStack,
    length text - pos <= fuel ->
    exists out, SplitIntoLines_loop CCI CRI fuel text pos lines colorCodeStack = Some out.
Proof.
  induction fuel as [|fuel IH]; intros pos lines stack Hfuel.
  - simpl. replace (pos <? length text) with false by (symmetry; apply Nat.ltb_ge; lia).
    eauto.
  - simpl. destruct (pos <? length text) eqn:Hlt; eauto.
    repeat match goal with
           | |- context [if ?b then _ else _] => destruct b
           end; apply IH; lia.
Qed.

(** [SplitIntoLines] returns on every text. *)
Lemma SplitIntoLines_returns CCI CRI text :
  exists out, SplitIntoLines CCI CRI text = Some out.
Proof.
  destruct text as [|c r]; [now exists []|].
  apply SplitIntoLines_loop_returns. lia.
Qed.

(** C1. At a line break the new line does not receive the whole stack of
    open colour-set sequences: the loop over the stack assigns each sequence
    to the line, so that the line starts with the topmost sequence alone.
    With two sequences open at the break, "<c1><c2>A\nB" is split into
    "<c1><c2>A" and "<c2>B", not "<c1><c2>B". *)
Theorem SplitIntoLines_keeps_top_only :
  (forall lines colorCodeStack,
      newline lines colorCodeStack = lines ++ [last colorCodeStack []])
  /\ SplitIntoLines Example.ColorCodeIndicator Example.ColorResetIndicator
       Example.text_two_colors
     = Some [Example.code1 ++ Example.code2 ++ [x41]; Example.code2 ++ [x42]]
  /\ Example.code2 ++ [x42] <> Example.code1 ++ Example.code2 ++ [x42].
Proof.
  split; [intros; apply fold_back_assign|].
  split; [reflexivity|discriminate].
Qed.

(** ** The concrete configuration *)

Lemma SFcompare_finite_Eq s1 m1 e1 s2 m2 e2 :
  SFcompare (S754_finite s1 m1 e1) (S754_finite s2 m2 e2) = Some Eq <->
  s1 = s2 /\ m1 = m2 /\ e1 = e2.
Proof.
  simpl. change (Pos.compare_cont Eq m1 m2) with (Pos.compare m1 m2).
  destruct s1, s2; simpl; destruct (Z.compare_spec e1 e2); subst;
    destruct (Pos.compare_spec m1 m2); subst; simpl;
    split; try discriminate; try (intros (? & ? & ?); congruence || lia);
    try reflexivity; auto;
    intros (_ & ? & ?); subst; lia.
Qed.

Lemma B32_eqb_finite sx mx ex sy my ey :
  SFeqb (S754_finite sx mx ex) (S754_finite sy my ey) = true <->
  S754_finite sx mx ex = S754_finite sy my ey.
Proof.
  unfold SFeqb.
  destruct (SFcompare (S754_finite sx mx ex) (S754_finite sy my ey)) as [[| |]|] eqn:E.
  - apply SFcompare_finite_Eq in E. destruct E as (-> & -> & ->). now split.
  - split; [discriminate|]. intros H. inversion H; subst.
    rewrite (proj2 (SFcompare_finite_Eq sy my ey sy my ey)) in E by auto. discriminate.
  - split; [discriminate|]. intros H. inversion H; subst.
    rewrite (proj2 (SFcompare_finite_Eq sy my ey sy my ey)) in E by auto. discriminate.
  - split; [discriminate|]. intros H. inversion H; subst.
    rewrite (proj2 (SFcompare_finite_Eq sy my ey sy my ey)) in E by auto. discriminate.
Qed.

Lemma B32_eqb_key (x y : float) :
  B32.eqb x y = true <-> B32_key x = B32_key y /\ B32_key x <> None.
Proof.
  unfold B32.eqb.
  destruct x as [sx|sx| |sx mx ex], y as [sy|sy| |sy my ey].
  16: { rewrite B32_eqb_finite. simpl. split.
        - intros H. split; [now rewrite H|discriminate].
        - intros [H _]. congruence. }
  all: try destruct sx; try destruct sy; simpl.
  all: split.
  all: try discriminate.
  all: try (intros _; split; [reflexivity|discriminate]).
  all: try reflexivity.
  all: try (intros [? ?]; congruence).
Qed.

Lemma B32_eqb_euclidean (a b c : float) :
  B32.eqb a c = true -> B32.eqb b c = true -> B32.eqb a b = true.
Proof.
  rewrite !B32_eqb_key. intros [Hac Ha] [Hbc Hb]. split; congruence.
Qed.

(** Exact comparison of colours satisfies the condition on [operator==]. *)
Lemma Example_float4_eq_euclidean : eq_euclidean Example.float4_eq.
Proof.
  intros a b c. unfold Example.float4_eq. rewrite !andb_true_iff.
  intros [[[A1 A2] A3] A4] [[[B1 B2] B3] B4].
  repeat split; eapply B32_eqb_euclidean; eassumption.
Qed.

(** The single-byte decoder satisfies the condition on the decoder. *)
Lemma Example_decoder_ok : decoder_ok Example.GetNextChar.
Proof.
  intros text idx Hlt. unfold Example.GetNextChar. simpl. split; [lia|reflexivity].
Qed.

(** ** The properties on the concrete configuration *)

Section Examples.
Import Example.

(** The scenario "A\x01\xFF\x00\x00B\nC": two lines, the second of which
    starts with the colour-set sequence, and the width of "AB". *)
Lemma scenario_SplitIntoLines :
  SplitIntoLines ColorCodeIndicator ColorResetIndicator text_scenario
  = Some [[x41; x01; xff; x00; x00; x42]; [x01; xff; x00; x00; x43]].
Proof. reflexivity. Qed.

Lemma scenario_GetTextNumLines :
  GetTextNumLines_ ColorCodeIndicator ColorResetIndicator text_scenario = Some 2.
Proof. reflexivity. Qed.

Lemma scenario_GetTextWidth :
  GetTextWidth_ ColorCodeIndicator ColorResetIndicator GetNextChar GetGlyph GetKerning
    text_scenario
  = Some (B32.add (advance (GetGlyph 65%N)) (advance (GetGlyph 66%N))).
Proof. reflexivity. Qed.

(** A single line keeps the smallest descender of its glyphs. *)
Lemma single_line_GetTextHeight :
  GetTextHeight_ ColorCodeIndicator ColorResetIndicator GetNextChar GetGlyph
    GetLineHeight GetDescender text_g
  = Some (B32.of_Z 7, B32.of_Z (-3), 1).
Proof. reflexivity. Qed.

(** C9 on "A<colour>B". *)
Lemma StripColorCodes_printables_idempotent_witness :
  well_formed ColorCodeIndicator ColorResetIndicator items_AcB /\
  StripColorCodes_ ColorCodeIndicator (render ColorCodeIndicator items_AcB)
  = Some (printables items_AcB) /\
  StripColorCodes_ ColorCodeIndicator (printables items_AcB) = Some (printables items_AcB).
Proof.
  assert (H : well_formed ColorCodeIndicator ColorResetIndicator items_AcB)
    by (repeat constructor).
  split; [exact H|].
  exact (@StripColorCodes_printables_idempotent
           ColorCodeIndicator ColorResetIndicator items_AcB H).
Defined.

(** C8 on "A\r\nB\n\r": four lines. *)
Lemma GetTextNumLines_counts_breaks_witness :
  no_control ColorCodeIndicator ColorResetIndicator text_breaks /\
  GetTextNumLines_ ColorCodeIndicator ColorResetIndicator text_breaks = Some 4.
Proof.
  assert (H : no_control ColorCodeIndicator ColorResetIndicator text_breaks)
    by (repeat constructor; discriminate).
  split; [exact H|].
  exact (@GetTextNumLines_counts_breaks
           ColorCodeIndicator ColorResetIndicator text_breaks H).
Defined.



(** C4 as amended, on the scenario: the lines "AB" and "C" have the widths
    13 and 5, and the width of the text is 13, the greatest of 0, 13 and
    5. *)
Lemma GetTextWidth_max_line_width_witness :
  decoder_ok GetNextChar /\
  exists ts,
    tokens ColorCodeIndicator ColorResetIndicator GetNextChar text_scenario = Some ts /\
    map (line_sum GetGlyph GetKerning) (glyph_lines ts) = [B32.of_Z 13; B32.of_Z 5] /\
    GetTextWidth_ ColorCodeIndicator ColorResetIndicator GetNextChar GetGlyph GetKerning
      text_scenario = Some (B32.of_Z 13) /\
    greatest_of (B32.of_Z 13) [B32.zero; B32.of_Z 13; B32.of_Z 5] /\
    GetTextWidth_ ColorCodeIndicator ColorResetIndicator GetNextChar GetGlyph GetKerning []
    = Some B32.zero.
Proof.
  split; [exact Example_decoder_ok|].
  destruct (@GetTextWidth_max_line_width ColorCodeIndicator ColorResetIndicator
              GetNextChar GetGlyph GetKerning text_scenario Example_decoder_ok)
    as (ts & Hts & Hw & Hg & He).
  assert (Hc : tokens ColorCodeIndicator ColorResetIndicator GetNextChar text_scenario
               = Some [TPrintable 65%N; TColor; TPrintable 66%N; TLineBreak; TPrintable 67%N])
    by reflexivity.
  rewrite Hc in Hts. injection Hts as <-.
  eexists. split; [reflexivity|]. split; [reflexivity|].
  split; [exact Hw|]. split; [|exact He].
  apply Hg. repeat constructor; discriminate.
Defined.

(** C4 as stated fails where a line has a negative width.  With glyphs of
    advance -1 the one line of "A" has the width -1, which is then the
    maximum over the lines, and [GetTextWidth_] returns 0: its running
    maximum starts at [maxw = 0.0f]. *)
Lemma GetTextWidth_max_line_width_counterexample :
  exists ts,
    tokens ColorCodeIndicator ColorResetIndicator GetNextChar Edge.text_A = Some ts /\
    map (line_sum Edge.GetGlyph GetKerning) (glyph_lines ts) = [B32.of_Z (-1)] /\
    greatest_of (B32.of_Z (-1)) [B32.of_Z (-1)] /\
    GetTextWidth_ ColorCodeIndicator ColorResetIndicator GetNextChar Edge.GetGlyph
      GetKerning Edge.text_A = Some B32.zero /\
    B32.zero <> B32.of_Z (-1) /\
    ~ greatest_of B32.zero [B32.of_Z (-1)].
Proof.
  exists [TPrintable 65%N]. split; [reflexivity|]. split; [reflexivity|].
  split; [split; [now left|repeat constructor]|].
  split; [reflexivity|]. split; [discriminate|].
  intros [[H|[]] _]. discriminate.
Qed.




(** C6 as amended, on a font after [Begin], with the colour red and exact
    comparison. *)
Lemma SetColor_strips_witness :
  inBeginEnd font_in_session = true /\
  session_strips font_in_session /\
  eq_euclidean float4_eq /\
  batch_ok float4_eq font_in_session /\
  stripTextColors (SetTextColor float4_eq false (Some red) font_in_session) = [red] /\
  length (stripTextColors
            (SetTextColor float4_eq false (Some red)
               (SetTextColor float4_eq false (Some red) font_in_session))) = 1 /\
  batch_ok float4_eq (SetTextColor float4_eq false (Some red) font_in_session).
Proof.
  pose proof (@session_strips_run pow float4_eq false [OpBegin false false]) as Hss.
  pose proof (@batch_ok_run pow float4_eq false Example_float4_eq_euclidean
                [OpBegin false false]) as Hok.
  assert (Hin : inBeginEnd font_in_session = true) by reflexivity.
  split; [exact Hin|]. split; [exact Hss|].
  split; [exact Example_float4_eq_euclidean|]. split; [exact Hok|].
  pose proof (@SetColor_strips pow float4_eq false font_in_session red Hin Hss) as H.
  cbv zeta in H. destruct H as (_ & _ & H3 & _ & _ & _ & H7 & _ & H9).
  split; [exact H3|]. split; [apply H7; reflexivity|].
  exact (proj1 (H9 Example_float4_eq_euclidean Hok)).
Defined.

(** C6 as stated fails for an [operator==] that compares within a
    tolerance.  In a session with one vertex the text colour has drifted
    from white to the shade 14/16 in two steps that the comparison takes for
    no change, so the strips are still the one white strip;
    [SetTextColor(white)] then differs from the current colour and appends a
    strip: white follows white. *)
Lemma SetColor_strips_counterexample :
  inBeginEnd Edge.font_drifted = true /\
  stripTextColors Edge.font_drifted = [white] /\
  distinct_neighbours Edge.float4_eq (stripTextColors Edge.font_drifted) /\
  stripTextColors (SetTextColor Edge.float4_eq false (Some white) Edge.font_drifted)
  = [white; white] /\
  ~ distinct_neighbours Edge.float4_eq
      (stripTextColors (SetTextColor Edge.float4_eq false (Some white) Edge.font_drifted)) /\
  ~ eq_euclidean Edge.float4_eq.
Proof.
  assert (E : stripTextColors
                (SetTextColor Edge.float4_eq false (Some white) Edge.font_drifted)
              = [white; white]) by (vm_compute; reflexivity).
  split; [reflexivity|]. split; [vm_compute; reflexivity|].
  split; [vm_compute; exact I|]. split; [exact E|]. split.
  - rewrite E. intros [H _]. vm_compute in H. discriminate.
  - intros H. specialize (H white (Edge.shade 14) (Edge.shade 15)).
    assert (H1 : Edge.float4_eq white (Edge.shade 15) = true) by (vm_compute; reflexivity).
    assert (H2 : Edge.float4_eq (Edge.shade 14) (Edge.shade 15) = true)
      by (vm_compute; reflexivity).
    specialize (H H1 H2). vm_compute in H. discriminate.
Qed.
End Examples.

(* ===================================================================== *)
(** * Part III: further properties                                         *)
(* ===================================================================== *)

(** ** The scanner of the render drivers *)

Section ScanPostconditions.
Variables CCI CRI : byte.

Lemma scan_body_none text colorReset st :
  scan_body CCI CRI text colorReset st = None ->
  printable_byte CCI CRI (text @ (pos st)) = true.
Proof.
  unfold scan_body, printable_byte. cbv zeta.
  destruct (Byte.eqb (text @ pos st) CCI).
  { destruct (pos st + 4 <? length text); discriminate. }
  destruct (Byte.eqb (text @ pos st) CRI); [discriminate|].
  destruct (Byte.eqb (text @ pos st) x0d); [discriminate|].
  destruct (Byte.eqb (text @ pos st) x0a); [discriminate|]. reflexivity.
Qed.

(** One iteration: the cursor moves by at least the number of line breaks
    counted, and the colour stays while [colorChanged] stays down. *)
Lemma scan_body_step text colorReset st st' :
  scan_body CCI CRI text colorReset st = Some st' ->
  pos st + (skippedLines st' - skippedLines st) <= pos st' /\
  skippedLines st <= skippedLines st' /\
  (colorChanged st' = false -> colorChanged st = false /\ color st' = color st).
Proof.
  unfold scan_body. intros H.
  repeat match type of H with
         | context [if ?b then _ else _] => destruct b
         end;
    inversion H; subst; simpl; repeat split; try lia; try discriminate; auto.
Qed.

Lemma SkipColorCodesAndNewLines_loop_post text colorReset fuel :
  forall st r st',
    SkipColorCodesAndNewLines_loop CCI CRI fuel text colorReset st = Some (r, st') ->
    pos st + (skippedLines st' - skippedLines st) <= pos st' /\
    skippedLines st <= skippedLines st' /\
    (colorChanged st' = false -> colorChanged st = false /\ color st' = color st) /\
    (if r then length text <= pos st'
     else pos st' < length text /\ printable_byte CCI CRI (text @ (pos st')) = true).
Proof.
  induction fuel as [|fuel IH]; intros st r st';
    rewrite SkipColorCodesAndNewLines_loop_eq;
    destruct (pos st <? length text) eqn:Hlt.
  - destruct (scan_body CCI CRI text colorReset st) eqn:Hb; [discriminate|].
    intros H. inversion H; subst. apply Nat.ltb_lt in Hlt.
    repeat split; auto; try lia. now apply scan_body_none with (colorReset := colorReset).
  - intros H. inversion H; subst. apply Nat.ltb_ge in Hlt. repeat split; auto; lia.
  - destruct (scan_body CCI CRI text colorReset st) as [st1|] eqn:Hb.
    + intros H. apply IH in H. apply scan_body_step in Hb.
      destruct H as (H1 & H2 & H3 & H4), Hb as (B1 & B2 & B3).
      split; [lia|]. split; [lia|]. split; [|exact H4].
      intros Hc. destruct (H3 Hc) as [Hc1 E]. destruct (B3 Hc1) as [Hc0 E'].
      split; congruence.
    + intros H. inversion H; subst. apply Nat.ltb_lt in Hlt.
      repeat split; auto; try lia. now apply scan_body_none with (colorReset := colorReset).
  - intros H. inversion H; subst. apply Nat.ltb_ge in Hlt. repeat split; auto; lia.
Qed.

Lemma SkipColorCodesAndNewLines_post (text : u8string) (pos0 : nat)
    (color0 colorReset : float4) :
  exists r st,
    SkipColorCodesAndNewLines CCI CRI text pos0 color0 colorReset = Some (r, st) /\
    pos0 + skippedLines st <= pos st /\
    (colorChanged st = false -> color st = color0) /\
    (if r then length text <= pos st
     else pos st < length text /\ printable_byte CCI CRI (text @ (pos st)) = true).
Proof.
  destruct (SkipColorCodesAndNewLines_returns CCI CRI text pos0 color0 colorReset)
    as [[r st] H].
  exists r, st. split; [exact H|].
  apply SkipColorCodesAndNewLines_loop_post in H. simpl in H.
  destruct H as (H1 & H2 & H3 & H4). repeat split; auto; try lia.
  intros Hc. now destruct (H3 Hc).
Qed.

(** X1. What a caller of [SkipColorCodesAndNewLines] may rely on: the call
    returns; the cursor does not move backwards and passes at least one byte
    for each line break counted; when the result is [false] the cursor stands
    inside the text on a byte that is none of the four control bytes, and
    when it is [true] the cursor is at or beyond the end; and the colour is
    the one passed in unless [colorChanged] is raised. *)
Theorem SkipColorCodesAndNewLines_postcondition (text : u8string) (pos0 : nat)
    (color0 colorReset : float4) :
  exists r st,
    SkipColorCodesAndNewLines CCI CRI text pos0 color0 colorReset = Some (r, st) /\
    pos0 + skippedLines st <= pos st /\
    (colorChanged st = false -> color st = color0) /\
    (if r then length text <= pos st
     else pos st < length text /\ printable_byte CCI CRI (text @ (pos st)) = true).
Proof. apply SkipColorCodesAndNewLines_post. Qed.
End ScanPostconditions.

(** ** StripColorCodes on any text *)

Section StripAnyText.
Variable CCI : byte.

Lemma StripColorCodes_loop_bound text fuel :
  forall i nocolor,
    length text - i <= fuel ->
    Forall (fun b => b <> CCI) nocolor ->
    exists out, StripColorCodes_loop CCI fuel text i nocolor = Some out /\
                Forall (fun b => b <> CCI) out /\
                length out <= length nocolor + (length text - i).
Proof.
  induction fuel as [|fuel IH]; intros i nocolor Hfuel Hacc;
    rewrite StripColorCodes_loop_eq;
    destruct (i <? length text) eqn:Hlt;
    try (exists nocolor; repeat split; auto; lia);
    apply Nat.ltb_lt in Hlt; [lia|].
  destruct (Byte.eqb (text @ i) CCI) eqn:Hc.
  - destruct (IH (i + 3 + 1) nocolor) as (out & -> & Hout & Hlen); [lia|assumption|].
    exists out. repeat split; auto. lia.
  - destruct (IH (i + 1) (nocolor ++ [text @ i])) as (out & -> & Hout & Hlen); [lia| |].
    + apply Forall_app. split; [assumption|].
      constructor; [|constructor]. intros E. rewrite E, byte_eqb_refl in Hc. discriminate.
    + exists out. repeat split; auto. rewrite length_app in Hlen. simpl in Hlen. lia.
Qed.

(** X2. On every text, truncated colour-set sequences included,
    [StripColorCodes_] returns a text that is no longer than its argument and
    holds no indicator byte, and that it returns unchanged when it is applied
    to it again. *)
Theorem StripColorCodes_any_text (text : u8string) :
  exists out,
    StripColorCodes_ CCI text = Some out /\
    Forall (fun b => b <> CCI) out /\
    length out <= length text /\
    StripColorCodes_ CCI out = Some out.
Proof.
  destruct (@StripColorCodes_loop_bound text (length text) 0 []) as (out & H & Hout & Hlen);
    [lia|constructor|].
  exists out. repeat split; auto.
  - simpl in Hlen. lia.
  - now apply StripColorCodes_plain.
Qed.
End StripAnyText.

(** ** Line counting and line splitting on texts with colour codes *)

Section LinesWithCodes.
Variables CCI CRI : byte.

Lemma leading_codes_split items :
  complete_codes CCI items ->
  exists codes rest,
    render CCI items = codes ++ render CCI rest /\
    length codes = 4 * leading_codes items /\
    item_breaks CRI items = item_breaks CRI rest /\
    complete_codes CCI rest.
Proof.
  induction 1 as [|it items Hit Hc IH].
  - exists [], []. repeat split; constructor.
  - destruct it as [b|r g b].
    + exists [], (Printable b :: items). repeat split; auto. now constructor.
    + destruct IH as (codes & rest & E & L & B & C).
      exists ([CCI; r; g; b] ++ codes), rest. repeat split; auto.
      * simpl. now rewrite E.
      * simpl in *. lia.
Qed.

Lemma SkipColorCodes_loop_items items :
  complete_codes CCI items ->
  forall fuel pre,
    leading_codes items <= fuel ->
    SkipColorCodes_loop CCI fuel (pre ++ render CCI items) (length pre)
    = Some (length pre + 4 * leading_codes items).
Proof.
  induction 1 as [|it items Hit Hc IH]; intros fuel pre Hfuel;
    rewrite SkipColorCodes_loop_eq.
  - simpl. rewrite app_nil_r, Nat.ltb_irrefl. simpl. f_equal. lia.
  - destruct it as [b|r g b]; simpl in Hfuel |- *.
    + rewrite at_app, (byte_eqb_neq Hit), andb_false_r. f_equal. lia.
    + replace (length pre <? length (pre ++ CCI :: r :: g :: b :: render CCI items))
        with true by (symmetry; apply Nat.ltb_lt; len).
      rewrite at_app, byte_eqb_refl. cbn [andb].
      destruct fuel as [|fuel]; [lia|].
      change (pre ++ CCI :: r :: g :: b :: render CCI items)
        with (pre ++ [CCI; r; g; b] ++ render CCI items).
      rewrite app_assoc.
      replace (length pre + 4) with (length (pre ++ [CCI; r; g; b])) by len.
      rewrite IH by lia. f_equal. len.
Qed.

Lemma leading_codes_length items : 4 * leading_codes items <= length (render CCI items).
Proof.
  induction items as [|[b|r g b] items IH]; simpl; lia.
Qed.

(** From the start of a run of colour-set sequences [SkipColorCodes] goes to
    its end. *)
Lemma SkipColorCodes_items items pre :
  complete_codes CCI items ->
  SkipColorCodes CCI (pre ++ render CCI items) (length pre)
  = Some (length pre + 4 * leading_codes items).
Proof.
  intros Hc. unfold SkipColorCodes.
  pose proof (leading_codes_length items) as L.
  rewrite SkipColorCodes_loop_items by (auto; len).
  f_equal. len.
Qed.

Lemma GetTextNumLines_loop_items fuel :
  CCI <> x0a ->
  forall items pre lines,
    complete_codes CCI items ->
    length (render CCI items) <= fuel ->
    GetTextNumLines_loop CCI CRI fuel (pre ++ render CCI items) (length pre) lines
    = Some (lines + item_breaks CRI items).
Proof.
  intros Hlf. induction fuel as [|fuel IH]; intros items pre lines Hc Hfuel;
    rewrite GetTextNumLines_loop_eq.
  - destruct items as [|[b|r g b] items]; simpl in Hfuel; try lia.
    simpl. rewrite app_nil_r, Nat.ltb_irrefl. f_equal. lia.
  - destruct items as [|it items].
    { simpl. rewrite app_nil_r, Nat.ltb_irrefl. f_equal. lia. }
    inversion Hc as [|? ? Hit Hitems]; subst. cbv zeta.
    destruct it as [c|r g b].
    + simpl render. simpl in Hfuel.
      replace (length pre <? length (pre ++ c :: render CCI items)) with true
        by (symmetry; apply Nat.ltb_lt; len).
      rewrite at_app, (byte_eqb_neq Hit). simpl item_breaks.
      destruct (Byte.eqb c CRI).
      { rewrite snoc_app.
        replace (length pre + 1) with (length (pre ++ [c])) by len.
        now rewrite IH by (auto; lia). }
      destruct (Byte.eqb c x0d).
      * destruct items as [|[c'|r g b] items'].
        -- simpl. replace (length pre + 1 <? length (pre ++ [c])) with false
             by (symmetry; apply Nat.ltb_ge; len).
           cbn [andb]. rewrite Nat.add_0_r, snoc_app.
           replace (length pre + 1) with (length (pre ++ [c])) by len.
           rewrite (IH [] (pre ++ [c])) by (simpl; auto; lia).
           simpl. f_equal. lia.
        -- simpl render. simpl in Hfuel.
           replace (length pre + 1 <? length (pre ++ c :: c' :: render CCI items'))
             with true by (symmetry; apply Nat.ltb_lt; len).
           rewrite at_app_next. cbn [andb].
           inversion Hitems as [|? ? Hc' Hitems']; subst.
           destruct (Byte.eqb c' x0a).
           ++ change (pre ++ c :: c' :: render CCI items')
                with (pre ++ [c; c'] ++ render CCI items').
              rewrite app_assoc.
              replace (length pre + 1 + 1) with (length (pre ++ [c; c'])) by len.
              rewrite IH by (auto; lia). f_equal. lia.
           ++ rewrite Nat.add_0_r, snoc_app.
              replace (length pre + 1) with (length (pre ++ [c])) by len.
              rewrite (IH (Printable c' :: items')) by (simpl; auto; lia).
              f_equal. lia.
        -- simpl render. simpl in Hfuel.
           replace (length pre + 1 <? length (pre ++ c :: CCI :: r :: g :: b :: render CCI items'))
             with true by (symmetry; apply Nat.ltb_lt; len).
           rewrite at_app_next, (byte_eqb_neq Hlf). cbn [andb].
           rewrite Nat.add_0_r, snoc_app.
           replace (length pre + 1) with (length (pre ++ [c])) by len.
           rewrite (IH (ColorSet r g b :: items')) by (simpl; auto; lia).
           f_equal. lia.
      * rewrite snoc_app.
        replace (length pre + 1) with (length (pre ++ [c])) by len.
        destruct (Byte.eqb c x0a); rewrite IH by (auto; lia); f_equal; lia.
    + replace (length pre <? length (pre ++ render CCI (ColorSet r g b :: items))) with true
        by (symmetry; apply Nat.ltb_lt; len).
      replace ((pre ++ render CCI (ColorSet r g b :: items)) @ length pre) with CCI
        by (symmetry; apply at_app).
      rewrite byte_eqb_refl, SkipColorCodes_items by assumption.
      destruct (leading_codes_split Hc) as (codes & rest & E & L & B & C).
      rewrite E, B, app_assoc.
      assert (Hk : 1 <= leading_codes (ColorSet r g b :: items)) by (simpl; lia).
      replace (length pre + 4 * leading_codes (ColorSet r g b :: items) - 1 + 1)
        with (length (pre ++ codes)) by len.
      apply IH; [assumption|].
      apply (f_equal (@length _)) in E. rewrite length_app in E. lia.
Qed.

Lemma back_append_length (lines : list u8string) s :
  lines <> [] -> length (back_append lines s) = length lines /\ back_append lines s <> [].
Proof.
  intros H. unfold back_append. split.
  - pose proof (f_equal (@length _) (app_removelast_last [] H)) as E.
    rewrite length_app in *. simpl in *. symmetry. exact E.
  - now destruct (removelast lines).
Qed.

Lemma newline_length (lines stack : list u8string) :
  length (newline lines stack) = length lines + 1 /\ newline lines stack <> [].
Proof.
  unfold newline. rewrite fold_back_assign. split.
  - now rewrite length_app.
  - now destruct lines.
Qed.

Lemma SplitIntoLines_loop_items fuel :
  CCI <> x0a ->
  forall items pre lines stack,
    complete_codes CCI items ->
    lines <> [] ->
    length (render CCI items) <= fuel ->
    exists out,
      SplitIntoLines_loop CCI CRI fuel (pre ++ render CCI items) (length pre) lines stack
      = Some out /\
      length out = length lines + item_breaks CRI items.
Proof.
  intros Hlf. induction fuel as [|fuel IH]; intros items pre lines stack Hc Hne Hfuel.
  - destruct items as [|[b|r g b] items]; simpl in Hfuel; try lia.
    simpl. rewrite app_nil_r, Nat.ltb_irrefl. eauto.
  - destruct items as [|it items].
    { simpl. rewrite app_nil_r, Nat.ltb_irrefl. eauto. }
    inversion Hc as [|? ? Hit Hitems]; subst.
    cbn [SplitIntoLines_loop].
    destruct it as [c|r g b].
    + simpl render. simpl in Hfuel.
      replace (length pre <? length (pre ++ c :: render CCI items)) with true
        by (symmetry; apply Nat.ltb_lt; len).
      rewrite at_app, (byte_eqb_neq Hit). simpl item_breaks.
      destruct (back_append_length [c] Hne) as [La Na].
      destruct (newline_length lines stack) as [Ln Nn].
      destruct (Byte.eqb c CRI).
      { rewrite snoc_app.
        replace (length pre + 1) with (length (pre ++ [c])) by len.
        destruct (IH items (pre ++ [c]) (back_append lines [c]) (removelast stack))
          as (out & Ho & Hout); auto; try lia.
        exists out. split; [exact Ho|lia]. }
      destruct (Byte.eqb c x0d).
      * destruct items as [|[c'|r g b] items'].
        -- simpl. replace (length pre + 1 <? length (pre ++ [c])) with false
             by (symmetry; apply Nat.ltb_ge; len).
           cbn [andb]. rewrite Nat.add_0_r, snoc_app.
           replace (length pre + 1) with (length (pre ++ [c])) by len.
           destruct (IH [] (pre ++ [c]) (newline lines stack) stack)
             as (out & Ho & Hout); auto; try (simpl; lia).
           exists out. split; [exact Ho|]. simpl in Hout. lia.
        -- simpl render. simpl in Hfuel.
           replace (length pre + 1 <? length (pre ++ c :: c' :: render CCI items'))
             with true by (symmetry; apply Nat.ltb_lt; len).
           rewrite at_app_next. cbn [andb].
           inversion Hitems as [|? ? Hc' Hitems']; subst.
           destruct (Byte.eqb c' x0a).
           ++ change (pre ++ c :: c' :: render CCI items')
                with (pre ++ [c; c'] ++ render CCI items').
              rewrite app_assoc.
              replace (length pre + 1 + 1) with (length (pre ++ [c; c'])) by len.
              destruct (IH items' (pre ++ [c; c']) (newline lines stack) stack)
                as (out & Ho & Hout); auto; try lia.
              exists out. split; [exact Ho|lia].
           ++ rewrite Nat.add_0_r, snoc_app.
              replace (length pre + 1) with (length (pre ++ [c])) by len.
              destruct (IH (Printable c' :: items') (pre ++ [c]) (newline lines stack) stack)
                as (out & Ho & Hout); auto; try (simpl; lia).
              exists out. split; [exact Ho|lia].
        -- simpl render. simpl in Hfuel.
           replace (length pre + 1 <? length (pre ++ c :: CCI :: r :: g :: b :: render CCI items'))
             with true by (symmetry; apply Nat.ltb_lt; len).
           rewrite at_app_next, (byte_eqb_neq Hlf). cbn [andb].
           rewrite Nat.add_0_r, snoc_app.
           replace (length pre + 1) with (length (pre ++ [c])) by len.
           destruct (IH (ColorSet r g b :: items') (pre ++ [c]) (newline lines stack) stack)
             as (out & Ho & Hout); auto; try (simpl; lia).
           exists out. split; [exact Ho|lia].
      * rewrite snoc_app.
        replace (length pre + 1) with (length (pre ++ [c])) by len.
        destruct (Byte.eqb c x0a).
        -- destruct (IH items (pre ++ [c]) (newline lines stack) stack)
             as (out & Ho & Hout); auto; try lia.
           exists out. split; [exact Ho|lia].
        -- destruct (IH items (pre ++ [c]) (back_append lines [c]) stack)
             as (out & Ho & Hout); auto; try lia.
           exists out. split; [exact Ho|lia].
    + simpl render. simpl in Hfuel.
      replace (length pre <? length (pre ++ CCI :: r :: g :: b :: render CCI items))
        with true by (symmetry; apply Nat.ltb_lt; len).
      rewrite at_app, byte_eqb_refl.
      replace (length pre + 3 <? length (pre ++ CCI :: r :: g :: b :: render CCI items))
        with true by (symmetry; apply Nat.ltb_lt; len).
      set (stack' := stack ++ _).
      destruct (back_append_length (last stack' []) Hne) as [La Na].
      change (pre ++ CCI :: r :: g :: b :: render CCI items)
        with (pre ++ [CCI; r; g; b] ++ render CCI items) in *.
      rewrite app_assoc in *.
      replace (length pre + 3 + 1) with (length (pre ++ [CCI; r; g; b])) by len.
      destruct (IH items (pre ++ [CCI; r; g; b]) (back_append lines (last stack' [])) stack')
        as (out & Ho & Hout); auto; try lia.
      exists out. split; [exact Ho|]. simpl. lia.
Qed.

(** X3. On a text whose colour-set sequences are all complete,
    [GetTextNumLines_] counts 1 plus the line breaks that stand outside the
    colour-set sequences, and [SplitIntoLines] returns exactly that number of
    lines; on the empty text both give nothing. *)
Theorem SplitIntoLines_GetTextNumLines_agree (items : list item) :
  CCI <> x0a ->
  complete_codes CCI items ->
  exists ls,
    SplitIntoLines CCI CRI (render CCI items) = Some ls /\
    GetTextNumLines_ CCI CRI (render CCI items) = Some (length ls) /\
    length ls = match items with [] => 0 | _ => 1 + item_breaks CRI items end.
Proof.
  intros Hlf Hc. destruct items as [|it items].
  { exists []. repeat split. }
  assert (Hne : render CCI (it :: items) <> []) by (destruct it; discriminate).
  destruct (@SplitIntoLines_loop_items (length (render CCI (it :: items))) Hlf
              (it :: items) [] [[]] [] Hc) as (ls & Hs & Hl);
    [discriminate|lia|].
  pose proof (@GetTextNumLines_loop_items (length (render CCI (it :: items))) Hlf
                (it :: items) [] 1 Hc (Nat.le_refl _)) as Hn.
  exists ls. unfold SplitIntoLines, GetTextNumLines_.
  destruct (render CCI (it :: items)) as [|c text] eqn:E; [congruence|].
  simpl app in Hs, Hn. simpl length in Hs, Hn |- *.
  split; [exact Hs|]. split; [|exact Hl].
  rewrite Hn. f_equal. symmetry. exact Hl.
Qed.
End LinesWithCodes.

(** ** Splitting and joining *)

Lemma join_lines_snoc (l : list u8string) (x : u8string) :
  l <> [] -> join_lines (l ++ [x]) = join_lines l ++ x0a :: x.
Proof.
  induction l as [|a l IH]; [congruence|]. intros _.
  destruct l as [|b l]; [reflexivity|].
  change (join_lines ((a :: b :: l) ++ [x])) with (a ++ x0a :: join_lines ((b :: l) ++ [x])).
  rewrite IH by discriminate.
  change (join_lines (a :: b :: l)) with (a ++ x0a :: join_lines (b :: l)).
  now rewrite <- app_assoc.
Qed.

Lemma join_lines_back_append (lines : list u8string) (s : u8string) :
  lines <> [] -> join_lines (back_append lines s) = join_lines lines ++ s.
Proof.
  intros H. unfold back_append.
  destruct (exists_last H) as (rl & la & ->).
  rewrite removelast_last, last_last.
  destruct rl as [|a l].
  - reflexivity.
  - rewrite !join_lines_snoc by discriminate. rewrite <- app_assoc. reflexivity.
Qed.

Section SplitJoin.
Variables CCI CRI : byte.

Lemma SplitIntoLines_loop_join fuel :
  forall suf pre lines,
    Forall (fun b => b <> CCI /\ b <> x0d) suf ->
    lines <> [] ->
    length suf <= fuel ->
    exists out,
      SplitIntoLines_loop CCI CRI fuel (pre ++ suf) (length pre) lines [] = Some out /\
      join_lines out = join_lines lines ++ suf.
Proof.
  induction fuel as [|fuel IH]; intros suf pre lines Hs Hne Hfuel.
  - destruct suf; [|simpl in Hfuel; lia].
    simpl. rewrite app_nil_r, Nat.ltb_irrefl. exists lines. now rewrite app_nil_r.
  - destruct suf as [|c r].
    { simpl. rewrite app_nil_r, Nat.ltb_irrefl. exists lines. now rewrite app_nil_r. }
    inversion Hs as [|? ? [HnC HnR] Hr]; subst. simpl in Hfuel.
    cbn [SplitIntoLines_loop].
    replace (length pre <? length (pre ++ c :: r)) with true
      by (symmetry; apply Nat.ltb_lt; len).
    rewrite at_app, (byte_eqb_neq HnC), (byte_eqb_neq HnR).
    rewrite snoc_app.
    replace (length pre + 1) with (length (pre ++ [c])) by len.
    assert (Ha : join_lines (back_append lines [c]) = join_lines lines ++ [c])
      by now apply join_lines_back_append.
    assert (Hn : join_lines (newline lines []) = join_lines lines ++ [x0a])
      by (unfold newline; simpl; now apply join_lines_snoc).
    destruct (Byte.eqb c CRI).
    + destruct (IH r (pre ++ [c]) (back_append lines [c])) as (out & Ho & Hj);
        auto; try lia; try (now apply back_append_length).
      exists out. split; [exact Ho|]. rewrite Hj, Ha, <- app_assoc. reflexivity.
    + destruct (Byte.eqb c x0a) eqn:Elf.
      * apply byte_eqb_true in Elf. subst c.
        destruct (IH r (pre ++ [x0a]) (newline lines [])) as (out & Ho & Hj);
          auto; try lia; try (now apply newline_length).
        exists out. split; [exact Ho|]. rewrite Hj, Hn, <- app_assoc. reflexivity.
      * destruct (IH r (pre ++ [c]) (back_append lines [c])) as (out & Ho & Hj);
          auto; try lia; try (now apply back_append_length).
        exists out. split; [exact Ho|]. rewrite Hj, Ha, <- app_assoc. reflexivity.
Qed.

Lemma lines_joined_give_text (text : u8string) :
  Forall (fun b => b <> CCI /\ b <> x0d) text ->
  exists ls, SplitIntoLines CCI CRI text = Some ls /\ join_lines ls = text.
Proof.
  intros H. destruct text as [|c r]; [now exists []|].
  destruct (@SplitIntoLines_loop_join (length (c :: r)) (c :: r) [] [[]] H) as (ls & Hs & Hj);
    [discriminate|lia|].
  exists ls. split; [exact Hs|exact Hj].
Qed.

(** X4. A text without colour-set indicator and without CR is the join, with
    one LF between two lines, of the lines that [SplitIntoLines] returns for
    it; reset bytes stay in their lines. *)
Theorem SplitIntoLines_join (text : u8string) :
  Forall (fun b => b <> CCI /\ b <> x0d) text ->
  exists ls, SplitIntoLines CCI CRI text = Some ls /\ join_lines ls = text.
Proof. apply lines_joined_give_text. Qed.
End SplitJoin.

(** ** Resources and strip boundaries of a batch session *)

Lemma count_calls_app p l l' :
  count_calls p (l ++ l') = count_calls p l + count_calls p l'.
Proof. unfold count_calls. now rewrite filter_app, length_app. Qed.

Lemma count_calls_cons p c l :
  count_calls p (c :: l) = (if p c then 1 else 0) + count_calls p l.
Proof. unfold count_calls. simpl. now destruct (p c). Qed.

Lemma count_calls_nil p : count_calls p [] = 0.
Proof. reflexivity. Qed.

Ltac count_calls :=
  rewrite ?count_calls_app, ?count_calls_cons, ?count_calls_nil; simpl.

Lemma StronglySorted_snoc (l : list nat) (d : nat) :
  StronglySorted le l -> Forall (fun b => b <= d) l -> StronglySorted le (l ++ [d]).
Proof.
  induction 1 as [|a l Hs IH Ha]; intros Hd; simpl.
  - repeat constructor.
  - inversion Hd; subst. constructor; [now apply IH|].
    apply Forall_app. split; [assumption|]. now constructor.
Qed.

Section BatchResources.
Variable pow : double -> double -> double.
Variable float4_eq : float4 -> float4 -> bool.
Variable threadSafety : bool.

Ltac crush_state s :=
  destruct s as [ib ao sc tc oc a a2 st so mx el gc]; simpl in *.

Lemma SetTextColor_resources color s :
  vaMutex (SetTextColor float4_eq threadSafety color s) = vaMutex s /\
  glCalls (SetTextColor float4_eq threadSafety color s) = glCalls s /\
  inBeginEnd (SetTextColor float4_eq threadSafety color s) = inBeginEnd s.
Proof.
  unfold SetTextColor, lock, unlock. crush_state s.
  destruct threadSafety; simpl;
    repeat match goal with |- context [if ?b then _ else _] => destruct b; simpl end;
    repeat split; lia.
Qed.

Lemma SetOutlineColor_resources color s :
  vaMutex (SetOutlineColor pow float4_eq threadSafety color s) = vaMutex s /\
  glCalls (SetOutlineColor pow float4_eq threadSafety color s) = glCalls s /\
  inBeginEnd (SetOutlineColor pow float4_eq threadSafety color s) = inBeginEnd s.
Proof.
  unfold SetOutlineColor, lock, unlock. crush_state s.
  destruct threadSafety; simpl;
    repeat match goal with |- context [if ?b then _ else _] => destruct b; simpl end;
    repeat split; lia.
Qed.

Lemma resources_ok_same s s' :
  vaMutex s' = vaMutex s -> glCalls s' = glCalls s -> inBeginEnd s' = inBeginEnd s ->
  resources_ok threadSafety s -> resources_ok threadSafety s'.
Proof. unfold resources_ok. intros -> -> ->. auto. Qed.

Lemma resources_ok_Begin immediate resetColors s :
  resources_ok threadSafety s ->
  resources_ok threadSafety (Begin pow float4_eq threadSafety immediate resetColors s).
Proof.
  intros Hok. destruct (inBeginEnd s) eqn:Hin.
  - rewrite Begin_in_session by assumption.
    apply resources_ok_same with (s := s); auto.
  - unfold Begin. rewrite inBeginEnd_lock, Hin.
    destruct Hok as (Hm & Ha & Hx). rewrite Hin, andb_false_r in Hm. rewrite Hin in Ha.
    set (s1 := set_setColor _ _).
    assert (E : vaMutex s1 = (if threadSafety then 1 else 0) /\ glCalls s1 = glCalls s).
    { subst s1. unfold lock. destruct threadSafety; simpl; split; auto; lia. }
    destruct E as [E1 E2].
    set (s2 := if resetColors then _ else _).
    assert (E' : vaMutex s2 = vaMutex s1 /\ glCalls s2 = glCalls s1).
    { subst s2. destruct resetColors; [|now split]. unfold SetColors.
      destruct (SetTextColor_resources None s1) as (A1 & A2 & _).
      destruct (SetOutlineColor_resources None (SetTextColor float4_eq threadSafety None s1))
        as (B1 & B2 & _).
      split; congruence. }
    destruct E' as [E3 E4].
    unfold resources_ok. cbn. rewrite E3, E4, E1, E2, andb_true_r.
    count_calls. repeat split; try lia.
Qed.

Lemma resources_ok_End inListCompile s :
  resources_ok threadSafety s -> resources_ok threadSafety (End_ threadSafety inListCompile s).
Proof.
  intros Hok. destruct (inBeginEnd s) eqn:Hin.
  - destruct Hok as (Hm & Ha & Hx). rewrite Hin, andb_true_r in Hm. rewrite Hin in Ha.
    unfold End_, unlock, resources_ok. rewrite Hin. crush_state s.
    destruct threadSafety; subst mx; simpl;
      repeat match goal with |- context [if ?b then _ else _] => destruct b; simpl end;
      count_calls; repeat split; lia.
  - rewrite End_outside_session by assumption.
    apply resources_ok_same with (s := s); auto.
Qed.

Lemma resources_ok_perform s o :
  resources_ok threadSafety s ->
  resources_ok threadSafety (perform pow float4_eq threadSafety s o).
Proof.
  intros Hok. destruct o as [i r|b|c|c|v|v]; simpl.
  - now apply resources_ok_Begin.
  - now apply resources_ok_End.
  - destruct (SetTextColor_resources c s) as (A & B & C).
    now apply resources_ok_same with (s := s).
  - destruct (SetOutlineColor_resources c s) as (A & B & C).
    now apply resources_ok_same with (s := s).
  - now apply resources_ok_same with (s := s).
  - now apply resources_ok_same with (s := s).
Qed.

(** X5. In every state that a font reaches, the mutex of a thread-safe font
    is held exactly while a session is open (and never twice), every
    [glPushAttrib] of a closed session has been matched by one [glPopAttrib],
    an open session has one unmatched, and the pushes and pops of the texture
    matrix are matched. *)
Theorem session_resources_balanced (ops : list operation) :
  resources_ok threadSafety (run pow float4_eq threadSafety ops).
Proof.
  unfold run. induction ops as [|o ops IH] using rev_ind.
  - unfold resources_ok. simpl. rewrite andb_false_r. repeat split.
  - rewrite fold_left_app. simpl. now apply resources_ok_perform.
Qed.
End BatchResources.

Section StripBoundaries.
Variable pow : double -> double -> double.
Variable float4_eq : float4 -> float4 -> bool.
Variable threadSafety : bool.

Lemma boundaries_ok_next a strips c :
  boundaries_ok a strips ->
  boundaries_ok
    (if negb ((drawIndex a =? 0) && negb (isEmpty strips)) then EndStrip a else a)
    (next_strips a strips c).
Proof.
  intros (Hl & Hb & Hs). unfold next_strips.
  assert (Hne : isEmpty strips = false) by (destruct strips; [discriminate|reflexivity]).
  rewrite Hne, andb_true_r.
  destruct (drawIndex a =? 0) eqn:Hz; simpl.
  - repeat split; auto. unfold set_back.
    destruct strips as [|x strips]; [discriminate|].
    pose proof (f_equal (@length _) (app_removelast_last x (l := x :: strips) ltac:(discriminate))) as E.
    rewrite length_app in *. simpl in *. lia.
  - apply Nat.eqb_neq in Hz. unfold boundaries_ok, EndStrip, drawIndex in *. simpl.
    rewrite !length_app. simpl. repeat split.
    + lia.
    + apply Forall_app. split; [assumption|]. constructor; [lia|constructor].
    + apply StronglySorted_snoc; [assumption|].
      eapply Forall_impl; [|exact Hb]. simpl. intros; lia.
Qed.

Lemma boundaries_ok_AddVertex a strips v :
  boundaries_ok a strips -> boundaries_ok (AddVertexQ2dT v a) strips.
Proof.
  intros (Hl & Hb & Hs). unfold boundaries_ok, AddVertexQ2dT, drawIndex in *. simpl.
  repeat split; auto.
  eapply Forall_impl; [|exact Hb]. simpl. intros b Hb'. rewrite length_app. simpl. lia.
Qed.

Lemma session_boundaries_SetTextColor c s :
  session_boundaries s -> session_boundaries (SetTextColor float4_eq threadSafety (Some c) s).
Proof.
  intros H. unfold session_boundaries.
  destruct (SetTextColor_fields float4_eq threadSafety c s)
    as (_ & _ & E3 & E4 & E5 & E6 & _ & E8).
  cbv zeta in *. rewrite E3, E4, E5, E6, E8. intros Hin. rewrite Hin in *.
  destruct (H Hin) as [Ht Ho]. split; [|assumption]. simpl.
  destruct (float4_eq c (textColor s)); simpl; [assumption|].
  now apply boundaries_ok_next.
Qed.

Lemma session_boundaries_SetOutlineColor c s :
  session_boundaries s ->
  session_boundaries (SetOutlineColor pow float4_eq threadSafety (Some c) s).
Proof.
  intros H. unfold session_boundaries.
  destruct (SetOutlineColor_fields pow float4_eq threadSafety c s)
    as (_ & _ & E3 & E4 & E5 & E6 & _ & E8).
  cbv zeta in *. rewrite E3, E4, E5, E6, E8. intros Hin. rewrite Hin in *.
  destruct (H Hin) as [Ht Ho]. split; [assumption|]. simpl.
  destruct (float4_eq c (outlineColor s)); simpl; [assumption|].
  now apply boundaries_ok_next.
Qed.

Lemma session_boundaries_perform s o :
  session_boundaries s -> session_boundaries (perform pow float4_eq threadSafety s o).
Proof.
  intros H. destruct o as [i r|b|[c|]|[c|]|v|v]; simpl.
  - destruct (inBeginEnd s) eqn:Hin.
    + rewrite Begin_in_session by assumption. exact H.
    + unfold Begin. rewrite inBeginEnd_lock, Hin. intros _.
      split; cbn; repeat split; constructor.
  - destruct (inBeginEnd s) eqn:Hin.
    + intros Hin'. exfalso. revert Hin'. unfold End_, unlock. rewrite Hin.
      destruct s as [ib ao sc tc oc a a2 st so mx el gc]. simpl.
      repeat match goal with |- context [if ?b then _ else _] => destruct b; simpl end;
        discriminate.
    + rewrite End_outside_session by assumption. exact H.
  - now apply session_boundaries_SetTextColor.
  - now apply (session_boundaries_SetTextColor white).
  - now apply session_boundaries_SetOutlineColor.
  - now apply (session_boundaries_SetOutlineColor (ChooseOutlineColor pow (textColor s))).
  - intros Hin. destruct (H Hin) as [Ht Ho]. split; [|exact Ho].
    now apply boundaries_ok_AddVertex.
  - intros Hin. destruct (H Hin) as [Ht Ho]. split; [exact Ht|].
    now apply boundaries_ok_AddVertex.
Qed.

Lemma session_boundaries_run ops : session_boundaries (run pow float4_eq threadSafety ops).
Proof.
  unfold run. induction ops as [|o ops IH] using rev_ind.
  - intros H. discriminate.
  - rewrite fold_left_app. simpl. now apply session_boundaries_perform.
Qed.

(** X6. In every session that a font reaches, each collection has one strip
    colour more than it has strip boundaries, every boundary lies after the
    first vertex and not beyond the last one, and the boundaries ascend: a
    colour change closes a strip only when there are vertices, though two
    changes in a row leave a strip without vertices. *)
Theorem strip_boundaries_in_session (ops : list operation) :
  inBeginEnd (run pow float4_eq threadSafety ops) = true ->
  boundaries_ok (va (run pow float4_eq threadSafety ops))
                (stripTextColors (run pow float4_eq threadSafety ops)) /\
  boundaries_ok (va2 (run pow float4_eq threadSafety ops))
                (stripOutlineColors (run pow float4_eq threadSafety ops)).
Proof. apply session_boundaries_run. Qed.
End StripBoundaries.

(** ** The render drivers *)

Section RenderProperties.
Variable P : FontParams.

Local Abbreviation SetTextColorP := (SetTextColor (float4_eq P) (threadSafety P)).
Local Abbreviation SetOutlineColorP :=
  (SetOutlineColor (pow P) (float4_eq P) (threadSafety P)).

(** What the colour setters and the emission of a glyph keep, the loop of a
    driver keeps; and under a decoder that advances, the loop returns. *)
Lemma RenderString_loop_keeps (I : CglFont -> Prop)
    (emit : float -> float -> float -> float -> GlyphRects -> CglFont -> CglFont) :
  (forall c s, I s -> I (SetTextColorP c s)) ->
  (forall c s, I s -> I (SetOutlineColorP c s)) ->
  (forall a b c d g s, I s -> I (emit a b c d g s)) ->
  decoder_ok (GetNextChar P) ->
  forall fuel str scaleX scaleY startx lineHeight_ base x y i pc newColor s,
    length str - i <= fuel ->
    I s ->
    exists s',
      RenderString_loop P fuel emit str scaleX scaleY startx lineHeight_ base
        x y i pc newColor s = Some s' /\ I s'.
Proof.
  intros HT HO HE Hdec.
  induction fuel as [|fuel IH];
    intros str scaleX scaleY startx lineHeight_ base x y i pc newColor s Hfuel Hs;
    cbn [RenderString_loop];
    destruct (SkipColorCodesAndNewLines_post (ColorCodeIndicator P) (ColorResetIndicator P)
                str i newColor base) as (r & st & -> & Hpos & _ & Hr);
    destruct r; eauto; destruct Hr as [Hlt _]; [lia|].
  destruct (Hdec str (pos st) Hlt) as [Hadv _].
  destruct (GetNextChar P str (pos st)) as [cc i']. simpl in Hadv.
  destruct (move_cursor P scaleX startx lineHeight_ x y pc cc (skippedLines st)) as [x' y'].
  apply IH; [lia|]. apply HE.
  unfold apply_color, SetColors.
  destruct (colorChanged st); [|assumption].
  destruct (autoOutlineColor s); auto.
Qed.

Lemma RenderString_with_keeps (I : CglFont -> Prop) emit :
  (forall c s, I s -> I (SetTextColorP c s)) ->
  (forall c s, I s -> I (SetOutlineColorP c s)) ->
  (forall sx sy a b c d g s, I s -> I (emit sx sy a b c d g s)) ->
  decoder_ok (GetNextChar P) ->
  forall x y scaleX scaleY str base s,
    I s ->
    exists s', RenderString_with P emit x y scaleX scaleY str base s = Some s' /\ I s'.
Proof.
  intros HT HO HE Hdec x y scaleX scaleY str base s Hs. unfold RenderString_with.
  apply RenderString_loop_keeps; auto. lia.
Qed.

Lemma SetTextColor_quiet c s :
  quiet s (SetTextColorP c s) /\
  drawArray (va (SetTextColorP c s)) = drawArray (va s) /\
  drawArray (va2 (SetTextColorP c s)) = drawArray (va2 s).
Proof.
  unfold quiet, SetTextColor, lock, unlock.
  destruct s as [ib ao sc tc oc a a2 st so mx el gc]. simpl.
  destruct (threadSafety P); simpl;
    repeat match goal with |- context [if ?b then _ else _] => destruct b; simpl end;
    repeat split; lia.
Qed.

Lemma SetOutlineColor_quiet c s :
  quiet s (SetOutlineColorP c s) /\
  drawArray (va (SetOutlineColorP c s)) = drawArray (va s) /\
  drawArray (va2 (SetOutlineColorP c s)) = drawArray (va2 s).
Proof.
  unfold quiet, SetOutlineColor, lock, unlock.
  destruct s as [ib ao sc tc oc a a2 st so mx el gc]. simpl.
  destruct (threadSafety P); simpl;
    repeat match goal with |- context [if ?b then _ else _] => destruct b; simpl end;
    repeat split; lia.
Qed.

Lemma drawn_refl decorated s : drawn decorated s s.
Proof.
  split; [repeat split|]. exists 0.
  split; exists []; rewrite app_nil_r; split; auto. now destruct decorated.
Qed.

Lemma drawn_setter decorated s0 s s' :
  quiet s s' -> drawArray (va s') = drawArray (va s) ->
  drawArray (va2 s') = drawArray (va2 s) ->
  drawn decorated s0 s -> drawn decorated s0 s'.
Proof.
  intros (Q1 & Q2 & Q3 & Q4) Ha Ha2 [(R1 & R2 & R3 & R4) (n & A & A2)].
  split; [repeat split; congruence|].
  exists n. unfold appended in *. rewrite Ha, Ha2. auto.
Qed.

Lemma appended_quad a0 a m m' v1 v2 v3 v4 :
  appended a0 a m -> m' = m + 4 -> appended a0 (AddQuad v1 v2 v3 v4 a) m'.
Proof.
  intros (vs & E & L) ->. exists (vs ++ [v1; v2; v3; v4]). split.
  - unfold AddQuad, AddVertexQ2dT. simpl. rewrite E, <- !app_assoc. reflexivity.
  - rewrite length_app. simpl. lia.
Qed.

Lemma drawn_emit_plain s0 sx sy a b c d g s :
  drawn false s0 s -> drawn false s0 (emit_plain sx sy a b c d g s).
Proof.
  intros [Q (n & A & A2)]. split; [exact Q|].
  exists (S n). split; [|exact A2].
  unfold emit_plain, glyph_quad. destruct s; cbn [va va2 set_va set_va2] in *.
  eapply appended_quad; [exact A|lia].
Qed.

Lemma drawn_emit_shadow s0 sx sy a b c d g s :
  drawn true s0 s -> drawn true s0 (emit_shadow P sx sy a b c d g s).
Proof.
  intros [Q (n & A & A2)]. split; [exact Q|].
  exists (S n).
  unfold emit_shadow, glyph_quad. destruct s; cbn [va va2 set_va set_va2] in *.
  split; (eapply appended_quad; [eassumption|lia]).
Qed.

Lemma drawn_emit_outlined s0 sx sy a b c d g s :
  drawn true s0 s -> drawn true s0 (emit_outlined P sx sy a b c d g s).
Proof.
  intros [Q (n & A & A2)]. split; [exact Q|].
  exists (S n).
  unfold emit_outlined, glyph_quad. destruct s; cbn [va va2 set_va set_va2] in *.
  split; (eapply appended_quad; [eassumption|lia]).
Qed.

Lemma RenderString_drawn decorated emit :
  (forall s0 sx sy a b c d g s,
      drawn decorated s0 s -> drawn decorated s0 (emit sx sy a b c d g s)) ->
  decoder_ok (GetNextChar P) ->
  forall x y scaleX scaleY str base s,
    exists s', RenderString_with P emit x y scaleX scaleY str base s = Some s' /\
               drawn decorated s s'.
Proof.
  intros HE Hdec x y scaleX scaleY str base s.
  apply (@RenderString_with_keeps (drawn decorated s) emit); auto.
  - intros c s1 H. destruct (SetTextColor_quiet c s1) as (Q & A & A2).
    now apply drawn_setter with (s := s1).
  - intros c s1 H. destruct (SetOutlineColor_quiet c s1) as (Q & A & A2).
    now apply drawn_setter with (s := s1).
  - apply drawn_refl.
Qed.

(** X7. Under a decoder that advances, each of the three drivers returns.
    None of them touches the session flag, the mutex, the error log or the
    graphics API, and none changes or removes a vertex: [RenderString] appends
    a multiple of four vertices to the primary collection and leaves the
    vertices of the secondary one alone; [RenderStringShadow] and
    [RenderStringOutlined] append as many vertices to the secondary collection
    as to the primary one. *)
Theorem drivers_append_quads (x y scaleX scaleY : float) (str : u8string)
    (base : float4) (s : CglFont) :
  decoder_ok (GetNextChar P) ->
  (exists s' n, RenderString P x y scaleX scaleY str base s = Some s' /\
                quiet s s' /\ appended (va s) (va s') (4 * n) /\
                drawArray (va2 s') = drawArray (va2 s)) /\
  (exists s' n, RenderStringShadow P x y scaleX scaleY str base s = Some s' /\
                quiet s s' /\ appended (va s) (va s') (4 * n) /\
                appended (va2 s) (va2 s') (4 * n)) /\
  (exists s' n, RenderStringOutlined P x y scaleX scaleY str base s = Some s' /\
                quiet s s' /\ appended (va s) (va s') (4 * n) /\
                appended (va2 s) (va2 s') (4 * n)).
Proof.
  intros Hdec. repeat split.
  - destruct (@RenderString_drawn false emit_plain drawn_emit_plain Hdec
                x y scaleX scaleY str base s) as (s' & E & Q & n & A & (vs & E2 & L)).
    exists s', n. split; [exact E|]. split; [exact Q|]. split; [exact A|].
    destruct vs; [|discriminate]. now rewrite app_nil_r in E2.
  - destruct (@RenderString_drawn true (emit_shadow P) drawn_emit_shadow Hdec
                x y scaleX scaleY str base s) as (s' & E & Q & n & A & A2).
    exists s', n. split; [exact E|]. split; [exact Q|]. split; assumption.
  - destruct (@RenderString_drawn true (emit_outlined P) drawn_emit_outlined Hdec
                x y scaleX scaleY str base s) as (s' & E & Q & n & A & A2).
    exists s', n. split; [exact E|]. split; [exact Q|]. split; assumption.
Qed.

(** *** The drivers as sequences of operations *)

Local Abbreviation driven := (driven P).

Lemma driven_refl s : driven s s.
Proof. now exists []. Qed.

Lemma driven_step s0 s ops :
  forallb is_drawing_op ops = true -> driven s0 s -> driven s0 (performs P ops s).
Proof.
  intros Hops (ops0 & H0 & ->). exists (ops0 ++ ops). split.
  - now rewrite forallb_app, H0, Hops.
  - unfold performs. now rewrite fold_left_app.
Qed.

Lemma emit_plain_ops sx sy a b c d g s :
  exists ops, forallb is_drawing_op ops = true /\
              emit_plain sx sy a b c d g s = performs P ops s.
Proof.
  eexists [OpAddVertex _; OpAddVertex _; OpAddVertex _; OpAddVertex _].
  split; [reflexivity|]. destruct s. reflexivity.
Qed.

Lemma emit_shadow_ops sx sy a b c d g s :
  exists ops, forallb is_drawing_op ops = true /\
              emit_shadow P sx sy a b c d g s = performs P ops s.
Proof.
  eexists [OpAddVertex2 _; OpAddVertex2 _; OpAddVertex2 _; OpAddVertex2 _;
           OpAddVertex _; OpAddVertex _; OpAddVertex _; OpAddVertex _].
  split; [reflexivity|]. destruct s. reflexivity.
Qed.

Lemma emit_outlined_ops sx sy a b c d g s :
  exists ops, forallb is_drawing_op ops = true /\
              emit_outlined P sx sy a b c d g s = performs P ops s.
Proof.
  eexists [OpAddVertex2 _; OpAddVertex2 _; OpAddVertex2 _; OpAddVertex2 _;
           OpAddVertex _; OpAddVertex _; OpAddVertex _; OpAddVertex _].
  split; [reflexivity|]. destruct s. reflexivity.
Qed.

Lemma RenderString_driven emit :
  (forall sx sy a b c d g s,
      exists ops, forallb is_drawing_op ops = true /\
                  emit sx sy a b c d g s = performs P ops s) ->
  decoder_ok (GetNextChar P) ->
  forall x y scaleX scaleY str base s,
    exists s', RenderString_with P emit x y scaleX scaleY str base s = Some s' /\
               driven s s'.
Proof.
  intros HE Hdec x y scaleX scaleY str base s.
  apply (@RenderString_with_keeps (driven s) emit); auto.
  - intros c s1 H. now apply (@driven_step s s1 [OpSetTextColor c]).
  - intros c s1 H. now apply (@driven_step s s1 [OpSetOutlineColor c]).
  - intros sx sy a b c d g s1 H. destruct (HE sx sy a b c d g s1) as (ops & Hops & ->).
    now apply driven_step.
  - apply driven_refl.
Qed.

(** *** [glPrint] *)

Lemma GetTextWidth_returns text :
  decoder_ok (GetNextChar P) -> exists w, GetTextWidth P text = Some w.
Proof.
  intros Hdec. unfold GetTextWidth, GetTextWidth_.
  destruct text as [|c r]; [eauto|].
  destruct (tokens_returns (ColorCodeIndicator P) (ColorResetIndicator P) (c :: r) Hdec)
    as [ts Hts].
  unfold tokens in Hts. erewrite GetTextWidth_loop_tokens; [|exact Hts].
  destruct (width_tokens _ _ _ _ _ _) as [[cw mw] prv]. eauto.
Qed.

Lemma GetTextHeight_returns text :
  decoder_ok (GetNextChar P) -> exists r, GetTextHeight P text = Some r.
Proof.
  intros Hdec. unfold GetTextHeight, GetTextHeight_.
  destruct text as [|c r]; [eauto|].
  destruct (tokens_returns (ColorCodeIndicator P) (ColorResetIndicator P) (c :: r) Hdec)
    as [ts Hts].
  unfold tokens in Hts. erewrite GetTextHeight_loop_tokens; [|exact Hts].
  destruct (height_tokens _ _ _ _ _ _ _) as [[h d] n]. eauto.
Qed.

Lemma align_x_returns options sizeX x text :
  decoder_ok (GetNextChar P) -> exists x', align_x P options sizeX x text = Some x'.
Proof.
  intros Hdec. unfold align_x. destruct (GetTextWidth_returns text Hdec) as [w ->].
  repeat match goal with |- context [if ?b then _ else _] => destruct b end; eauto.
Qed.

Lemma align_y_returns options sizeY y text :
  decoder_ok (GetNextChar P) -> exists y', align_y P options sizeY y text = Some y'.
Proof.
  intros Hdec. unfold align_y.
  destruct (GetTextHeight_returns text Hdec) as [[[h d] n] ->].
  repeat match goal with |- context [if ?b then _ else _] => destruct b end; eauto.
Qed.

(** [glPrint] as a sequence of operations. *)
Lemma glPrint_performs (x y s : float) (options : Z) (text : u8string)
    (inListCompile : bool) (p : Printer) :
  decoder_ok (GetNextChar P) ->
  exists p' driver,
    glPrint P x y s options text inListCompile p = Some p' /\
    forallb is_drawing_op driver = true /\
    font p' = performs P (glPrint_operations P options inListCompile (font p) driver)
                (font p) /\
    baseTextColor p' = textColor (font p) /\
    baseOutlineColor p' = outlineColor (font p).
Proof.
  intros Hdec. unfold glPrint. cbv zeta.
  set (s1 := if has_flag options (FONT_SCALE (flags P)) then _ else _).
  set (sizeX := if has_flag options (FONT_NORM (flags P)) then B32.mul s1 (pixelX P) else s1).
  set (sizeY := if has_flag options (FONT_NORM (flags P)) then B32.mul s1 (pixelY P) else s1).
  destruct (align_x_returns options sizeX x text Hdec) as [x' ->].
  destruct (align_y_returns options sizeY y text Hdec) as [y' ->].
  set (x1 := if has_flag options (FONT_NEAREST (flags P)) then B32.of_Z (to_int P x') else x').
  set (y1 := if has_flag options (FONT_NEAREST (flags P)) then B32.of_Z (to_int P y') else y').
  set (f1 := if negb (inBeginEnd (font p)) then _ else font p).
  assert (D : exists f2,
             (if has_flag options (FONT_OUTLINE (flags P)) then
                RenderStringOutlined P x1 y1 sizeX sizeY text (textColor (font p)) f1
              else if has_flag options (FONT_SHADOW (flags P)) then
                RenderStringShadow P x1 y1 sizeX sizeY text (textColor (font p)) f1
              else RenderString P x1 y1 sizeX sizeY text (textColor (font p)) f1) = Some f2 /\
             driven f1 f2).
  { destruct (has_flag options (FONT_OUTLINE (flags P)));
      [|destruct (has_flag options (FONT_SHADOW (flags P)))].
    - exact (@RenderString_driven (emit_outlined P) emit_outlined_ops Hdec
               x1 y1 sizeX sizeY text (textColor (font p)) f1).
    - exact (@RenderString_driven (emit_shadow P) emit_shadow_ops Hdec
               x1 y1 sizeX sizeY text (textColor (font p)) f1).
    - exact (@RenderString_driven emit_plain emit_plain_ops Hdec
               x1 y1 sizeX sizeY text (textColor (font p)) f1). }
  destruct D as (f2 & -> & (driver & Hdrv & ->)).
  eexists _, driver. split; [reflexivity|]. split; [exact Hdrv|].
  cbn [font baseTextColor baseOutlineColor]. split; [|split; reflexivity].
  unfold glPrint_operations, performs, SetColors, f1.
  destruct (inBeginEnd (font p)); cbn [negb app fold_left];
    rewrite ?fold_left_app; reflexivity.
Qed.

(** X8. With a decoder that consumes at least one byte, [glPrint] returns,
    and what it does to the font is a sequence of operations of the batch
    protocol: [Begin] when no session is open, then colour changes and
    vertices only, then [End] when it began the session, then the text
    colour and the outline colour it found on entry, which it has saved as
    the base colours. *)
Theorem glPrint_is_operations (x y s : float) (options : Z) (text : u8string)
    (inListCompile : bool) (p : Printer) :
  decoder_ok (GetNextChar P) ->
  exists p' driver,
    glPrint P x y s options text inListCompile p = Some p' /\
    forallb is_drawing_op driver = true /\
    font p' = performs P (glPrint_operations P options inListCompile (font p) driver)
                (font p) /\
    baseTextColor p' = textColor (font p) /\
    baseOutlineColor p' = outlineColor (font p).
Proof. apply glPrint_performs. Qed.

Lemma performs_keeps (I : CglFont -> Prop) ops :
  (forall s o, I s -> I (perform (pow P) (float4_eq P) (threadSafety P) s o)) ->
  forall s, I s -> I (performs P ops s).
Proof.
  intros HI. unfold performs. induction ops as [|o ops IH]; intros s Hs; simpl; auto.
Qed.

Lemma performs_app ops ops' s :
  performs P (ops ++ ops') s = performs P ops' (performs P ops s).
Proof. unfold performs. apply fold_left_app. Qed.

Lemma drawing_op_quiet o s :
  is_drawing_op o = true ->
  let s' := perform (pow P) (float4_eq P) (threadSafety P) s o in
  quiet s s' /\
  (exists vs, drawArray (va s') = drawArray (va s) ++ vs) /\
  (exists vs, drawArray (va2 s') = drawArray (va2 s) ++ vs).
Proof.
  destruct o as [i r|b|c|c|v|v]; try discriminate; intros _; cbn [perform].
  - destruct (SetTextColor_quiet c s) as (Q & -> & ->).
    split; [exact Q|]. split; exists []; now rewrite app_nil_r.
  - destruct (SetOutlineColor_quiet c s) as (Q & -> & ->).
    split; [exact Q|]. split; exists []; now rewrite app_nil_r.
  - destruct s. cbn. split; [now repeat split|].
    split; [now exists [v]|exists []; now rewrite app_nil_r].
  - destruct s. cbn. split; [now repeat split|].
    split; [exists []; now rewrite app_nil_r|now exists [v]].
Qed.

Lemma drawing_ops_quiet ops :
  forallb is_drawing_op ops = true ->
  forall s,
    quiet s (performs P ops s) /\
    (exists vs, drawArray (va (performs P ops s)) = drawArray (va s) ++ vs) /\
    (exists vs, drawArray (va2 (performs P ops s)) = drawArray (va2 s) ++ vs).
Proof.
  induction ops as [|o ops IH]; intros Hops s.
  - split; [now repeat split|]. split; exists []; now rewrite app_nil_r.
  - simpl in Hops. apply andb_true_iff in Hops. destruct Hops as [Ho Hops].
    destruct (drawing_op_quiet o s Ho) as ((Q1 & Q2 & Q3 & Q4) & (v1 & E1) & (w1 & F1)).
    destruct (IH Hops (perform (pow P) (float4_eq P) (threadSafety P) s o))
      as ((R1 & R2 & R3 & R4) & (v2 & E2) & (w2 & F2)).
    change (performs P (o :: ops) s)
      with (performs P ops (perform (pow P) (float4_eq P) (threadSafety P) s o)).
    split; [repeat split; congruence|].
    split; [exists (v1 ++ v2); rewrite E2, E1|exists (w1 ++ w2); rewrite F2, F1];
      now rewrite app_assoc.
Qed.

Lemma Begin_opens immediate resetColors s :
  inBeginEnd s = false ->
  let s' := Begin (pow P) (float4_eq P) (threadSafety P) immediate resetColors s in
  inBeginEnd s' = true /\
  vaMutex s' = vaMutex s + (if threadSafety P then 1 else 0) /\
  errorLog s' = errorLog s /\
  glCalls s' = glCalls s ++ [glPushAttrib; glDisable GL_LIGHTING; glDisable GL_DEPTH_TEST;
                             glEnable GL_BLEND; glBlendFunc] /\
  drawArray (va s') = [] /\ drawArray (va2 s') = [].
Proof.
  intros Hin. unfold Begin. rewrite inBeginEnd_lock, Hin. cbv zeta.
  set (s1 := set_setColor _ _).
  assert (E : vaMutex s1 = vaMutex s + (if threadSafety P then 1 else 0) /\
              errorLog s1 = errorLog s /\ glCalls s1 = glCalls s).
  { subst s1. unfold lock. destruct (threadSafety P); simpl; repeat split; lia. }
  destruct E as (E1 & E2 & E3).
  set (s2 := if resetColors then _ else _).
  assert (E' : vaMutex s2 = vaMutex s1 /\ errorLog s2 = errorLog s1 /\
               glCalls s2 = glCalls s1).
  { subst s2. destruct resetColors; [|now repeat split]. unfold SetColors.
    destruct (SetTextColor_quiet None s1) as ((_ & A2 & A3 & A4) & _).
    destruct (SetOutlineColor_quiet None (SetTextColorP None s1))
      as ((_ & B2 & B3 & B4) & _).
    repeat split; congruence. }
  destruct E' as (E4 & E5 & E6). cbn.
  rewrite E4, E5, E6, E1, E2, E3. now repeat split.
Qed.

Lemma End_closes inListCompile s :
  inBeginEnd s = true ->
  let s' := End_ (threadSafety P) inListCompile s in
  inBeginEnd s' = false /\
  vaMutex s' = vaMutex s - (if threadSafety P then 1 else 0) /\
  errorLog s' = errorLog s /\
  textColor s' = textColor s /\ outlineColor s' = outlineColor s /\
  (drawArray (va s) = [] -> glCalls s' = glCalls s ++ [glPopAttrib]).
Proof.
  intros Hin. unfold End_, unlock, drawIndex. rewrite Hin.
  destruct s as [ib ao sc tc oc [a sa] [a2 sa2] st so mx el gc]. simpl.
  destruct a as [|v a]; simpl.
  - destruct (threadSafety P); simpl; repeat split; lia.
  - destruct (threadSafety P); simpl;
      repeat match goal with |- context [if ?b then _ else _] => destruct b; simpl end;
      repeat split; try lia; discriminate.
Qed.

Lemma SetColors_restores tc oc s :
  let s' := SetColors (pow P) (float4_eq P) (threadSafety P) (Some tc) (Some oc) s in
  textColor s' = tc /\ outlineColor s' = oc /\ quiet s s' /\
  drawArray (va s') = drawArray (va s) /\ drawArray (va2 s') = drawArray (va2 s).
Proof.
  unfold SetColors. cbv zeta.
  destruct (SetTextColor_fields (float4_eq P) (threadSafety P) tc s) as (T1 & _).
  destruct (SetOutlineColor_fields (pow P) (float4_eq P) (threadSafety P) oc
              (SetTextColorP (Some tc) s)) as (O1 & O2 & _).
  destruct (SetTextColor_quiet (Some tc) s) as ((Q1 & Q2 & Q3 & Q4) & A1 & A2).
  destruct (SetOutlineColor_quiet (Some oc) (SetTextColorP (Some tc) s))
    as ((R1 & R2 & R3 & R4) & B1 & B2).
  split; [congruence|]. split; [exact O1|].
  split; [repeat split; congruence|]. split; congruence.
Qed.

(** What [glPrint] leaves as it found it, and the two ways it goes. *)
Lemma glPrint_effect (x y s : float) (options : Z) (text : u8string)
    (inListCompile : bool) (p : Printer) :
  decoder_ok (GetNextChar P) ->
  exists p',
    glPrint P x y s options text inListCompile p = Some p' /\
    textColor (font p') = textColor (font p) /\
    outlineColor (font p') = outlineColor (font p) /\
    inBeginEnd (font p') = inBeginEnd (font p) /\
    vaMutex (font p') = vaMutex (font p) /\
    errorLog (font p') = errorLog (font p) /\
    (inBeginEnd (font p) = true ->
     glCalls (font p') = glCalls (font p) /\
     (exists vs, drawArray (va (font p')) = drawArray (va (font p)) ++ vs) /\
     (exists vs, drawArray (va2 (font p')) = drawArray (va2 (font p)) ++ vs)).
Proof.
  intros Hdec.
  destruct (glPrint_performs x y s options text inListCompile p Hdec)
    as (p' & driver & E & Hdrv & Hf & _).
  exists p'. split; [exact E|]. rewrite Hf. clear E Hf p'.
  unfold glPrint_operations. set (f := font p).
  destruct (inBeginEnd f) eqn:Hin; cbn [app].
  - rewrite performs_app.
    destruct (drawing_ops_quiet driver Hdrv f) as ((Q1 & Q2 & Q3 & Q4) & (vs & A) & (ws & B)).
    set (f2 := performs P driver f) in *.
    change (performs P [OpSetTextColor (Some (textColor f));
                        OpSetOutlineColor (Some (outlineColor f))] f2)
      with (SetColors (pow P) (float4_eq P) (threadSafety P)
              (Some (textColor f)) (Some (outlineColor f)) f2).
    destruct (SetColors_restores (textColor f) (outlineColor f) f2)
      as (C1 & C2 & (R1 & R2 & R3 & R4) & V1 & V2).
    split; [exact C1|]. split; [exact C2|].
    split; [congruence|]. split; [congruence|]. split; [congruence|].
    intros _. split; [congruence|]. split; [exists vs|exists ws]; congruence.
  - change (OpBegin ?i ?r :: ?l) with ([OpBegin i r] ++ l).
    rewrite !performs_app.
    change (performs P [OpBegin ?i ?r] f)
      with (Begin (pow P) (float4_eq P) (threadSafety P) i r f).
    match goal with |- context [Begin ?a ?b ?c ?i ?r f] =>
      destruct (Begin_opens i r f Hin) as (B1 & B2 & B3 & _); set (f1 := Begin a b c i r f) in *
    end.
    destruct (drawing_ops_quiet driver Hdrv f1) as ((Q1 & Q2 & Q3 & Q4) & _).
    set (f2 := performs P driver f1) in *.
    change (performs P (OpEnd inListCompile :: ?l) f2)
      with (performs P l (End_ (threadSafety P) inListCompile f2)).
    assert (Hin2 : inBeginEnd f2 = true) by congruence.
    destruct (End_closes inListCompile f2 Hin2) as (E1 & E2 & E3 & _).
    set (f3 := End_ (threadSafety P) inListCompile f2) in *.
    change (performs P [OpSetTextColor (Some (textColor f));
                        OpSetOutlineColor (Some (outlineColor f))] f3)
      with (SetColors (pow P) (float4_eq P) (threadSafety P)
              (Some (textColor f)) (Some (outlineColor f)) f3).
    destruct (SetColors_restores (textColor f) (outlineColor f) f3)
      as (C1 & C2 & (R1 & R2 & R3 & R4) & _).
    split; [exact C1|]. split; [exact C2|].
    split; [congruence|].
    split; [rewrite R2, E2, Q2, B2; destruct (threadSafety P); lia|].
    split; [congruence|]. discriminate.
Qed.

(** X9. [glPrint] leaves the font's text colour and outline colour as it
    found them, whatever colour codes the text holds, and with them the
    session flag, the number of times the mutex is held and the error log:
    it reports no usage error in either mode. *)
Theorem glPrint_restores_state (x y s : float) (options : Z) (text : u8string)
    (inListCompile : bool) (p : Printer) :
  decoder_ok (GetNextChar P) ->
  exists p',
    glPrint P x y s options text inListCompile p = Some p' /\
    textColor (font p') = textColor (font p) /\
    outlineColor (font p') = outlineColor (font p) /\
    inBeginEnd (font p') = inBeginEnd (font p) /\
    vaMutex (font p') = vaMutex (font p) /\
    errorLog (font p') = errorLog (font p).
Proof.
  intros Hdec.
  destruct (glPrint_effect x y s options text inListCompile p Hdec)
    as (p' & E & H1 & H2 & H3 & H4 & H5 & _).
  exists p'. repeat split; assumption.
Qed.

(** X10. Inside a session [glPrint] issues no graphics call: the trace is
    as before, and the vertices of both collections stay where they were,
    new ones coming after them.  Nothing is drawn before [End]. *)
Theorem glPrint_in_session_defers (x y s : float) (options : Z) (text : u8string)
    (inListCompile : bool) (p : Printer) :
  decoder_ok (GetNextChar P) ->
  inBeginEnd (font p) = true ->
  exists p',
    glPrint P x y s options text inListCompile p = Some p' /\
    glCalls (font p') = glCalls (font p) /\
    (exists vs, drawArray (va (font p')) = drawArray (va (font p)) ++ vs) /\
    (exists vs, drawArray (va2 (font p')) = drawArray (va2 (font p)) ++ vs).
Proof.
  intros Hdec Hin.
  destruct (glPrint_effect x y s options text inListCompile p Hdec)
    as (p' & E & _ & _ & _ & _ & _ & H).
  exists p'. split; [exact E|]. now apply H.
Qed.

(** X11. [glPrint] keeps what the batch protocol keeps.  Under any
    [operator==]: the balance of the mutex and of the attribute and matrix
    stacks, well-formed strip boundaries, and a strip for each collection of
    a session.  Provided [operator==] equates two colours that it equates
    with a third, as an exact comparison does and a comparison within a
    tolerance does not: strips whose neighbours have colours that differ. *)
Theorem glPrint_keeps_invariants (x y s : float) (options : Z) (text : u8string)
    (inListCompile : bool) (p : Printer) :
  decoder_ok (GetNextChar P) ->
  exists p',
    glPrint P x y s options text inListCompile p = Some p' /\
    (resources_ok (threadSafety P) (font p) -> resources_ok (threadSafety P) (font p')) /\
    (session_boundaries (font p) -> session_boundaries (font p')) /\
    (session_strips (font p) -> session_strips (font p')) /\
    (eq_euclidean (float4_eq P) ->
     batch_ok (float4_eq P) (font p) -> batch_ok (float4_eq P) (font p')).
Proof.
  intros Hdec.
  destruct (glPrint_performs x y s options text inListCompile p Hdec)
    as (p' & driver & E & _ & Hf & _).
  exists p'. split; [exact E|]. rewrite Hf. split; [|split; [|split]].
  - apply performs_keeps. intros s0 o. apply resources_ok_perform.
  - apply performs_keeps. intros s0 o. apply session_boundaries_perform.
  - apply performs_keeps. intros s0 o. apply session_strips_perform.
  - intros Heu. apply performs_keeps. intros s0 o. now apply batch_ok_perform.
Qed.

(** X12. Outside a session an empty text makes [glPrint] bracket nothing:
    it adds the five calls of [Begin] and the one [glPopAttrib] of [End] to
    the trace, no draw call and no texture update, and needs no decoder. *)
Theorem glPrint_empty_text (x y s : float) (options : Z)
    (inListCompile : bool) (p : Printer) :
  inBeginEnd (font p) = false ->
  exists p',
    glPrint P x y s options [] inListCompile p = Some p' /\
    glCalls (font p') =
      glCalls (font p) ++ [glPushAttrib; glDisable GL_LIGHTING; glDisable GL_DEPTH_TEST;
                           glEnable GL_BLEND; glBlendFunc; glPopAttrib].
Proof.
  intros Hin. unfold glPrint. cbv zeta.
  set (s1 := if has_flag options (FONT_SCALE (flags P)) then _ else _).
  set (sizeX := if has_flag options (FONT_NORM (flags P)) then B32.mul s1 (pixelX P) else s1).
  set (sizeY := if has_flag options (FONT_NORM (flags P)) then B32.mul s1 (pixelY P) else s1).
  assert (Hx : exists x', align_x P options sizeX x [] = Some x').
  { unfold align_x, GetTextWidth, GetTextWidth_.
    repeat match goal with |- context [if ?b then _ else _] => destruct b end; eauto. }
  assert (Hy : exists y', align_y P options sizeY y [] = Some y').
  { unfold align_y, GetTextHeight, GetTextHeight_.
    repeat match goal with |- context [if ?b then _ else _] => destruct b end; eauto. }
  destruct Hx as [x' ->]. destruct Hy as [y' ->]. rewrite Hin. cbn [negb].
  match goal with |- context [Begin ?a ?b ?c ?i ?r (font p)] =>
    destruct (Begin_opens i r (font p) Hin) as (B1 & _ & _ & B4 & B5 & _);
      set (f1 := Begin a b c i r (font p)) in *
  end.
  assert (D : forall emit a b c d base,
             RenderString_with P emit a b c d [] base f1 = Some f1) by reflexivity.
  unfold RenderStringOutlined, RenderStringShadow, RenderString. rewrite !D.
  assert (D' : (if has_flag options (FONT_OUTLINE (flags P)) then Some f1
                else if has_flag options (FONT_SHADOW (flags P)) then Some f1
                else Some f1) = Some f1)
    by (repeat match goal with |- context [if ?b then _ else _] => destruct b end;
        reflexivity).
  rewrite D'. eexists. split; [reflexivity|]. cbn [font].
  destruct (End_closes inListCompile f1 B1) as (_ & _ & _ & _ & _ & E6).
  destruct (SetColors_restores (textColor (font p)) (outlineColor (font p))
              (End_ (threadSafety P) inListCompile f1)) as (_ & _ & (_ & _ & _ & R4) & _).
  rewrite R4, (E6 B5), B4, <- app_assoc. reflexivity.
Qed.
End RenderProperties.

(** ** The byte scan and the code-point scan *)

Lemma glyphs_lines ts : glyphs ts = concat (glyph_lines ts).
Proof.
  induction ts as [|t ts IH]; [reflexivity|].
  destruct t; cbn [glyphs glyph_lines]; try exact IH.
  rewrite IH. destruct (glyph_lines ts) as [|l ls]; reflexivity.
Qed.

Section ScanAgreement.
Variable P : FontParams.
Hypothesis Hdec : decoder_ok (GetNextChar P).
Hypothesis Hsync : decoder_keeps_controls P.

Local Abbreviation CCI := (ColorCodeIndicator P).
Local Abbreviation CRI := (ColorResetIndicator P).
Local Abbreviation tokens_fromP := (tokens_from CCI CRI (GetNextChar P)).
Local Abbreviation next_tokenP := (next_token CCI CRI (GetNextChar P)).

Lemma SkipColorCodes_loop_fuel text :
  forall f1 f2 idx,
    length text - idx <= f1 -> length text - idx <= f2 ->
    SkipColorCodes_loop CCI f1 text idx = SkipColorCodes_loop CCI f2 text idx.
Proof.
  induction f1 as [|f1 IH]; intros f2 idx H1 H2;
    rewrite (SkipColorCodes_loop_eq CCI _ text idx);
    rewrite (SkipColorCodes_loop_eq CCI f2 text idx);
    destruct (Nat.ltb_spec idx (length text)); cbn [andb]; try reflexivity; try lia.
  destruct (Byte.eqb (text @ idx) CCI); [|reflexivity].
  destruct f2 as [|f2]; [lia|]. apply IH; lia.
Qed.

Lemma tokens_from_fuel text :
  forall f1 f2 idx,
    length text - idx <= f1 -> length text - idx <= f2 ->
    tokens_fromP f1 text idx = tokens_fromP f2 text idx.
Proof.
  induction f1 as [|f1 IH]; intros f2 idx H1 H2;
    rewrite (tokens_from_eq CCI CRI (GetNextChar P) _ text idx);
    rewrite (tokens_from_eq CCI CRI (GetNextChar P) f2 text idx);
    destruct (Nat.ltb_spec idx (length text)); try reflexivity; try lia.
  destruct f2 as [|f2]; [lia|].
  destruct (next_token_progress CCI CRI text Hdec H) as (t & idx' & -> & Hadv).
  rewrite (IH f2 idx') by lia. reflexivity.
Qed.

Lemma glyphs_from_end text idx : length text <= idx -> glyphs_from P text idx = [].
Proof.
  intros H. unfold glyphs_from. rewrite tokens_from_eq.
  destruct (Nat.ltb_spec idx (length text)); [lia|reflexivity].
Qed.

Lemma glyphs_from_step text idx t idx' :
  idx < length text ->
  next_tokenP text idx = Some (t, idx') ->
  glyphs_from P text idx = glyphs [t] ++ glyphs_from P text idx'.
Proof.
  intros Hlt Ht. unfold glyphs_from.
  destruct (next_token_progress CCI CRI text Hdec Hlt) as (t0 & idx0 & Ht0 & Hadv).
  rewrite Ht in Ht0. injection Ht0 as <- <-.
  rewrite (tokens_from_eq CCI CRI (GetNextChar P) (length text - idx) text idx).
  destruct (Nat.ltb_spec idx (length text)); [|lia].
  destruct (length text - idx) as [|f] eqn:Hf; [lia|]. rewrite Ht.
  rewrite (@tokens_from_fuel text f (length text - idx') idx') by lia.
  destruct (tokens_from_returns CCI CRI text Hdec (fuel := length text - idx') idx')
    as [ts ->]; [lia|].
  now destruct t.
Qed.

(** A colour code at [idx]: where [SkipColorCodes] goes from there. *)
Lemma SkipColorCodes_shift text idx :
  idx < length text -> text @ idx = CCI ->
  exists idx2,
    SkipColorCodes CCI text idx = Some idx2 /\
    ((length text <= idx + 4 /\ idx2 = length text) \/
     (idx + 4 < length text /\ text @ (idx + 4) <> CCI /\ idx2 = idx + 4) \/
     (idx + 4 < length text /\ text @ (idx + 4) = CCI /\
      SkipColorCodes CCI text (idx + 4) = Some idx2)).
Proof.
  intros Hlt Hb. unfold SkipColorCodes.
  rewrite (SkipColorCodes_loop_eq CCI (length text) text idx).
  destruct (Nat.ltb_spec idx (length text)); [|lia].
  rewrite Hb, byte_eqb_refl. cbn [andb].
  destruct (length text) as [|f] eqn:Hf; [lia|]. rewrite <- Hf in *.
  rewrite (@SkipColorCodes_loop_fuel text f (length text) (idx + 4)) by lia.
  destruct (Nat.ltb_spec (idx + 4) (length text)) as [H4|H4].
  - destruct (Byte.eqb (text @ (idx + 4)) CCI) eqn:Hc.
    + apply byte_eqb_true in Hc.
      destruct (SkipColorCodes_returns CCI text (idx + 4)) as (j & Hj & _).
      unfold SkipColorCodes in Hj.
      destruct (SkipColorCodes_loop CCI (length text) text (idx + 4)) as [k|];
        [|discriminate].
      eexists. split; [reflexivity|]. right. right. now repeat split.
    + rewrite (SkipColorCodes_loop_eq CCI (length text) text (idx + 4)), Hc, andb_false_r.
      eexists. split; [reflexivity|]. right. left.
      repeat split; [assumption| |lia].
      intros E. rewrite E, byte_eqb_refl in Hc. discriminate.
  - rewrite (SkipColorCodes_loop_eq CCI (length text) text (idx + 4)).
    destruct (Nat.ltb_spec (idx + 4) (length text)); [lia|]. cbn [andb].
    eexists. split; [reflexivity|]. left. split; lia.
Qed.

Lemma next_token_control text idx :
  idx < length text ->
  printable_byte CCI CRI (text @ idx) = false ->
  next_tokenP text idx =
    if Byte.eqb (text @ idx) CCI then
      match SkipColorCodes CCI text idx with
      | Some idx2 => Some (TColor, idx2)
      | None => None
      end
    else if Byte.eqb (text @ idx) CRI then Some (TColorReset, idx + 1)
    else if Byte.eqb (text @ idx) x0d then Some (TLineBreak, skip_lf text (idx + 1))
    else Some (TLineBreak, idx + 1).
Proof.
  intros Hlt Hp. pose proof (@Hsync text idx Hlt) as Hs. cbv zeta in Hs.
  rewrite Hp in Hs. unfold next_token. rewrite Hs.
  unfold printable_byte in Hp.
  destruct (Byte.eqb (text @ idx) CCI) eqn:E1.
  { apply byte_eqb_true in E1. rewrite E1, N.eqb_refl.
    replace (idx + 1 - 1) with idx by lia. reflexivity. }
  assert (N1 : N.eqb (char32_of_byte (text @ idx)) (char32_of_byte CCI) = false).
  { apply N.eqb_neq. intros E. apply char32_of_byte_inj in E.
    rewrite E, byte_eqb_refl in E1. discriminate. }
  rewrite N1.
  destruct (Byte.eqb (text @ idx) CRI) eqn:E2.
  { apply byte_eqb_true in E2. now rewrite E2, N.eqb_refl. }
  assert (N2 : N.eqb (char32_of_byte (text @ idx)) (char32_of_byte CRI) = false).
  { apply N.eqb_neq. intros E. apply char32_of_byte_inj in E.
    rewrite E, byte_eqb_refl in E2. discriminate. }
  rewrite N2.
  destruct (Byte.eqb (text @ idx) x0d) eqn:E3.
  { apply byte_eqb_true in E3. now rewrite E3. }
  destruct (Byte.eqb (text @ idx) x0a) eqn:E4; [|discriminate].
  apply byte_eqb_true in E4. now rewrite E4.
Qed.

Lemma next_token_printable text idx :
  idx < length text ->
  printable_byte CCI CRI (text @ idx) = true ->
  next_tokenP text idx
  = Some (TPrintable (fst (GetNextChar P text idx)), snd (GetNextChar P text idx)).
Proof.
  intros Hlt Hp. pose proof (@Hsync text idx Hlt) as Hs. cbv zeta in Hs.
  rewrite Hp in Hs. destruct Hs as (U1 & U2 & U3 & U4).
  unfold next_token. destruct (GetNextChar P text idx) as [u idx1]. cbn [fst snd] in *.
  apply N.eqb_neq in U1, U2, U3, U4. now rewrite U1, U2, U3, U4.
Qed.

(** One iteration of the byte scan passes tokens without a glyph. *)
Lemma scan_body_glyphs text colorReset st st' :
  pos st < length text ->
  scan_body CCI CRI text colorReset st = Some st' ->
  glyphs_from P text (pos st) = glyphs_from P text (pos st').
Proof.
  intros Hlt Hb.
  assert (Hp : printable_byte CCI CRI (text @ pos st) = false).
  { destruct (printable_byte CCI CRI (text @ pos st)) eqn:Hp; [|reflexivity].
    unfold printable_byte in Hp. unfold scan_body in Hb. cbv zeta in Hb.
    destruct (Byte.eqb (text @ pos st) CCI); [discriminate|].
    destruct (Byte.eqb (text @ pos st) CRI); [discriminate|].
    destruct (Byte.eqb (text @ pos st) x0d); [discriminate|].
    destruct (Byte.eqb (text @ pos st) x0a); discriminate. }
  pose proof (next_token_control text Hlt Hp) as Hn.
  unfold scan_body in Hb. cbv zeta in Hb.
  destruct (Byte.eqb (text @ pos st) CCI) eqn:E1.
  - apply byte_eqb_true in E1.
    destruct (SkipColorCodes_shift text Hlt E1) as (idx2 & Hs & Hcases).
    rewrite Hs in Hn. rewrite (glyphs_from_step text Hlt Hn). cbn [glyphs app].
    assert (Hpos : pos st' = pos st + 4)
      by (destruct (pos st + 4 <? length text); inversion Hb; reflexivity).
    rewrite Hpos. destruct Hcases as [[H4 ->]|[(H4 & Hne & ->)|(H4 & He & Hs')]].
    + now rewrite !glyphs_from_end by lia.
    + reflexivity.
    + assert (Hp4 : printable_byte CCI CRI (text @ (pos st + 4)) = false)
        by (unfold printable_byte; now rewrite He, byte_eqb_refl).
      pose proof (next_token_control text H4 Hp4) as Hn4.
      rewrite He, byte_eqb_refl, Hs' in Hn4.
      now rewrite (glyphs_from_step text H4 Hn4).
  - destruct (Byte.eqb (text @ pos st) CRI).
    { rewrite (glyphs_from_step text Hlt Hn). inversion Hb. reflexivity. }
    destruct (Byte.eqb (text @ pos st) x0d).
    { rewrite (glyphs_from_step text Hlt Hn). inversion Hb. cbn [pos glyphs app].
      unfold skip_lf.
      destruct ((pos st + 1 <? length text) && Byte.eqb (text @ (pos st + 1)) x0a);
        [reflexivity|]. now rewrite Nat.add_0_r. }
    destruct (Byte.eqb (text @ pos st) x0a); [|discriminate].
    rewrite (glyphs_from_step text Hlt Hn). inversion Hb. reflexivity.
Qed.

Lemma SkipColorCodesAndNewLines_loop_glyphs text colorReset fuel :
  forall st r st',
    SkipColorCodesAndNewLines_loop CCI CRI fuel text colorReset st = Some (r, st') ->
    glyphs_from P text (pos st) = glyphs_from P text (pos st').
Proof.
  induction fuel as [|fuel IH]; intros st r st';
    rewrite SkipColorCodesAndNewLines_loop_eq;
    destruct (Nat.ltb_spec (pos st) (length text)) as [Hlt|Hge];
    try (intros H; inversion H; reflexivity);
    destruct (scan_body CCI CRI text colorReset st) as [st1|] eqn:Hb;
    try (intros H; inversion H; reflexivity); try discriminate.
  intros H. rewrite (scan_body_glyphs text colorReset st Hlt Hb). now apply IH in H.
Qed.

(** The loop of the drivers adds one quad for each glyph of the code-point
    scan. *)
Lemma RenderString_loop_glyphs
    (emit : float -> float -> float -> float -> GlyphRects -> CglFont -> CglFont) a0 :
  (forall a b c d g s m, appended a0 (va s) m -> appended a0 (va (emit a b c d g s)) (m + 4)) ->
  forall fuel str scaleX scaleY startx lineHeight_ base x y i pc newColor s m,
    length str - i <= fuel ->
    appended a0 (va s) m ->
    exists s',
      RenderString_loop P fuel emit str scaleX scaleY startx lineHeight_ base
        x y i pc newColor s = Some s' /\
      appended a0 (va s') (m + 4 * length (glyphs_from P str i)).
Proof.
  intros HE.
  induction fuel as [|fuel IH];
    intros str scaleX scaleY startx lineHeight_ base x y i pc newColor s m Hfuel Hs;
    cbn [RenderString_loop];
    destruct (SkipColorCodesAndNewLines_post CCI CRI str i newColor base)
      as (r & st & Hscan & Hpos & _ & Hr);
    rewrite Hscan;
    pose proof (SkipColorCodesAndNewLines_loop_glyphs _ _ _ _ Hscan) as Hg;
    cbn [pos] in Hg; rewrite Hg;
    (destruct r;
     [exists s; split; [reflexivity|]; rewrite glyphs_from_end by assumption;
      cbn [length]; now rewrite Nat.mul_0_r, Nat.add_0_r|]);
    destruct Hr as [Hlt Hp]; [lia|].
  pose proof (next_token_printable str Hlt Hp) as Hn.
  rewrite (glyphs_from_step str Hlt Hn).
  destruct (@Hdec str (pos st) Hlt) as [Hadv _].
  destruct (GetNextChar P str (pos st)) as [cc i']. cbn [fst snd] in *.
  destruct (move_cursor P scaleX startx lineHeight_ x y pc cc (skippedLines st)) as [x' y'].
  set (s1 := apply_color P (colorChanged st) (color st) s).
  assert (H1 : appended a0 (va s1) m).
  { subst s1. unfold apply_color, SetColors.
    destruct (colorChanged st); [|assumption].
    destruct Hs as (vs & Hvs & Hl).
    destruct (autoOutlineColor s).
    - destruct (SetTextColor_quiet P (Some (color st)) s) as (_ & A & _).
      destruct (SetOutlineColor_quiet P None
                  (SetTextColor (float4_eq P) (threadSafety P) (Some (color st)) s))
        as (_ & B & _).
      exists vs. split; [congruence|assumption].
    - destruct (SetTextColor_quiet P (Some (color st)) s) as (_ & A & _).
      exists vs. split; [congruence|assumption]. }
  match goal with
  | |- context [RenderString_loop P fuel emit str scaleX scaleY startx lineHeight_ base
                  x' y' i' cc (color st) ?s2] =>
      destruct (IH str scaleX scaleY startx lineHeight_ base x' y' i' cc (color st) s2 (m + 4))
        as (s' & E & A); [lia|now apply HE|]
  end.
  exists s'. split; [exact E|]. cbn [glyphs app length].
  replace (m + 4 * S (length (glyphs_from P str i'))) with
    (m + 4 + 4 * length (glyphs_from P str i')) by lia.
  exact A.
Qed.

Lemma emit_plain_four a0 sx sy a b c d g s m :
  appended a0 (va s) m -> appended a0 (va (emit_plain sx sy a b c d g s)) (m + 4).
Proof.
  intros H. unfold emit_plain. destruct s. cbn [va set_va] in *.
  eapply appended_quad; [eassumption|reflexivity].
Qed.

Lemma emit_shadow_four a0 sx sy a b c d g s m :
  appended a0 (va s) m -> appended a0 (va (emit_shadow P sx sy a b c d g s)) (m + 4).
Proof.
  intros H. unfold emit_shadow. destruct s. cbn [va va2 set_va set_va2] in *.
  eapply appended_quad; [eassumption|reflexivity].
Qed.

Lemma emit_outlined_four a0 sx sy a b c d g s m :
  appended a0 (va s) m -> appended a0 (va (emit_outlined P sx sy a b c d g s)) (m + 4).
Proof.
  intros H. unfold emit_outlined. destruct s. cbn [va va2 set_va set_va2] in *.
  eapply appended_quad; [eassumption|reflexivity].
Qed.

Lemma RenderString_with_glyphs emit x y scaleX scaleY str base s :
  (forall sx sy a b c d g s m a0,
      appended a0 (va s) m -> appended a0 (va (emit sx sy a b c d g s)) (m + 4)) ->
  exists ts s',
    tokens CCI CRI (GetNextChar P) str = Some ts /\
    RenderString_with P emit x y scaleX scaleY str base s = Some s' /\
    appended (va s) (va s') (4 * length (concat (glyph_lines ts))).
Proof.
  intros HE.
  destruct (tokens_returns CCI CRI str Hdec) as [ts Hts].
  assert (H0 : appended (va s) (va s) 0) by (exists []; now rewrite app_nil_r).
  destruct (@RenderString_loop_glyphs (emit scaleX scaleY) (va s)
              (fun a b c d g s1 m H => HE scaleX scaleY a b c d g s1 m (va s) H)
              (length str) str scaleX scaleY x (B32.mul scaleY (GetLineHeight P)) base
              x y 0 0%N (textColor s) s 0) as (s' & E & A); [lia|exact H0|].
  exists ts, s'. split; [exact Hts|]. split; [exact E|].
  unfold glyphs_from in A. rewrite Nat.sub_0_r in A. unfold tokens in Hts.
  rewrite Hts, glyphs_lines in A. exact A.
Qed.
End ScanAgreement.

(** X13. When the decoder reads the four control bytes as themselves and no
    other byte as the start of one, the byte scan of the drivers and the
    code-point scan of [GetTextWidth_] agree: each driver adds one quad, four
    vertices, to the primary collection for each printable code point that
    the token stream of the text holds, neither more nor fewer. *)
Theorem drivers_draw_measured_glyphs (P : FontParams) (x y scaleX scaleY : float)
    (str : u8string) (base : float4) (s : CglFont) :
  decoder_ok (GetNextChar P) ->
  decoder_keeps_controls P ->
  exists ts,
    tokens (ColorCodeIndicator P) (ColorResetIndicator P) (GetNextChar P) str = Some ts /\
    (exists s', RenderString P x y scaleX scaleY str base s = Some s' /\
                appended (va s) (va s') (4 * length (concat (glyph_lines ts)))) /\
    (exists s', RenderStringShadow P x y scaleX scaleY str base s = Some s' /\
                appended (va s) (va s') (4 * length (concat (glyph_lines ts)))) /\
    (exists s', RenderStringOutlined P x y scaleX scaleY str base s = Some s' /\
                appended (va s) (va s') (4 * length (concat (glyph_lines ts)))).
Proof.
  intros Hdec Hsync.
  destruct (@RenderString_with_glyphs P Hdec Hsync emit_plain x y scaleX scaleY str base s)
    as (ts & s1 & Hts & E1 & A1).
  { intros. now apply emit_plain_four. }
  destruct (@RenderString_with_glyphs P Hdec Hsync (emit_shadow P) x y scaleX scaleY str base s)
    as (ts2 & s2 & Hts2 & E2 & A2).
  { intros. now apply emit_shadow_four. }
  destruct (@RenderString_with_glyphs P Hdec Hsync (emit_outlined P) x y scaleX scaleY str base s)
    as (ts3 & s3 & Hts3 & E3 & A3).
  { intros. now apply emit_outlined_four. }
  rewrite Hts in Hts2, Hts3. injection Hts2 as <-. injection Hts3 as <-.
  exists ts. split; [exact Hts|]. split; [|split]; eauto.
Qed.

(** ** The console *)

Lemma nth_error_skipn_cons {A} (l : list A) i x :
  nth_error l i = Some x -> skipn i l = x :: skipn (S i) l.
Proof.
  revert i. induction l as [|a l IH]; intros [|i] H; try discriminate.
  - now inversion H.
  - simpl in H. apply IH in H. exact H.
Qed.

Lemma firstn_app_firstn {A} (n : nat) (a b : list A) :
  firstn n (a ++ firstn n b) = firstn n (a ++ b).
Proof.
  rewrite !firstn_app, firstn_firstn. f_equal. f_equal. lia.
Qed.

Section ConsoleProperties.
Import InfoConsole.
Variable E : Env.

Lemma emplace_lines_texts lifetime now lines :
  forall i data,
    exists added,
      emplace_lines E lifetime now i lines data = data ++ added /\
      map InfoLine_text added = lines.
Proof.
  induction lines as [|l lines IH]; intros i data; simpl.
  - exists []. now rewrite app_nil_r.
  - destruct (IH (S i) (data ++ [mkInfoLine l (now i + spring_secs E lifetime)%Z]))
      as (added & -> & Hm).
    eexists (_ :: added). rewrite <- app_assoc. split; [reflexivity|].
    simpl. now rewrite Hm.
Qed.

(** What [RecordLogMessage] does to each member. *)
Lemma RecordLogMessage_fields smallFont level section text now s :
  exists s' added,
    RecordLogMessage E smallFont level section text now s = Some s' /\
    rawData s' = (if maxRawLines <? length (rawData s) then tl (rawData s) else rawData s)
                 ++ [mkRawLine text section level (rawId s)] /\
    newLines s' = (if newLines s <? maxRawLines then newLines s + 1 else newLines s) /\
    lastMsgPositions s' = lastMsgPositions s /\ lastMsgIter s' = lastMsgIter s /\
    data s' = data s ++ added /\
    (if smallFont
     then SplitIntoLines (ColorCodeIndicator E) (ColorResetIndicator E)
            (Wrap E text (fontSize s)
               (B32.sub (B32.mul (width s) (B32.of_Z (viewSizeX E)))
                  (B32.of_Z (2 * border)%Z)))
          = Some (map InfoLine_text added)
     else added = []).
Proof.
  unfold RecordLogMessage. cbv zeta.
  set (s1 := if maxRawLines <? length (rawData s) then _ else s).
  set (s2 := if newLines s1 <? maxRawLines then _ else s1).
  set (s3 := set_rawId _ _).
  assert (F : rawData s3 = (if maxRawLines <? length (rawData s) then tl (rawData s)
                            else rawData s)
                           ++ [mkRawLine text section level (rawId s)] /\
              newLines s3 = (if newLines s <? maxRawLines then newLines s + 1
                             else newLines s) /\
              lastMsgPositions s3 = lastMsgPositions s /\ lastMsgIter s3 = lastMsgIter s /\
              data s3 = data s /\ fontSize s3 = fontSize s /\ width s3 = width s /\
              lifetime s3 = lifetime s).
  { subst s3 s2 s1.
    destruct (maxRawLines <? length (rawData s)); cbn [newLines set_rawData];
      destruct (newLines s <? maxRawLines); destruct s; now repeat split. }
  destruct F as (F1 & F2 & F3 & F4 & F5 & F6 & F7 & F8).
  destruct smallFont; cbn [negb].
  - rewrite F6, F7.
    destruct (SplitIntoLines_returns (ColorCodeIndicator E) (ColorResetIndicator E)
                (Wrap E text (fontSize s)
                   (B32.sub (B32.mul (width s) (B32.of_Z (viewSizeX E)))
                      (B32.of_Z (2 * border)%Z)))) as [lines Hl].
    rewrite Hl.
    destruct (emplace_lines_texts (lifetime s3) now lines 0 (data s3)) as (added & Ha & Hm).
    exists (set_data (emplace_lines E (lifetime s3) now 0 lines (data s3)) s3), added.
    split; [reflexivity|].
    cbn [rawData newLines lastMsgPositions lastMsgIter data set_data].
    rewrite Ha, F5, Hm. repeat split; assumption.
  - exists s3, []. rewrite app_nil_r. repeat split; assumption.
Qed.

Lemma copy_lines_skipn (l : list RawLine) n :
  forall i, i + n = length l -> copy_lines l i n = Some (skipn i l).
Proof.
  induction n as [|n IH]; intros i H; simpl.
  - rewrite skipn_all2 by lia. reflexivity.
  - destruct (nth_error l i) as [x|] eqn:Hx.
    + rewrite IH by lia. now rewrite (nth_error_skipn_cons _ _ Hx).
    + apply nth_error_None in Hx. lia.
Qed.

(** With no more new lines than lines, the new ones are handed over. *)
Lemma PushNewLinesToEventHandler_returns s :
  newLines s <= length (rawData s) ->
  PushNewLinesToEventHandler s
  = Some (set_newLines 0 s,
          map (fun rawLine => (text rawLine, section rawLine, level rawLine))
            (skipn (length (rawData s) - newLines s) (rawData s))).
Proof.
  intros H. unfold PushNewLinesToEventHandler.
  destruct (newLines s =? 0) eqn:H0.
  - apply Nat.eqb_eq in H0. rewrite H0, Nat.sub_0_r, skipn_all. simpl.
    destruct s. simpl in *. now subst.
  - cbv zeta.
    destruct (Z.ltb_spec (Z.of_nat (length (rawData s)) - Z.of_nat (newLines s)) 0); [lia|].
    replace (Z.to_nat (Z.of_nat (length (rawData s)) - Z.of_nat (newLines s)))
      with (length (rawData s) - newLines s) by lia.
    rewrite copy_lines_skipn by lia. reflexivity.
Qed.

Lemma LastMessagePosition_fields pos s :
  length (lastMsgPositions s) <= maxLastMsgPos ->
  let s' := LastMessagePosition pos s in
  lastMsgPositions s' = firstn maxLastMsgPos (pos :: lastMsgPositions s) /\
  lastMsgIter s' = 0 /\
  rawData s' = rawData s /\ newLines s' = newLines s.
Proof.
  intros H. unfold LastMessagePosition.
  destruct s as [lp li rd d nl ri fs w h ml lt]. cbn in *.
  destruct (maxLastMsgPos <=? length lp) eqn:Hc; cbn.
  - apply Nat.leb_le in Hc. rewrite removelast_firstn_len.
    replace (pred (length lp)) with 9 by (unfold maxLastMsgPos in *; lia).
    now repeat split.
  - apply Nat.leb_gt in Hc.
    rewrite firstn_all2 by (cbn [length]; unfold maxLastMsgPos in *; lia).
    now repeat split.
Qed.

Lemma GetMsgPos_step defaultPos s :
  lastMsgIter s < length (lastMsgPositions s) ->
  GetMsgPos defaultPos s
  = Some (nth (lastMsgIter s) (lastMsgPositions s) defaultPos,
          set_lastMsgIter (S (lastMsgIter s) mod length (lastMsgPositions s)) s).
Proof.
  intros H. unfold GetMsgPos.
  destruct (lastMsgPositions s) as [|p l] eqn:Hl; [simpl in H; lia|].
  cbn [isEmpty]. rewrite <- Hl in *. clear Hl p l.
  destruct (nth_error (lastMsgPositions s) (lastMsgIter s)) as [q|] eqn:Hq;
    [|apply nth_error_None in Hq; lia].
  rewrite (nth_error_nth _ _ defaultPos Hq). cbv zeta.
  destruct s as [lp li rd d nl ri fs w h ml lt]. cbn in *.
  destruct (li + 1 =? length lp) eqn:Hc.
  - apply Nat.eqb_eq in Hc. replace (S li) with (length lp) by lia.
    rewrite Nat.Div0.mod_same. reflexivity.
  - apply Nat.eqb_neq in Hc. rewrite Nat.mod_small by lia.
    replace (li + 1) with (S li) by lia. reflexivity.
Qed.

Lemma pop_excess_skipn maxLines :
  forall i data,
    i = length data ->
    pop_excess i maxLines data = skipn (i - maxLines) data /\
    length (pop_excess i maxLines data) <= maxLines.
Proof.
  induction i as [|i IH]; intros data Hi.
  - destruct data; [|discriminate]. simpl. split; [reflexivity|lia].
  - destruct data as [|a data]; [discriminate|]. injection Hi as Hi.
    cbn [pop_excess]. destruct (Nat.ltb_spec maxLines (S i)).
    + destruct (IH data Hi) as [I1 I2]. cbn [tl]. split; [rewrite I1|exact I2].
      replace (S i - maxLines) with (S (i - maxLines)) by lia. reflexivity.
    + replace (S i - maxLines) with 0 by lia. simpl. split; [reflexivity|lia].
Qed.

Lemma Update_fields smallFont now s :
  let s' := Update E smallFont now s in
  (exists k, data s' = skipn k (data s) /\ (smallFont = false -> k <= 1)) /\
  (smallFont = true -> length (data s') <= maxLines s') /\
  rawData s' = rawData s /\ newLines s' = newLines s /\
  lastMsgPositions s' = lastMsgPositions s /\ lastMsgIter s' = lastMsgIter s.
Proof.
  unfold Update. destruct (isEmpty (data s)) eqn:He.
  - split; [exists 0; split; [reflexivity|lia]|].
    split; [intros _; destruct (data s); [simpl; lia|discriminate]|now repeat split].
  - cbv zeta.
    set (s1 := if (timeout (nth 0 (data s) _) <=? now)%Z then _ else s).
    assert (F : (exists k, data s1 = skipn k (data s) /\ k <= 1) /\
                rawData s1 = rawData s /\ newLines s1 = newLines s /\
                lastMsgPositions s1 = lastMsgPositions s /\ lastMsgIter s1 = lastMsgIter s).
    { subst s1. destruct (timeout _ <=? now)%Z.
      - split; [exists 1; split; [now destruct s; cbn; destruct data0|lia]|now repeat split].
      - split; [exists 0; split; [reflexivity|lia]|now repeat split]. }
    destruct F as ((k & F0 & Fk) & F1 & F2 & F3 & F4).
    destruct smallFont; cbn [negb].
    + set (m := if B32.ltb B32.zero (GetLineHeight E) then _ else 1).
      cbn [data rawData newLines lastMsgPositions lastMsgIter maxLines set_data set_maxLines].
      destruct (@pop_excess_skipn m (length (data s1)) (data s1) eq_refl) as [P1 P2].
      split; [|split; [intros _; exact P2|now repeat split]].
      exists (k + (length (data s1) - m)). rewrite P1, F0, skipn_skipn.
      split; [f_equal; lia|discriminate].
    + split; [exists k; split; [exact F0|intros _; exact Fk]|].
      split; [discriminate|now repeat split].
Qed.

Lemma call_ok s c :
  console_ok s -> exists s', call E s c = Some s' /\ console_ok s'.
Proof.
  intros (H1 & H2 & H3 & H4 & H5).
  destruct c as [sf lv sec t now| | |pos|d|sf now]; cbn [call].
  - destruct (RecordLogMessage_fields sf lv sec t now s)
      as (s' & added & -> & R1 & R2 & R3 & R4 & _).
    exists s'. split; [reflexivity|]. unfold console_ok.
    rewrite R1, R2, R3, R4, length_app. cbn [length].
    destruct (Nat.ltb_spec maxRawLines (length (rawData s)));
      destruct (Nat.ltb_spec (newLines s) maxRawLines);
      try (destruct (rawData s); cbn [tl length] in *);
      repeat split; try assumption; lia.
  - eexists. split; [reflexivity|]. unfold console_ok. cbn.
    repeat split; try assumption; lia.
  - rewrite PushNewLinesToEventHandler_returns by assumption.
    eexists. split; [reflexivity|]. unfold console_ok. cbn.
    repeat split; try assumption; lia.
  - eexists. split; [reflexivity|].
    destruct (LastMessagePosition_fields pos s H4) as (L1 & L2 & L3 & L4).
    unfold console_ok. rewrite L1, L2, L3, L4.
    repeat split; try assumption.
    + rewrite length_firstn. lia.
    + right. change maxLastMsgPos with (S 9). cbn [firstn length]. lia.
  - destruct H5 as [H5|H5].
    + unfold GetMsgPos. rewrite H5. cbn. exists s. split; [reflexivity|].
      unfold console_ok. rewrite H5. repeat split; auto. cbn [length]. lia.
    + rewrite GetMsgPos_step by assumption. eexists. split; [reflexivity|].
      unfold console_ok. cbn. repeat split; try assumption.
      right. apply Nat.mod_upper_bound. lia.
  - eexists. split; [reflexivity|].
    destruct (Update_fields sf now s) as (_ & _ & U1 & U2 & U3 & U4).
    unfold console_ok. rewrite U1, U2, U3, U4. now repeat split.
Qed.

Lemma calls_ok cs :
  forall s, console_ok s -> exists s', calls E cs s = Some s' /\ console_ok s'.
Proof.
  induction cs as [|c cs IH]; intros s Hs; cbn [calls].
  - now exists s.
  - destruct (call_ok c Hs) as (s1 & -> & H1). now apply IH.
Qed.

(** X14. Whatever is called on a console, in whatever order, every call
    returns, [PushNewLinesToEventHandler] and [GetMsgPos] included, which
    read the deques by index and by iterator: there are never more new lines
    than raw lines, at most [maxRawLines + 1] raw lines, at most
    [maxLastMsgPos] positions, and the iterator stands at a position
    whenever there is one. *)
Theorem console_calls_in_bounds (cs : list console_call)
    (lifetime : Z) (fontSize width height : float) :
  exists s, calls E cs (CInfoConsole_new lifetime fontSize width height) = Some s /\
            console_ok s.
Proof.
  apply calls_ok. unfold console_ok. cbn. repeat split; auto; lia.
Qed.

Lemma record_all_raw smallFont now msgs :
  forall s,
    length (rawData s) <= maxRawLines + 1 ->
    exists s1 raws d,
      record_all E msgs smallFont now s = Some s1 /\
      rawData s1 = skipn d (rawData s ++ raws) /\
      map (fun rawLine => (text rawLine, section rawLine, level rawLine)) raws = msgs /\
      length (rawData s1) = Nat.min (length (rawData s) + length msgs) (maxRawLines + 1) /\
      newLines s1 = Nat.min (newLines s + length msgs) (Nat.max (newLines s) maxRawLines) /\
      d <= length (rawData s) + length msgs.
Proof.
  induction msgs as [|[[t sec] lv] msgs IH]; intros s Hlen; cbn [record_all].
  - exists s, [], 0. rewrite app_nil_r. cbn [length skipn map].
    repeat split; lia.
  - destruct (RecordLogMessage_fields smallFont lv sec t now s)
      as (s' & added & -> & R1 & R2 & _).
    assert (Hlen' : length (rawData s') <= maxRawLines + 1).
    { rewrite R1, length_app. cbn [length].
      destruct (Nat.ltb_spec maxRawLines (length (rawData s))); [|lia].
      destruct (rawData s); cbn [tl length] in *; lia. }
    destruct (IH s' Hlen') as (s1 & raws & d & -> & I1 & I2 & I3 & I4 & I5).
    exists s1, (mkRawLine t sec lv (rawId s) :: raws),
      (d + (if maxRawLines <? length (rawData s) then 1 else 0)).
    split; [reflexivity|]. split; [|split; [|split; [|split]]].
    + rewrite I1, R1, <- skipn_skipn. f_equal.
      destruct (Nat.ltb_spec maxRawLines (length (rawData s))).
      * destruct (rawData s); [cbn [length] in *; lia|].
        cbn [tl skipn app]. now rewrite <- app_assoc.
      * cbn [skipn]. now rewrite <- app_assoc.
    + cbn. now rewrite I2.
    + rewrite I3, R1, length_app. cbn [length].
      destruct (Nat.ltb_spec maxRawLines (length (rawData s)));
        [destruct (rawData s); cbn [tl length] in *|]; lia.
    + rewrite I4, R2. cbn [length].
      destruct (Nat.ltb_spec (newLines s) maxRawLines); lia.
    + rewrite R1, length_app in I5. cbn [length] in *.
      destruct (Nat.ltb_spec maxRawLines (length (rawData s)));
        [destruct (rawData s); cbn [tl length] in *|]; lia.
Qed.

(** X15. From a console with no new line, recording messages and then
    calling [PushNewLinesToEventHandler] hands exactly the recorded messages
    to the event handler, in their order, as long as there were at most
    [maxRawLines] of them; of more, it hands over the last [maxRawLines] and
    drops the older ones without a trace. *)
Theorem PushNewLines_delivers_recorded (msgs : list (u8string * u8string * Z))
    (smallFont : bool) (now : nat -> spring_time) (s : CInfoConsole) :
  newLines s = 0 ->
  length (rawData s) <= maxRawLines + 1 ->
  exists s1 s2,
    record_all E msgs smallFont now s = Some s1 /\
    PushNewLinesToEventHandler s1
    = Some (s2, skipn (length msgs - maxRawLines) msgs) /\
    newLines s2 = 0.
Proof.
  intros Hn Hlen.
  destruct (record_all_raw smallFont now msgs s Hlen)
    as (s1 & raws & d & Hr & I1 & I2 & I3 & I4 & I5).
  rewrite Hn in I4. cbn [Nat.add] in I4. rewrite Nat.max_0_l in I4.
  exists s1, (set_newLines 0 s1). split; [exact Hr|]. split; [|reflexivity].
  rewrite PushNewLinesToEventHandler_returns by lia.
  assert (Hm : length raws = length msgs) by (rewrite <- I2; now rewrite length_map).
  assert (Hd : length (rawData s1) = length (rawData s) + length raws - d)
    by (rewrite I1, length_skipn, length_app; reflexivity).
  f_equal. f_equal. rewrite <- Hm, <- I2, skipn_map.
  apply (f_equal (map _)).
  rewrite I1 at 2. rewrite skipn_skipn, skipn_app.
  rewrite skipn_all2 by lia. cbn [app].
  replace (length (rawData s1) - newLines s1 + d - length (rawData s))
    with (length raws - maxRawLines) by lia.
  reflexivity.
Qed.

(** X16. With a font, [RecordLogMessage] removes no line from the console
    and adds the lines of the wrapped text: when that has no colour-set
    indicator and no CR, the added lines joined by LF are the wrapped text
    itself. *)
Theorem RecordLogMessage_shows_wrapped_text (level : Z) (section text : u8string)
    (now : nat -> spring_time) (s : CInfoConsole) :
  let wrappedText :=
    Wrap E text (fontSize s)
      (B32.sub (B32.mul (width s) (B32.of_Z (viewSizeX E))) (B32.of_Z (2 * border)%Z)) in
  Forall (fun b => b <> ColorCodeIndicator E /\ b <> x0d) wrappedText ->
  exists s' added,
    RecordLogMessage E true level section text now s = Some s' /\
    data s' = data s ++ added /\
    join_lines (map InfoLine_text added) = wrappedText.
Proof.
  intros w Hw.
  destruct (RecordLogMessage_fields true level section text now s)
    as (s' & added & Hr & _ & _ & _ & _ & Hd & Hs).
  exists s', added. split; [exact Hr|]. split; [exact Hd|].
  destruct (lines_joined_give_text (ColorResetIndicator E) Hw) as (ls & Hl & Hj).
  fold w in Hs. rewrite Hl in Hs. injection Hs as <-. exact Hj.
Qed.

Lemma GetMsgPos_times_walk defaultPos k :
  forall s,
    lastMsgIter s < length (lastMsgPositions s) ->
    GetMsgPos_times k defaultPos s
    = Some (map (fun j => nth ((lastMsgIter s + j) mod length (lastMsgPositions s))
                            (lastMsgPositions s) defaultPos) (seq 0 k),
            set_lastMsgIter ((lastMsgIter s + k) mod length (lastMsgPositions s)) s).
Proof.
  induction k as [|k IH]; intros s H; cbn [GetMsgPos_times].
  - rewrite Nat.add_0_r, Nat.mod_small by assumption. destruct s. reflexivity.
  - rewrite GetMsgPos_step by assumption.
    set (n := length (lastMsgPositions s)) in *.
    set (s1 := set_lastMsgIter (S (lastMsgIter s) mod n) s).
    assert (H1 : lastMsgIter s1 < length (lastMsgPositions s1)).
    { subst s1. cbn. apply Nat.mod_upper_bound. lia. }
    rewrite (IH s1 H1). subst s1. cbn [lastMsgIter lastMsgPositions set_lastMsgIter].
    fold n.
    assert (A : forall j, (S (lastMsgIter s) mod n + j) mod n = (lastMsgIter s + S j) mod n).
    { intros j. rewrite Nat.Div0.add_mod_idemp_l. f_equal. lia. }
    cbn [seq map]. rewrite <- seq_shift, map_map, Nat.add_0_r, (Nat.mod_small _ _ H), A.
    erewrite map_ext; [|intros j; rewrite A; reflexivity].
    destruct s. reflexivity.
Qed.

(** X17. With the iterator at a position, successive calls of [GetMsgPos]
    walk the positions cyclically from there: call [j] returns the position
    at [(i + j) mod n] of the [n] positions for an iterator that started at
    [i], the default is never returned, and the positions stay as they
    are. *)
Theorem GetMsgPos_walks_cyclically (defaultPos : float3) (k : nat) (s : CInfoConsole) :
  lastMsgIter s < length (lastMsgPositions s) ->
  GetMsgPos_times k defaultPos s
  = Some (map (fun j => nth ((lastMsgIter s + j) mod length (lastMsgPositions s))
                          (lastMsgPositions s) defaultPos) (seq 0 k),
          set_lastMsgIter ((lastMsgIter s + k) mod length (lastMsgPositions s)) s).
Proof. apply GetMsgPos_times_walk. Qed.

Lemma LastMessagePositions_keep ps :
  forall s,
    length (lastMsgPositions s) <= maxLastMsgPos ->
    exists s',
      calls E (map CallLastMessagePosition ps) s = Some s' /\
      lastMsgPositions s' = firstn maxLastMsgPos (rev ps ++ lastMsgPositions s) /\
      (ps <> [] -> lastMsgIter s' = 0).
Proof.
  induction ps as [|p ps IH]; intros s H; cbn [map calls call].
  - exists s. split; [reflexivity|]. split; [|congruence].
    cbn [rev app]. now rewrite firstn_all2.
  - destruct (LastMessagePosition_fields p s H) as (L1 & L2 & _).
    assert (H' : length (lastMsgPositions (LastMessagePosition p s)) <= maxLastMsgPos)
      by (rewrite L1, length_firstn; lia).
    destruct (IH _ H') as (s' & Hc & I1 & I2).
    exists s'. split; [exact Hc|]. split.
    + rewrite I1, L1, firstn_app_firstn. cbn [rev]. now rewrite <- app_assoc.
    + intros _. destruct ps as [|q ps]; [|apply I2; discriminate].
      cbn [map calls] in Hc. injection Hc as <-. exact L2.
Qed.

(** X18. The console keeps the [maxLastMsgPos] most recent message
    positions, the newest first, and the next [GetMsgPos] returns the
    newest. *)
Theorem LastMessagePosition_newest_first (ps : list float3) (defaultPos : float3)
    (s : CInfoConsole) :
  length (lastMsgPositions s) <= maxLastMsgPos ->
  exists s',
    calls E (map CallLastMessagePosition ps) s = Some s' /\
    lastMsgPositions s' = firstn maxLastMsgPos (rev ps ++ lastMsgPositions s) /\
    (ps <> [] -> exists s'', GetMsgPos defaultPos s' = Some (last ps defaultPos, s'')).
Proof.
  intros H. destruct (LastMessagePositions_keep ps s H) as (s' & Hc & Hl & Hi).
  exists s'. split; [exact Hc|]. split; [exact Hl|]. intros Hne.
  specialize (Hi Hne).
  destruct (exists_last Hne) as (ps' & a & ->).
  rewrite rev_app_distr in Hl. cbn [rev app] in Hl.
  change maxLastMsgPos with (S 9) in Hl. cbn [firstn] in Hl.
  rewrite GetMsgPos_step by (rewrite Hl, Hi; cbn; lia).
  rewrite Hi, Hl, last_last. cbn [nth]. eauto.
Qed.

End ConsoleProperties.


(** ** The further properties on a concrete configuration *)

(** The single-byte decoder keeps the control bytes. *)
Lemma Sample_decoder_keeps_controls : decoder_keeps_controls Sample.params.
Proof.
  intros text idx Hlt. cbv zeta.
  change (GetNextChar Sample.params text idx) with (char32_of_byte (text @ idx), idx + 1).
  destruct (printable_byte _ _ (text @ idx)) eqn:Hp; [|reflexivity].
  unfold printable_byte in Hp. cbn [fst].
  apply andb_true_iff in Hp. destruct Hp as [Hp H4].
  apply andb_true_iff in Hp. destruct Hp as [Hp H3].
  apply andb_true_iff in Hp. destruct Hp as [H1 H2].
  repeat split; intros E;
    [change (char32_of_byte (text @ idx) = char32_of_byte Example.ColorCodeIndicator) in E
    |change (char32_of_byte (text @ idx) = char32_of_byte Example.ColorResetIndicator) in E
    |change (char32_of_byte (text @ idx) = char32_of_byte x0d) in E
    |change (char32_of_byte (text @ idx) = char32_of_byte x0a) in E];
    apply char32_of_byte_inj in E; rewrite E in *; discriminate.
Qed.

Lemma SplitIntoLines_GetTextNumLines_agree_witness :
  x01 <> x0a /\
  complete_codes x01 Sample.items /\
  exists ls,
    SplitIntoLines x01 x08 (render x01 Sample.items) = Some ls /\
    GetTextNumLines_ x01 x08 (render x01 Sample.items) = Some (length ls) /\
    length ls = 3.
Proof.
  assert (H1 : x01 <> x0a) by discriminate.
  assert (H2 : complete_codes x01 Sample.items)
    by (repeat constructor; discriminate).
  split; [exact H1|]. split; [exact H2|].
  exact (@SplitIntoLines_GetTextNumLines_agree x01 x08 Sample.items H1 H2).
Defined.

Lemma SplitIntoLines_join_witness :
  Forall (fun b => b <> x01 /\ b <> x0d) Sample.text_hi_yo /\
  exists ls, SplitIntoLines x01 x08 Sample.text_hi_yo = Some ls /\
             join_lines ls = Sample.text_hi_yo.
Proof.
  assert (H : Forall (fun b => b <> x01 /\ b <> x0d) Sample.text_hi_yo)
    by (repeat constructor; discriminate).
  split; [exact H|].
  exact (@SplitIntoLines_join x01 x08 Sample.text_hi_yo H).
Defined.

Lemma strip_boundaries_in_session_witness :
  inBeginEnd (run Example.pow Example.float4_eq false Sample.ops_vertex_red) = true /\
  boundaries_ok (va (run Example.pow Example.float4_eq false Sample.ops_vertex_red))
    (stripTextColors (run Example.pow Example.float4_eq false Sample.ops_vertex_red)) /\
  boundaries_ok (va2 (run Example.pow Example.float4_eq false Sample.ops_vertex_red))
    (stripOutlineColors (run Example.pow Example.float4_eq false Sample.ops_vertex_red)).
Proof.
  assert (H : inBeginEnd (run Example.pow Example.float4_eq false Sample.ops_vertex_red)
              = true) by reflexivity.
  split; [exact H|].
  exact (@strip_boundaries_in_session Example.pow Example.float4_eq false
           Sample.ops_vertex_red H).
Defined.

Lemma drivers_append_quads_witness :
  decoder_ok (GetNextChar Sample.params) /\
  exists s' n,
    RenderString Sample.params (B32.of_Z 0) (B32.of_Z 0) (B32.of_Z 1) (B32.of_Z 1)
      Example.text_scenario white CglFont_new = Some s' /\
    quiet CglFont_new s' /\
    appended (va CglFont_new) (va s') (4 * n) /\
    drawArray (va2 s') = drawArray (va2 CglFont_new).
Proof.
  split; [exact Example_decoder_ok|].
  exact (proj1 (@drivers_append_quads Sample.params (B32.of_Z 0) (B32.of_Z 0)
                  (B32.of_Z 1) (B32.of_Z 1) Example.text_scenario white CglFont_new
                  Example_decoder_ok)).
Defined.

Lemma glPrint_is_operations_witness :
  decoder_ok (GetNextChar Sample.params) /\
  exists p' driver,
    glPrint Sample.params (B32.of_Z 10) (B32.of_Z 20) (B32.of_Z 1) 512
      Example.text_scenario false Sample.printer = Some p' /\
    forallb is_drawing_op driver = true /\
    font p' = performs Sample.params
                (glPrint_operations Sample.params 512 false (font Sample.printer) driver)
                (font Sample.printer) /\
    baseTextColor p' = textColor (font Sample.printer) /\
    baseOutlineColor p' = outlineColor (font Sample.printer).
Proof.
  split; [exact Example_decoder_ok|].
  exact (@glPrint_is_operations Sample.params (B32.of_Z 10) (B32.of_Z 20) (B32.of_Z 1) 512
           Example.text_scenario false Sample.printer Example_decoder_ok).
Defined.

Lemma glPrint_restores_state_witness :
  decoder_ok (GetNextChar Sample.params) /\
  exists p',
    glPrint Sample.params (B32.of_Z 10) (B32.of_Z 20) (B32.of_Z 1) 0
      Example.text_scenario false Sample.printer = Some p' /\
    textColor (font p') = white /\
    outlineColor (font p') = darkOutline /\
    inBeginEnd (font p') = false /\
    vaMutex (font p') = 0 /\
    errorLog (font p') = [].
Proof.
  split; [exact Example_decoder_ok|].
  exact (@glPrint_restores_state Sample.params (B32.of_Z 10) (B32.of_Z 20) (B32.of_Z 1) 0
           Example.text_scenario false Sample.printer Example_decoder_ok).
Defined.

Lemma glPrint_in_session_defers_witness :
  decoder_ok (GetNextChar Sample.params) /\
  inBeginEnd (font Sample.printer_in_session) = true /\
  exists p',
    glPrint Sample.params (B32.of_Z 10) (B32.of_Z 20) (B32.of_Z 1) 1024
      Example.text_scenario false Sample.printer_in_session = Some p' /\
    glCalls (font p') = glCalls (font Sample.printer_in_session) /\
    (exists vs, drawArray (va (font p'))
                = drawArray (va (font Sample.printer_in_session)) ++ vs) /\
    (exists vs, drawArray (va2 (font p'))
                = drawArray (va2 (font Sample.printer_in_session)) ++ vs).
Proof.
  assert (H : inBeginEnd (font Sample.printer_in_session) = true) by reflexivity.
  split; [exact Example_decoder_ok|]. split; [exact H|].
  exact (@glPrint_in_session_defers Sample.params (B32.of_Z 10) (B32.of_Z 20) (B32.of_Z 1)
           1024 Example.text_scenario false Sample.printer_in_session
           Example_decoder_ok H).
Defined.

Lemma glPrint_keeps_invariants_witness :
  decoder_ok (GetNextChar Sample.params) /\
  eq_euclidean (float4_eq Sample.params) /\
  exists p',
    glPrint Sample.params (B32.of_Z 10) (B32.of_Z 20) (B32.of_Z 1) 512
      Example.text_scenario false Sample.printer = Some p' /\
    resources_ok (threadSafety Sample.params) (font p') /\
    session_boundaries (font p') /\
    session_strips (font p') /\
    batch_ok (float4_eq Sample.params) (font p').
Proof.
  split; [exact Example_decoder_ok|]. split; [exact Example_float4_eq_euclidean|].
  destruct (@glPrint_keeps_invariants Sample.params (B32.of_Z 10) (B32.of_Z 20)
              (B32.of_Z 1) 512 Example.text_scenario false Sample.printer
              Example_decoder_ok) as (p' & E & H1 & H2 & H3 & H4).
  exists p'. split; [exact E|].
  split; [apply H1; repeat split; reflexivity|].
  split; [apply H2; exact (@session_boundaries_run Example.pow Example.float4_eq false [])|].
  split; [apply H3; exact (@session_strips_run Example.pow Example.float4_eq false [])|].
  apply (H4 Example_float4_eq_euclidean).
  exact (@batch_ok_run Example.pow Example.float4_eq false Example_float4_eq_euclidean []).
Defined.

Lemma glPrint_empty_text_witness :
  inBeginEnd (font Sample.printer) = false /\
  exists p',
    glPrint Sample.params (B32.of_Z 10) (B32.of_Z 20) (B32.of_Z 1) 2 [] false
      Sample.printer = Some p' /\
    glCalls (font p') =
      [glPushAttrib; glDisable GL_LIGHTING; glDisable GL_DEPTH_TEST;
       glEnable GL_BLEND; glBlendFunc; glPopAttrib].
Proof.
  assert (H : inBeginEnd (font Sample.printer) = false) by reflexivity.
  split; [exact H|].
  exact (@glPrint_empty_text Sample.params (B32.of_Z 10) (B32.of_Z 20) (B32.of_Z 1) 2
           false Sample.printer H).
Defined.

Lemma PushNewLines_delivers_recorded_witness :
  InfoConsole.newLines Sample.console = 0 /\
  length (InfoConsole.rawData Sample.console) <= InfoConsole.maxRawLines + 1 /\
  exists s1 s2,
    InfoConsole.record_all Sample.env Sample.messages true (fun _ => 0%Z) Sample.console
    = Some s1 /\
    InfoConsole.PushNewLinesToEventHandler s1
    = Some (s2, skipn (length Sample.messages - InfoConsole.maxRawLines) Sample.messages) /\
    InfoConsole.newLines s2 = 0.
Proof.
  assert (H1 : InfoConsole.newLines Sample.console = 0) by reflexivity.
  assert (H2 : length (InfoConsole.rawData Sample.console) <= InfoConsole.maxRawLines + 1)
    by (cbn; lia).
  split; [exact H1|]. split; [exact H2|].
  exact (@PushNewLines_delivers_recorded Sample.env Sample.messages true (fun _ => 0%Z)
           Sample.console H1 H2).
Defined.

Lemma RecordLogMessage_shows_wrapped_text_witness :
  Forall (fun b => b <> x01 /\ b <> x0d) Sample.text_hi_yo /\
  exists s' added,
    InfoConsole.RecordLogMessage Sample.env true 0 [] Sample.text_hi_yo (fun _ => 0%Z)
      Sample.console = Some s' /\
    InfoConsole.data s' = InfoConsole.data Sample.console ++ added /\
    join_lines (map InfoConsole.InfoLine_text added) = Sample.text_hi_yo.
Proof.
  assert (H : Forall (fun b => b <> x01 /\ b <> x0d) Sample.text_hi_yo)
    by (repeat constructor; discriminate).
  split; [exact H|].
  exact (@RecordLogMessage_shows_wrapped_text Sample.env 0 [] Sample.text_hi_yo
           (fun _ => 0%Z) Sample.console H).
Defined.

Lemma GetMsgPos_walks_cyclically_witness :
  InfoConsole.lastMsgIter Sample.console_positions
  < length (InfoConsole.lastMsgPositions Sample.console_positions) /\
  InfoConsole.GetMsgPos_times 5 Sample.pos3 Sample.console_positions
  = Some ([Sample.pos1; Sample.pos2; Sample.pos3; Sample.pos1; Sample.pos2],
          InfoConsole.set_lastMsgIter 2 Sample.console_positions).
Proof.
  assert (H : InfoConsole.lastMsgIter Sample.console_positions
              < length (InfoConsole.lastMsgPositions Sample.console_positions))
    by (cbn; lia).
  split; [exact H|].
  exact (@GetMsgPos_walks_cyclically Sample.pos3 5 Sample.console_positions H).
Defined.

Lemma LastMessagePosition_newest_first_witness :
  length (InfoConsole.lastMsgPositions Sample.console) <= InfoConsole.maxLastMsgPos /\
  exists s',
    InfoConsole.calls Sample.env
      (map InfoConsole.CallLastMessagePosition [Sample.pos1; Sample.pos2]) Sample.console
    = Some s' /\
    InfoConsole.lastMsgPositions s' = [Sample.pos2; Sample.pos1] /\
    ([Sample.pos1; Sample.pos2] <> [] ->
     exists s'', InfoConsole.GetMsgPos Sample.pos3 s' = Some (Sample.pos2, s'')).
Proof.
  assert (H : length (InfoConsole.lastMsgPositions Sample.console)
              <= InfoConsole.maxLastMsgPos) by (cbn; lia).
  split; [exact H|].
  exact (@LastMessagePosition_newest_first Sample.env [Sample.pos1; Sample.pos2]
           Sample.pos3 Sample.console H).
Defined.

Lemma drivers_draw_measured_glyphs_witness :
  decoder_ok (GetNextChar Sample.params) /\
  decoder_keeps_controls Sample.params /\
  exists ts,
    tokens x01 x08 Example.GetNextChar Example.text_scenario = Some ts /\
    (exists s', RenderString Sample.params (B32.of_Z 0) (B32.of_Z 0) (B32.of_Z 1)
                  (B32.of_Z 1) Example.text_scenario white CglFont_new = Some s' /\
                appended (va CglFont_new) (va s')
                  (4 * length (concat (glyph_lines ts)))) /\
    (exists s', RenderStringShadow Sample.params (B32.of_Z 0) (B32.of_Z 0) (B32.of_Z 1)
                  (B32.of_Z 1) Example.text_scenario white CglFont_new = Some s' /\
                appended (va CglFont_new) (va s')
                  (4 * length (concat (glyph_lines ts)))) /\
    (exists s', RenderStringOutlined Sample.params (B32.of_Z 0) (B32.of_Z 0) (B32.of_Z 1)
                  (B32.of_Z 1) Example.text_scenario white CglFont_new = Some s' /\
                appended (va CglFont_new) (va s')
                  (4 * length (concat (glyph_lines ts)))).
Proof.
  split; [exact Example_decoder_ok|]. split; [exact Sample_decoder_keeps_controls|].
  exact (@drivers_draw_measured_glyphs Sample.params (B32.of_Z 0) (B32.of_Z 0)
           (B32.of_Z 1) (B32.of_Z 1) Example.text_scenario white CglFont_new
           Example_decoder_ok Sample_decoder_keeps_controls).
Defined.
